(** * Calibration entries of [qiskit.pulse.calibration_entries]

    A shallow embedding of the three calibration entry classes
    ([ScheduleDef], [CallableDef], [PulseQobjDef]) together with the parts
    of Python they rely on: mutable schedule objects living in a store,
    exceptions, and the argument binding of the [inspect] module. *)

From Stdlib Require Import ZArith Lia Strings.Ascii.
From stdpp Require Import base option gmap strings list sorting.

#[local] Set Warnings "-register-all".
#[local] Open Scope Z_scope.

(** ** Python values *)

(** [class CalibrationPublisher(IntEnum)]; the second member is named
    [QISKIT] in the source. *)
Inductive CalibrationPublisher :=
  | BACKEND_PROVIDER
  | QISKIT
  | EXPERIMENT_SERVICE.

Definition CalibrationPublisher_value (p : CalibrationPublisher) : Z :=
  match p with
  | BACKEND_PROVIDER => 0
  | QISKIT => 1
  | EXPERIMENT_SERVICE => 2
  end.

(** The values that travel through argument lists and metadata maps.
    Tuples and dictionaries are needed because [inspect] packs surplus
    positional and keyword arguments into them. *)
Inductive PyVal :=
  | VNone
  | VInt (z : Z)
  | VStr (s : string)
  | VPublisher (p : CalibrationPublisher)
  | VTuple (l : list PyVal)
  | VDict (d : list (string * PyVal)).

#[global] Instance CalibrationPublisher_eq_dec : EqDecision CalibrationPublisher.
Proof. solve_decision. Defined.

Fixpoint PyVal_eqb (x y : PyVal) {struct x} : bool :=
  match x, y with
  | VNone, VNone => true
  | VInt a, VInt b => bool_decide (a = b)
  | VStr a, VStr b => bool_decide (a = b)
  | VPublisher a, VPublisher b => bool_decide (a = b)
  | VTuple l1, VTuple l2 =>
      (fix go (l1 l2 : list PyVal) {struct l1} : bool :=
         match l1, l2 with
         | [], [] => true
         | a :: l1', b :: l2' => PyVal_eqb a b && go l1' l2'
         | _, _ => false
         end) l1 l2
  | VDict d1, VDict d2 =>
      (fix go (d1 d2 : list (string * PyVal)) {struct d1} : bool :=
         match d1, d2 with
         | [], [] => true
         | (k1, a) :: d1', (k2, b) :: d2' =>
             bool_decide (k1 = k2) && PyVal_eqb a b && go d1' d2'
         | _, _ => false
         end) d1 d2
  | _, _ => false
  end.

(** ** Exceptions and results *)

(** [PulseError] carries the fixed part of its message, which is what tells
    the three kinds of the specification apart. *)
Inductive exn :=
  | PulseError (msg : string)
  | TypeError
  | ValueError
  | AttributeError
  | IndexError.

Inductive outcome (A : Type) :=
  | Returns (a : A)
  | Raises (e : exn).
Arguments Returns {A} a.
Arguments Raises {A} e.

Definition msg_arguments_not_names : string :=
  "Arguments must be name of parameters.".
Definition msg_argument_mismatch : string :=
  "Specified arguments don't match with schedule parameters.".
Definition msg_binding_schedule : string :=
  "Assigned parameter doesn't match with schedule parameters.".
Definition msg_binding_function : string :=
  "Assigned parameter doesn't match with function signature.".

(** The error kinds of the specification, as the source raises them. *)
Definition InvalidArgument : exn := PulseError msg_arguments_not_names.
Definition ArgumentMismatch : exn := PulseError msg_argument_mismatch.
Definition BindingError_schedule : exn := PulseError msg_binding_schedule.
Definition BindingError_function : exn := PulseError msg_binding_function.

(** ** Ordering of strings

    Python compares [str] by code point; on UTF-8 encoded text that is the
    byte-wise lexicographic order of [String.compare]. *)
Definition str_le (a b : string) : Prop := String.leb a b = true.
Definition str_lt (a b : string) : Prop := String.ltb a b = true.

#[global] Instance str_le_dec : RelDecision str_le.
Proof. intros a b. unfold str_le. apply _. Defined.

#[global] Instance str_lt_dec : RelDecision str_lt.
Proof. intros a b. unfold str_lt. apply _. Defined.

(** [sorted(names)] for a collection of strings. *)
Definition sorted (l : list string) : list string := merge_sort str_le l.

(** ** Schedules

    [qiskit.pulse.schedule] is not part of the sources at hand.  What the
    entries need from a schedule-like value is fixed by the specification:
    a name, a mutable string-keyed metadata mapping, a set of named
    parameters found by introspection, [insert] and [assign_parameters]. *)

(** A symbolic parameter object ([qiskit.circuit.Parameter]): a name, and an
    identity that tells two parameter objects of the same name apart. *)
Record ParameterObj := { pname : string; puuid : N }.

#[global] Instance ParameterObj_eq_dec : EqDecision ParameterObj.
Proof. solve_decision. Defined.

#[global] Instance ParameterObj_countable : Countable ParameterObj.
Proof.
  refine (inj_countable' (λ p, (pname p, puuid p))
                         (λ t, {| pname := t.1; puuid := t.2 |}) _).
  by intros [].
Defined.

(** An operand of an instruction is still symbolic or already has a value. *)
Inductive Operand :=
  | Unbound (p : ParameterObj)
  | Bound (v : PyVal).

Record Instruction := { opcode : string; operands : list Operand }.

(** Modelled from the spec: the schedule-like value of [qiskit.pulse.schedule]
    (not under the sources): its name, its metadata mapping and its timed
    instructions, kept in the order of their start offsets. *)
Record Schedule := {
  sched_name : option string;
  sched_metadata : gmap string PyVal;
  sched_instructions : list (Z * Instruction)
}.

Definition Operand_parameters (o : Operand) : list ParameterObj :=
  match o with
  | Unbound p => [p]
  | Bound _ => []
  end.

Definition Instruction_parameters (i : Instruction) : list ParameterObj :=
  flat_map Operand_parameters (operands i).

(** Modelled from the spec: [Schedule.parameters], the set of parameter
    objects referenced anywhere inside the value. *)
Definition Schedule_parameters (s : Schedule) : gset ParameterObj :=
  list_to_set (flat_map (λ ti, Instruction_parameters ti.2) (sched_instructions s)).

(** Modelled from the spec: [Schedule(name=...)], an empty named container
    with an empty metadata mapping.  A name that is not given stays [None]
    here; the statements that read the name of a built schedule are about
    entries that were given one. *)
Definition Schedule_new (name : option string) : Schedule :=
  {| sched_name := name; sched_metadata := ∅; sched_instructions := [] |}.

(** Modelled from the spec: the stable insert at a start offset.  The new
    instruction goes behind every instruction that starts no later. *)
Fixpoint insert_at (t0 : Z) (inst : Instruction) (l : list (Z * Instruction))
  : list (Z * Instruction) :=
  match l with
  | [] => [(t0, inst)]
  | (t, i) :: l' =>
      if decide (t ≤ t0) then (t, i) :: insert_at t0 inst l'
      else (t0, inst) :: (t, i) :: l'
  end.

(** [schedule.insert(t0, inst, inplace=True)]: metadata and name are kept. *)
Definition Schedule_insert (t0 : Z) (inst : Instruction) (s : Schedule) : Schedule :=
  {| sched_name := sched_name s;
     sched_metadata := sched_metadata s;
     sched_instructions := insert_at t0 inst (sched_instructions s) |}.

Definition Operand_assign (value_dict : gmap ParameterObj PyVal) (o : Operand) : Operand :=
  match o with
  | Unbound p =>
      match value_dict !! p with
      | Some v => Bound v
      | None => Unbound p
      end
  | Bound v => Bound v
  end.

Definition Instruction_assign (value_dict : gmap ParameterObj PyVal) (i : Instruction)
  : Instruction :=
  {| opcode := opcode i; operands := Operand_assign value_dict <$> operands i |}.

(** Modelled from the spec: the value [assign_parameters] computes; every
    symbolic operand that has an entry in [value_dict] takes its value, the
    others stay symbolic. *)
Definition Schedule_assign (value_dict : gmap ParameterObj PyVal) (s : Schedule) : Schedule :=
  {| sched_name := sched_name s;
     sched_metadata := sched_metadata s;
     sched_instructions :=
       prod_map id (Instruction_assign value_dict) <$> sched_instructions s |}.

Definition Operand_eqb (a b : Operand) : bool :=
  match a, b with
  | Unbound p, Unbound q => bool_decide (p = q)
  | Bound v, Bound w => PyVal_eqb v w
  | _, _ => false
  end.

Fixpoint list_eqb {A} (eqb : A → A → bool) (l1 l2 : list A) : bool :=
  match l1, l2 with
  | [], [] => true
  | a :: l1', b :: l2' => eqb a b && list_eqb eqb l1' l2'
  | _, _ => false
  end.

Definition Instruction_eqb (a b : Instruction) : bool :=
  bool_decide (opcode a = opcode b) && list_eqb Operand_eqb (operands a) (operands b).

(** Modelled from the spec: equality of schedule-like values is the
    collaborator's own and is by value; two schedules are equal when they
    hold the same instructions at the same offsets. *)
Definition Schedule_eqb (a b : Schedule) : bool :=
  list_eqb (λ x y, bool_decide (x.1 = y.1) && Instruction_eqb x.2 y.2)
           (sched_instructions a) (sched_instructions b).

(** ** The store *)

(** Schedules are mutable objects; an entry holds a reference to one. *)
Definition loc := nat.

(** What an observer counting builds and callback invocations sees. *)
Inductive Event :=
  | EvBuild
  | EvInvoke (callable : N) (kwargs : gmap string PyVal).

Record World := {
  heap : gmap loc Schedule;
  trace : list Event
}.

Definition empty_world : World := {| heap := ∅; trace := [] |}.

Definition is_build (ev : Event) : bool :=
  match ev with
  | EvBuild => true
  | EvInvoke _ _ => false
  end.

Definition is_invoke (ev : Event) : bool :=
  match ev with
  | EvBuild => false
  | EvInvoke _ _ => true
  end.

(** The number of builds, respectively of callback invocations, so far. *)
Definition builds (w : World) : nat := length (filter is_build (trace w)).

Definition invocations (w : World) : nat := length (filter is_invoke (trace w)).

(** ** Methods as computations

    A method runs on its receiver [self] (of type [E]) and on the store,
    and either returns or raises; what it did to [self] and to the store
    before raising stays done. *)
Definition M (E A : Type) : Type := E → World → outcome A * E * World.

#[global] Instance M_ret {E} : MRet (M E) :=
  λ A a self w, (Returns a, self, w).

#[global] Instance M_bind {E} : MBind (M E) :=
  λ A B f c self w,
    match c self w with
    | (Returns a, self', w') => f a self' w'
    | (Raises e, self', w') => (Raises e, self', w')
    end.

Definition raise {E A} (e : exn) : M E A := λ self w, (Raises e, self, w).

Definition get_self {E} : M E E := λ self w, (Returns self, self, w).

Definition set_self {E} (self' : E) : M E unit := λ _ w, (Returns (), self', w).

Definition lift {E A} (o : outcome A) : M E A := λ self w, (o, self, w).

Definition emit {E} (ev : Event) : M E unit :=
  λ self w, (Returns (), self, {| heap := heap w; trace := trace w ++ [ev] |}).

(** Attribute access on a reference that is not a schedule object. *)
Definition read_schedule {E} (l : loc) : M E Schedule :=
  λ self w,
    match heap w !! l with
    | Some s => (Returns s, self, w)
    | None => (Raises AttributeError, self, w)
    end.

Definition write_schedule {E} (l : loc) (s : Schedule) : M E unit :=
  λ self w, (Returns (), self, {| heap := <[l := s]> (heap w); trace := trace w |}).

(** A new object gets an identity no live object has. *)
Definition alloc_schedule {E} (s : Schedule) : M E loc :=
  λ self w,
    let l := fresh (dom (heap w)) in
    (Returns l, self, {| heap := <[l := s]> (heap w); trace := trace w |}).

(** [schedule.metadata[key] = v] on the object at [l]. *)
Definition set_metadata {E} (l : loc) (key : string) (v : PyVal) : M E unit :=
  s ← read_schedule l;
  write_schedule l {| sched_name := sched_name s;
                      sched_metadata := <[key := v]> (sched_metadata s);
                      sched_instructions := sched_instructions s |}.

(** Modelled from the spec: [assign_parameters(value_dict, inplace=False)]
    leaves the receiver alone and returns a new schedule-like value. *)
Definition assign_parameters {E} (l : loc) (value_dict : gmap ParameterObj PyVal) : M E loc :=
  s ← read_schedule l;
  alloc_schedule (Schedule_assign value_dict s).

(** ** The [inspect] module

    Signatures, and the way Python binds positional and keyword arguments
    to them, after CPython's [Lib/inspect.py]. *)

(** [inspect._ParameterKind], an [IntEnum] in this order. *)
Inductive ParamKind :=
  | POSITIONAL_ONLY
  | POSITIONAL_OR_KEYWORD
  | VAR_POSITIONAL
  | KEYWORD_ONLY
  | VAR_KEYWORD.

#[global] Instance ParamKind_eq_dec : EqDecision ParamKind.
Proof. solve_decision. Defined.

Definition kind_value (k : ParamKind) : Z :=
  match k with
  | POSITIONAL_ONLY => 0
  | POSITIONAL_OR_KEYWORD => 1
  | VAR_POSITIONAL => 2
  | KEYWORD_ONLY => 3
  | VAR_KEYWORD => 4
  end.

(** [inspect.Parameter]; [param_default = None] stands for [Parameter.empty]. *)
Record SigParam := {
  param_name : string;
  param_kind : ParamKind;
  param_default : option PyVal
}.

(** [inspect.Signature]: the ordered parameters. *)
Record Signature := { parameters : list SigParam }.

Definition signature_names (sig : Signature) : list string :=
  param_name <$> parameters sig.

Definition has_default (param : SigParam) : bool :=
  bool_decide (is_Some (param_default param)).

(** A serialized instruction ([qiskit.qobj.pulse_qobj.PulseQobjInstruction]):
    its start offset, and content that only the converter looks into. *)
Record PulseQobjInstruction := {
  qobj_name : string;
  t0 : Z;
  qobj_content : string
}.

#[global] Instance PulseQobjInstruction_eq_dec : EqDecision PulseQobjInstruction.
Proof. solve_decision. Defined.

(** A converter turns one serialized instruction into its native ones
    ([QobjToInstructionConverter._get_sequences]). *)
Definition Converter : Type := PulseQobjInstruction → list Instruction.

(** The string predicates of the interpreter that [inspect.Parameter] asks,
    and the stock converter [QobjToInstructionConverter(pulse_library=[])]
    of [qiskit.qobj.converters]: both come with the environment. *)
Class PyEnv := {
  str_isidentifier : string → bool;
  str_isdigit : string → bool;
  iskeyword : string → bool;
  QobjToInstructionConverter_default : Converter
}.

Section inspect.
Context `{!PyEnv}.

(** [inspect.Parameter.__init__(name, kind, default=default)]. *)
Definition inspect_Parameter (name : string) (kind : ParamKind)
    (default : option PyVal) : outcome SigParam :=
  if bool_decide (is_Some default)
     && bool_decide (kind = VAR_POSITIONAL ∨ kind = VAR_KEYWORD)
  then Raises ValueError
  else
    match name with
    | EmptyString => Raises IndexError
    | String c rest =>
        if bool_decide (c = "."%char) && str_isdigit rest then
          if bool_decide (kind ≠ POSITIONAL_OR_KEYWORD) then Raises ValueError
          else
            let name' := "implicit" +:+ rest in
            if negb (str_isidentifier name') then Raises ValueError
            else Returns {| param_name := name';
                            param_kind := POSITIONAL_ONLY;
                            param_default := default |}
        else
          let is_keyword :=
            iskeyword name && bool_decide (kind ≠ POSITIONAL_ONLY) in
          if is_keyword || negb (str_isidentifier name) then Raises ValueError
          else Returns {| param_name := name;
                          param_kind := kind;
                          param_default := default |}
    end.

(** The loop of [inspect.Signature.__init__] that validates the
    parameters: their kinds must not decrease, a positional parameter
    without default must not follow one with a default, names must be
    distinct. *)
Fixpoint Signature_validate (params : list SigParam) (top_kind : ParamKind)
    (kind_defaults : bool) (seen : gset string) : outcome unit :=
  match params with
  | [] => Returns ()
  | param :: rest =>
      let kind := param_kind param in
      let name := param_name param in
      if bool_decide (kind_value kind < kind_value top_kind) then Raises ValueError
      else
        let '(kind_defaults, top_kind) :=
          if bool_decide (kind_value kind > kind_value top_kind)
          then (false, kind) else (kind_defaults, top_kind) in
        let positional :=
          bool_decide (kind = POSITIONAL_ONLY ∨ kind = POSITIONAL_OR_KEYWORD) in
        if positional && negb (has_default param) && kind_defaults
        then Raises ValueError
        else
          let kind_defaults :=
            if positional && has_default param then true else kind_defaults in
          if bool_decide (name ∈ seen) then Raises ValueError
          else Signature_validate rest top_kind kind_defaults ({[name]} ∪ seen)
  end.

(** [inspect.Signature(parameters=params)]. *)
Definition inspect_Signature (params : list SigParam) : outcome Signature :=
  match Signature_validate params POSITIONAL_ONLY false ∅ with
  | Returns _ => Returns {| parameters := params |}
  | Raises e => Raises e
  end.
End inspect.

(** *** Binding arguments: [Signature._bind] *)

Definition in_dict (name : string) (d : gmap string PyVal) : bool :=
  bool_decide (is_Some (d !! name)).

Definition dict_nonempty (d : gmap string PyVal) : bool :=
  negb (bool_decide (size d = 0%nat)).

(** The first loop of [_bind]: positional arguments are matched with the
    parameters in order.  It returns the arguments bound so far and the
    parameters that the second loop still has to look at
    ([itertools.chain(parameters_ex, parameters)]). *)
Fixpoint bind_positional (partial : bool) (args : list PyVal)
    (params : list SigParam) (kwargs arguments : gmap string PyVal)
  : outcome (gmap string PyVal * list SigParam) :=
  match args with
  | [] =>
      match params with
      | [] => Returns (arguments, [])
      | param :: rest =>
          if bool_decide (param_kind param = VAR_POSITIONAL) then
            Returns (arguments, rest)
          else if in_dict (param_name param) kwargs then
            if bool_decide (param_kind param = POSITIONAL_ONLY) then Raises TypeError
            else Returns (arguments, param :: rest)
          else if bool_decide (param_kind param = VAR_KEYWORD) || has_default param then
            Returns (arguments, param :: rest)
          else if partial then Returns (arguments, param :: rest)
          else Raises TypeError
      end
  | arg_val :: args' =>
      match params with
      | [] => Raises TypeError
      | param :: rest =>
          if bool_decide (param_kind param = VAR_KEYWORD ∨ param_kind param = KEYWORD_ONLY)
          then Raises TypeError
          else if bool_decide (param_kind param = VAR_POSITIONAL) then
            Returns (<[param_name param := VTuple (arg_val :: args')]> arguments, rest)
          else if in_dict (param_name param) kwargs
                  && bool_decide (param_kind param ≠ POSITIONAL_ONLY)
          then Raises TypeError
          else bind_positional partial args' rest kwargs
                 (<[param_name param := arg_val]> arguments)
      end
  end.

(** The second loop of [_bind]: the remaining parameters take their values
    from the keyword arguments, which are popped as they are used. *)
Fixpoint bind_keywords (partial : bool) (params : list SigParam)
    (kwargs arguments : gmap string PyVal) (kwargs_param : option SigParam)
  : outcome (gmap string PyVal * gmap string PyVal * option SigParam) :=
  match params with
  | [] => Returns (kwargs, arguments, kwargs_param)
  | param :: rest =>
      if bool_decide (param_kind param = VAR_KEYWORD) then
        bind_keywords partial rest kwargs arguments (Some param)
      else if bool_decide (param_kind param = VAR_POSITIONAL) then
        bind_keywords partial rest kwargs arguments kwargs_param
      else
        match kwargs !! param_name param with
        | None =>
            if negb partial && negb (has_default param) then Raises TypeError
            else bind_keywords partial rest kwargs arguments kwargs_param
        | Some arg_val =>
            if bool_decide (param_kind param = POSITIONAL_ONLY) then Raises TypeError
            else bind_keywords partial rest (delete (param_name param) kwargs)
                   (<[param_name param := arg_val]> arguments) kwargs_param
        end
  end.

(** [Signature._bind(args, kwargs, partial=partial)]; the result is the
    [arguments] mapping of the [BoundArguments] object. *)
Definition Signature__bind (sig : Signature) (args : list PyVal)
    (kwargs : gmap string PyVal) (partial : bool) : outcome (gmap string PyVal) :=
  match bind_positional partial args (parameters sig) kwargs ∅ with
  | Raises e => Raises e
  | Returns (arguments, params) =>
      match bind_keywords partial params kwargs arguments None with
      | Raises e => Raises e
      | Returns (kwargs, arguments, kwargs_param) =>
          if dict_nonempty kwargs then
            match kwargs_param with
            | Some p => Returns (<[param_name p := VDict (map_to_list kwargs)]> arguments)
            | None => Raises TypeError
            end
          else Returns arguments
      end
  end.

(** [Signature.bind], with the positional and the keyword arguments. *)
Definition Signature_bind (sig : Signature) (args : list PyVal)
    (kwargs : gmap string PyVal) : outcome (gmap string PyVal) :=
  Signature__bind sig args kwargs false.

(** [Signature.bind_partial], with the positional and the keyword arguments. *)
Definition Signature_bind_partial (sig : Signature) (args : list PyVal)
    (kwargs : gmap string PyVal) : outcome (gmap string PyVal) :=
  Signature__bind sig args kwargs true.

(** [BoundArguments.apply_defaults()]: the new [arguments] mapping. *)
Definition apply_defaults (sig : Signature) (arguments : gmap string PyVal)
  : gmap string PyVal :=
  foldl (λ new_arguments param,
           match arguments !! param_name param with
           | Some v => <[param_name param := v]> new_arguments
           | None =>
               match param_default param with
               | Some val => <[param_name param := val]> new_arguments
               | None =>
                   match param_kind param with
                   | VAR_POSITIONAL => <[param_name param := VTuple []]> new_arguments
                   | VAR_KEYWORD => <[param_name param := VDict []]> new_arguments
                   | _ => new_arguments
                   end
               end
           end)
        ∅ (parameters sig).

(** ** The entry objects *)

(** A Python callable: its identity, its [__name__], the signature that
    [inspect.signature] reads off it, and what a call with keyword
    arguments does to the store. *)
Record Callable := {
  callable_id : N;
  callable_name : string;
  callable_signature : Signature;
  callable_call : gmap string PyVal → gmap loc Schedule → outcome loc * gmap loc Schedule
}.

(** The fields that [PulseQobjDef.__init__] adds to those of [ScheduleDef]. *)
Record PulseQobjFields := {
  _converter : Converter;
  _name : option string;
  _source : option (list PulseQobjInstruction)
}.

Module ScheduleDef.
(** An instance of [ScheduleDef], or of its subclass [PulseQobjDef] when
    [subclass] is present.  [None] in a field is Python's [None]. *)
Record t := {
  _user_arguments : option (list string);
  _definition : option loc;
  _signature : option Signature;
  subclass : option PulseQobjFields
}.

Definition set_definition (d : option loc) (self : t) : t :=
  {| _user_arguments := _user_arguments self; _definition := d;
     _signature := _signature self; subclass := subclass self |}.

Definition set_signature (s : option Signature) (self : t) : t :=
  {| _user_arguments := _user_arguments self; _definition := _definition self;
     _signature := s; subclass := subclass self |}.

Definition set_source (src : option (list PulseQobjInstruction)) (self : t) : t :=
  {| _user_arguments := _user_arguments self; _definition := _definition self;
     _signature := _signature self;
     subclass := (λ q, {| _converter := _converter q; _name := _name q;
                          _source := src |}) <$> subclass self |}.
End ScheduleDef.

Module CallableDef.
Record t := {
  _definition : option Callable;
  _signature : option Signature
}.
End CallableDef.

(** The objects an entry can be compared with. *)
Inductive PyObj :=
  | ObjVal (v : PyVal)
  | ObjSchedule (l : loc)
  | ObjScheduleDef (e : ScheduleDef.t)
  | ObjCallableDef (e : CallableDef.t).

(** What the attribute [_definition] of an object holds. *)
Inductive Definition_ref :=
  | RefNone
  | RefSchedule (l : loc)
  | RefCallable (f : Callable).

Definition ref_of_schedule (d : option loc) : Definition_ref :=
  match d with
  | Some l => RefSchedule l
  | None => RefNone
  end.

Definition ref_of_callable (d : option Callable) : Definition_ref :=
  match d with
  | Some f => RefCallable f
  | None => RefNone
  end.

(** [other._definition]: only entries have the attribute. *)
Definition getattr_definition (other : PyObj) : outcome Definition_ref :=
  match other with
  | ObjScheduleDef e => Returns (ref_of_schedule (ScheduleDef._definition e))
  | ObjCallableDef e => Returns (ref_of_callable (CallableDef._definition e))
  | ObjVal _ | ObjSchedule _ => Raises AttributeError
  end.

(** [isinstance(other, ScheduleDef)] and [isinstance(other, PulseQobjDef)]. *)
Definition isinstance_ScheduleDef (other : PyObj) : bool :=
  match other with
  | ObjScheduleDef _ => true
  | _ => false
  end.

Definition isinstance_PulseQobjDef (other : PyObj) : option PulseQobjFields :=
  match other with
  | ObjScheduleDef e => ScheduleDef.subclass e
  | _ => None
  end.

(** [a == b] where [a] is [None] or a schedule: [None] equals only [None],
    and a schedule compares by value with another schedule and is unequal
    to anything else. *)
Definition definition_eq {E} (a : option loc) (b : Definition_ref) : M E bool :=
  match a, b with
  | None, RefNone => mret true
  | Some l1, RefSchedule l2 =>
      s1 ← read_schedule l1;
      s2 ← read_schedule l2;
      mret (Schedule_eqb s1 s2)
  | _, _ => mret false
  end.

(** [a is b] where [a] is [None] or a callable. *)
Definition definition_is (a : option Callable) (b : Definition_ref) : bool :=
  match a, b with
  | None, RefNone => true
  | Some f, RefCallable g => bool_decide (callable_id f = callable_id g)
  | _, _ => false
  end.

(** Truth value of the optional list of argument names. *)
Definition truthy {A} (arguments : option (list A)) : bool :=
  match arguments with
  | Some (_ :: _) => true
  | _ => false
  end.

Definition as_str (v : PyVal) : option string :=
  match v with
  | VStr s => Some s
  | _ => None
  end.

(** [try: c except TypeError as ex: raise e from ex]. *)
Definition except_TypeError {E A} (c : M E A) (e : exn) : M E A :=
  λ self w,
    match c self w with
    | (Raises TypeError, self', w') => (Raises e, self', w')
    | r => r
    end.

(** [for x in l: body x]. *)
Fixpoint for_each {E A} (l : list A) (body : A → M E unit) : M E unit :=
  match l with
  | [] => mret ()
  | x :: l' => _ ← body x; for_each l' body
  end.

(** [", ".join(names)]. *)
Fixpoint join_names (names : list string) : string :=
  match names with
  | [] => EmptyString
  | [n] => n
  | n :: rest => n +:+ ", " +:+ join_names rest
  end.

(** ** [class ScheduleDef] and its subclass [PulseQobjDef] *)

Import ScheduleDef.

Section entries.
Context `{!PyEnv}.

(** [ScheduleDef.__init__(arguments)].  The caller may pass anything in
    the sequence; only strings are accepted. *)
Definition ScheduleDef_init (arguments : option (list PyVal)) : outcome ScheduleDef.t :=
  if truthy arguments
     && negb (forallb (λ arg, bool_decide (is_Some (as_str arg))) (default [] arguments))
  then Raises InvalidArgument
  else
    Returns {| _user_arguments := option_map (omap as_str) arguments;
               _definition := None;
               _signature := None;
               subclass := None |}.

(** [self._definition.parameters], which needs a schedule behind the
    reference. *)
Definition definition_schedule : M ScheduleDef.t Schedule :=
  self ← get_self;
  match _definition self with
  | None => raise AttributeError
  | Some l => read_schedule l
  end.

(** The loop of [_parse_argument] that makes one [inspect.Parameter] per
    argument name. *)
Fixpoint make_params (argnames : list string) : outcome (list SigParam) :=
  match argnames with
  | [] => Returns []
  | argname :: rest =>
      match inspect_Parameter argname POSITIONAL_OR_KEYWORD None with
      | Raises e => Raises e
      | Returns param =>
          match make_params rest with
          | Raises e => Raises e
          | Returns params => Returns (param :: params)
          end
      end
  end.

(** [set(map(lambda x: x.name, parameters))]. *)
Definition all_argnames_of (s : Schedule) : gset string :=
  set_map pname (Schedule_parameters s).

Definition ScheduleDef__parse_argument : M ScheduleDef.t unit :=
  definition ← definition_schedule;
  let all_argnames := all_argnames_of definition in
  self ← get_self;
  argnames ←
    (if truthy (_user_arguments self) then
       let user_arguments := default [] (_user_arguments self) in
       if bool_decide (list_to_set user_arguments ≠ all_argnames)
       then raise ArgumentMismatch
       else mret user_arguments
     else mret (sorted (elements all_argnames)));
  params ← lift (make_params argnames);
  signature ← lift (inspect_Signature params);
  self ← get_self;
  set_self (set_signature (Some signature) self).

(** [ScheduleDef.define(definition)]. *)
Definition ScheduleDef_define (definition : loc) : M ScheduleDef.t unit :=
  self ← get_self;
  _ ← set_self (set_definition (Some definition) self);
  s ← read_schedule definition;
  _ ← (if in_dict "publisher" (sched_metadata s) then mret ()
       else set_metadata definition "publisher" (VPublisher QISKIT));
  ScheduleDef__parse_argument.

(** [ScheduleDef.get_signature()]. *)
Definition ScheduleDef_get_signature : M ScheduleDef.t (option Signature) :=
  self ← get_self;
  mret (_signature self).

(** [PulseQobjDef.__init__(arguments, converter, name)]. *)
Definition PulseQobjDef_init (arguments : option (list PyVal))
    (converter : option Converter) (name : option string) : outcome ScheduleDef.t :=
  match ScheduleDef_init arguments with
  | Raises e => Raises e
  | Returns self =>
      Returns {| _user_arguments := _user_arguments self;
                 _definition := _definition self;
                 _signature := _signature self;
                 subclass :=
                   Some {| _converter := default QobjToInstructionConverter_default converter;
                           _name := name;
                           _source := None |} |}
  end.

(** The fields of the subclass; a plain [ScheduleDef] has none of them. *)
Definition subclass_fields : M ScheduleDef.t PulseQobjFields :=
  self ← get_self;
  match subclass self with
  | None => raise AttributeError
  | Some q => mret q
  end.

(** [schedule.insert(t0, inst, inplace=True)] on the object at [l]. *)
Definition schedule_insert (l : loc) (t0 : Z) (inst : Instruction) : M ScheduleDef.t unit :=
  s ← read_schedule l;
  write_schedule l (Schedule_insert t0 inst s).

(** [PulseQobjDef._build_schedule()].  The event at its start is what a
    build counter observes. *)
Definition PulseQobjDef__build_schedule : M ScheduleDef.t unit :=
  _ ← emit EvBuild;
  q ← subclass_fields;
  schedule ← alloc_schedule (Schedule_new (_name q));
  source ← match _source q with
           | None => raise TypeError
           | Some source => mret source
           end;
  _ ← for_each source (λ qobj_inst,
        for_each (_converter q qobj_inst) (λ qiskit_inst,
          schedule_insert schedule (t0 qobj_inst) qiskit_inst));
  _ ← set_metadata schedule "publisher" (VPublisher BACKEND_PROVIDER);
  self ← get_self;
  _ ← set_self (set_definition (Some schedule) self);
  ScheduleDef__parse_argument.

(** [PulseQobjDef.define(definition)]. *)
Definition PulseQobjDef_define (definition : list PulseQobjInstruction)
  : M ScheduleDef.t unit :=
  self ← get_self;
  set_self (set_source (Some definition) self).

(** [if self._definition is None: self._build_schedule()]. *)
Definition build_if_unbuilt : M ScheduleDef.t unit :=
  self ← get_self;
  match _definition self with
  | None => PulseQobjDef__build_schedule
  | Some _ => mret ()
  end.

(** [PulseQobjDef.get_signature()]. *)
Definition PulseQobjDef_get_signature : M ScheduleDef.t (option Signature) :=
  _ ← build_if_unbuilt;
  ScheduleDef_get_signature.

(** [self.get_signature()]: the method of the receiver's class. *)
Definition get_signature : M ScheduleDef.t (option Signature) :=
  self ← get_self;
  match subclass self with
  | Some _ => PulseQobjDef_get_signature
  | None => ScheduleDef_get_signature
  end.

(** The loop of [get_schedule] that fills [value_dict]: a parameter of the
    definition gets a value when its name is among the bound arguments. *)
Definition make_value_dict (params : gset ParameterObj)
    (arguments : gmap string PyVal) : gmap ParameterObj PyVal :=
  foldl (λ value_dict param,
           match arguments !! pname param with
           | Some v => <[param := v]> value_dict
           | None => value_dict
           end)
        ∅ (elements params).

(** [ScheduleDef.get_schedule], with the positional and the keyword
    arguments.  The result is [None] when nothing was defined. *)
Definition ScheduleDef_get_schedule (args : list PyVal) (kwargs : gmap string PyVal)
  : M ScheduleDef.t (option loc) :=
  if bool_decide (args = []) && negb (dict_nonempty kwargs) then
    self ← get_self;
    mret (_definition self)
  else
    to_bind ← except_TypeError
                (sig ← get_signature;
                 match sig with
                 | None => raise AttributeError
                 | Some sig => lift (Signature_bind_partial sig args kwargs)
                 end)
                BindingError_schedule;
    definition ← definition_schedule;
    let value_dict := make_value_dict (Schedule_parameters definition) to_bind in
    self ← get_self;
    match _definition self with
    | None => raise AttributeError
    | Some l =>
        schedule ← assign_parameters l value_dict;
        mret (Some schedule)
    end.

(** [ScheduleDef.__eq__(other)]: equality is left to the schedules. *)
Definition ScheduleDef_eq (other : PyObj) : M ScheduleDef.t bool :=
  self ← get_self;
  other_definition ← lift (getattr_definition other);
  definition_eq (_definition self) other_definition.

(** How an f-string shows a name that may be [None]. *)
Definition format_name (name : option string) : string := default "None" name.

(** [ScheduleDef.__str__()]. *)
Definition ScheduleDef_str : M ScheduleDef.t string :=
  definition ← definition_schedule;
  let out := "Schedule " +:+ format_name (sched_name definition) in
  sig ← get_signature;
  match sig with
  | None => raise AttributeError
  | Some sig =>
      let params_str := join_names (signature_names sig) in
      if bool_decide (params_str = EmptyString) then mret out
      else mret (out +:+ "(" +:+ params_str +:+ ")")
  end.

(** [PulseQobjDef.get_schedule], with the positional and the keyword
    arguments. *)
Definition PulseQobjDef_get_schedule (args : list PyVal) (kwargs : gmap string PyVal)
  : M ScheduleDef.t (option loc) :=
  _ ← build_if_unbuilt;
  ScheduleDef_get_schedule args kwargs.

(** [PulseQobjDef.__eq__(other)]. *)
Definition PulseQobjDef_eq (other : PyObj) : M ScheduleDef.t bool :=
  match isinstance_PulseQobjDef other with
  | Some other_fields =>
      q ← subclass_fields;
      mret (bool_decide (_source q = _source other_fields))
  | None =>
      self ← get_self;
      _ ← (if isinstance_ScheduleDef other
              && bool_decide (_definition self = None)
           then PulseQobjDef__build_schedule else mret ());
      self ← get_self;
      other_definition ← lift (getattr_definition other);
      definition_eq (_definition self) other_definition
  end.

(** The text shown for an entry that was not built yet. *)
Definition placeholder : string := "PulseQobj".

(** [PulseQobjDef.__str__()]. *)
Definition PulseQobjDef_str : M ScheduleDef.t string :=
  self ← get_self;
  match _definition self with
  | None => mret placeholder
  | Some _ => ScheduleDef_str
  end.

(** ** [class CallableDef] *)

(** [CallableDef.__init__()]. *)
Definition CallableDef_init : CallableDef.t :=
  {| CallableDef._definition := None; CallableDef._signature := None |}.

(** [CallableDef.define(definition)]. *)
Definition CallableDef_define (definition : Callable) : M CallableDef.t unit :=
  set_self {| CallableDef._definition := Some definition;
              CallableDef._signature := Some (callable_signature definition) |}.

(** [CallableDef.get_signature()]. *)
Definition CallableDef_get_signature : M CallableDef.t (option Signature) :=
  self ← get_self;
  mret (CallableDef._signature self).

(** What the body of the callable does to the store. *)
Definition run_callable (definition : Callable) (kwargs : gmap string PyVal)
  : M CallableDef.t loc :=
  λ self w,
    let '(r, h) := callable_call definition kwargs (heap w) in
    (r, self, {| heap := h; trace := trace w |}).

(** The call of [definition] with keyword arguments only, as an observer
    that counts invocations sees it. *)
Definition invoke (definition : Callable) (kwargs : gmap string PyVal)
  : M CallableDef.t loc :=
  _ ← emit (EvInvoke (callable_id definition) kwargs);
  run_callable definition kwargs.

(** [CallableDef.get_schedule], with the positional and the keyword
    arguments. *)
Definition CallableDef_get_schedule (args : list PyVal) (kwargs : gmap string PyVal)
  : M CallableDef.t loc :=
  self ← get_self;
  arguments ← except_TypeError
                (match CallableDef._signature self with
                 | None => raise AttributeError
                 | Some sig =>
                     to_bind ← lift (Signature_bind sig args kwargs);
                     mret (apply_defaults sig to_bind)
                 end)
                BindingError_function;
  schedule ← match CallableDef._definition self with
             | None => raise TypeError
             | Some definition => invoke definition arguments
             end;
  s ← read_schedule schedule;
  _ ← (if in_dict "publisher" (sched_metadata s) then mret ()
       else set_metadata schedule "publisher" (VPublisher QISKIT));
  mret schedule.

(** [CallableDef.__eq__(other)]: the two callables are the same object. *)
Definition CallableDef_eq (other : PyObj) : M CallableDef.t bool :=
  self ← get_self;
  other_definition ← lift (getattr_definition other);
  mret (definition_is (CallableDef._definition self) other_definition).

(** [CallableDef.__str__()]. *)
Definition CallableDef_str : M CallableDef.t string :=
  self ← get_self;
  match CallableDef._signature self with
  | None => raise AttributeError
  | Some sig =>
      let params_str := join_names (signature_names sig) in
      match CallableDef._definition self with
      | None => raise AttributeError
      | Some definition =>
          mret ("Callable " +:+ callable_name definition +:+ "(" +:+ params_str +:+ ")")
      end
  end.
End entries.

(** ** An environment to run examples in

    On ASCII text the string predicates need no Unicode tables: an
    identifier starts with a letter or an underscore and goes on with
    letters, digits and underscores. *)
Definition ascii_isalpha_ (c : ascii) : bool :=
  let n := nat_of_ascii c in
  ((65 <=? n) && (n <=? 90) || (97 <=? n) && (n <=? 122) || (n =? 95))%nat.

Definition ascii_isdigit (c : ascii) : bool :=
  let n := nat_of_ascii c in
  ((48 <=? n) && (n <=? 57))%nat.

Fixpoint string_forallb (f : ascii → bool) (s : string) : bool :=
  match s with
  | EmptyString => true
  | String c rest => f c && string_forallb f rest
  end.

Definition ascii_isidentifier (s : string) : bool :=
  match s with
  | EmptyString => false
  | String c rest =>
      ascii_isalpha_ c
      && string_forallb (λ c, ascii_isalpha_ c || ascii_isdigit c) rest
  end.

Definition ascii_str_isdigit (s : string) : bool :=
  match s with
  | EmptyString => false
  | _ => string_forallb ascii_isdigit s
  end.

(** [keyword.kwlist]. *)
Definition kwlist : list string :=
  ["False"; "None"; "True"; "and"; "as"; "assert"; "async"; "await"; "break";
   "class"; "continue"; "def"; "del"; "elif"; "else"; "except"; "finally";
   "for"; "from"; "global"; "if"; "import"; "in"; "is"; "lambda"; "nonlocal";
   "not"; "or"; "pass"; "raise"; "return"; "try"; "while"; "with"; "yield"].

(** A converter for examples: one native instruction per serialized one,
    named after it and without operands. *)
Definition example_converter : Converter :=
  λ q, [{| opcode := qobj_name q; operands := [] |}].

Definition example_env : PyEnv :=
  {| str_isidentifier := ascii_isidentifier;
     str_isdigit := ascii_str_isdigit;
     iskeyword := λ s, bool_decide (s ∈ kwlist);
     QobjToInstructionConverter_default := example_converter |}.

(** * Notions used in the statements *)

(** The schedule that the loops of the build step leave behind. *)
Definition insert_all (conv : Converter) (source : list PulseQobjInstruction)
    (s : Schedule) : Schedule :=
  foldl (λ s qobj_inst,
           foldl (λ s qiskit_inst, Schedule_insert (t0 qobj_inst) qiskit_inst s)
                 s (conv qobj_inst))
        s source.

(** The schedule [s] after [s.metadata["publisher"] = p]. *)
Definition tagged (p : CalibrationPublisher) (s : Schedule) : Schedule :=
  {| sched_name := sched_name s;
     sched_metadata := <["publisher" := VPublisher p]> (sched_metadata s);
     sched_instructions := sched_instructions s |}.

(** The schedule that the build step stores in the entry. *)
Definition built_schedule (q : PulseQobjFields) (source : list PulseQobjInstruction)
  : Schedule :=
  tagged BACKEND_PROVIDER (insert_all (_converter q) source (Schedule_new (_name q))).

(** The store with other objects and the same observations. *)
Definition with_heap (h : gmap loc Schedule) (w : World) : World :=
  {| heap := h; trace := trace w |}.

(** What [get_schedule] has to answer for an entry that stores the
    schedule [s] at [l]: without arguments the stored reference itself;
    with arguments, bound against the stored signature, a new schedule
    that is [s] with the values substituted, or the binding error. *)
Definition answer_from (self : ScheduleDef.t) (l : loc) (s : Schedule)
    (args : list PyVal) (kwargs : gmap string PyVal) (w : World)
  : outcome (option loc) * ScheduleDef.t * World :=
  if bool_decide (args = []) && negb (dict_nonempty kwargs) then
    (Returns (Some l), self, w)
  else
    match _signature self with
    | None => (Raises AttributeError, self, w)
    | Some sig =>
        match Signature_bind_partial sig args kwargs with
        | Raises _ => (Raises BindingError_schedule, self, w)
        | Returns arguments =>
            (Returns (Some (fresh (dom (heap w)))), self,
             with_heap (<[fresh (dom (heap w))
                          := Schedule_assign
                               (make_value_dict (Schedule_parameters s) arguments) s]>
                          (heap w)) w)
        end
    end.

(** A call that triggers the lazy build of a [PulseQobjDef]. *)
Inductive Call :=
  | GetSignature
  | GetSchedule (args : list PyVal) (kwargs : gmap string PyVal).

Section call_definitions.
Context `{!PyEnv}.

(** The state a call leaves behind for the next one, whether it returned
    or raised. *)
Definition perform (c : Call) (st : ScheduleDef.t * World) : ScheduleDef.t * World :=
  match c with
  | GetSignature =>
      let '(_, self', w') := PulseQobjDef_get_signature st.1 st.2 in (self', w')
  | GetSchedule args kwargs =>
      let '(_, self', w') := PulseQobjDef_get_schedule args kwargs st.1 st.2 in (self', w')
  end.

(** A caller that makes the calls [cs] one after the other. *)
Definition perform_all (cs : list Call) (st : ScheduleDef.t * World)
  : ScheduleDef.t * World :=
  foldl (λ st c, perform c st) st cs.

(** [self == other] with an entry of the [ScheduleDef] family on the left,
    after the data model of Python.  The reflected method of [other] is
    tried first when the class of [other] is a proper subclass of the
    class of [self] that overrides [__eq__], which is the case when [self]
    is a plain [ScheduleDef] and [other] a [PulseQobjDef]; otherwise the
    method of the class of [self] is tried first.  No [__eq__] of this
    module returns [NotImplemented], so the first method decides.  The
    reflected method may change [other], which is returned with the
    answer. *)
Definition operator_eq (self : ScheduleDef.t) (other : PyObj) (w : World)
  : outcome bool * ScheduleDef.t * PyObj * World :=
  match subclass self, other with
  | None, ObjScheduleDef o =>
      if bool_decide (is_Some (subclass o)) then
        let '(r, o', w') := PulseQobjDef_eq (ObjScheduleDef self) o w in
        (r, self, ObjScheduleDef o', w')
      else
        let '(r, self', w') := ScheduleDef_eq other self w in (r, self', other, w')
  | None, _ =>
      let '(r, self', w') := ScheduleDef_eq other self w in (r, self', other, w')
  | Some _, _ =>
      let '(r, self', w') := PulseQobjDef_eq other self w in (r, self', other, w')
  end.
End call_definitions.

(** The converted instructions with their start offsets, in source order. *)
Definition timed_instructions (conv : Converter) (source : list PulseQobjInstruction)
  : list (Z * Instruction) :=
  flat_map (λ qobj_inst, pair (t0 qobj_inst) <$> conv qobj_inst) source.

(** The order of timed instructions by their start offset. *)
Definition offset_le (x y : Z * Instruction) : Prop := x.1 ≤ y.1.

(** One step of the build loops on the instruction list. *)
Definition insert_timed (acc : list (Z * Instruction)) (x : Z * Instruction)
  : list (Z * Instruction) :=
  insert_at x.1 x.2 acc.

(** An object has the attribute [_definition] only when it is an entry. *)
Definition carries_definition (other : PyObj) : bool :=
  match other with
  | ObjScheduleDef _ | ObjCallableDef _ => true
  | ObjVal _ | ObjSchedule _ => false
  end.

(** The publisher tag of the object at [l], if it is a schedule and has one. *)
Definition publisher_at (h : gmap loc Schedule) (l : loc) : option PyVal :=
  s ← h !! l; sched_metadata s !! "publisher".

(** No tag that is present in [h] differs in [h']. *)
Definition tags_kept (h h' : gmap loc Schedule) : Prop :=
  ∀ l v, publisher_at h l = Some v → publisher_at h' l = Some v.

(** Substitution by name: a symbolic operand takes the value bound to the
    name of its parameter, if there is one. *)
Definition Operand_bind (arguments : gmap string PyVal) (o : Operand) : Operand :=
  match o with
  | Unbound p =>
      match arguments !! pname p with
      | Some v => Bound v
      | None => Unbound p
      end
  | Bound v => Bound v
  end.

(** The same for all operands of an instruction. *)
Definition Instruction_bind (arguments : gmap string PyVal) (i : Instruction)
  : Instruction :=
  {| opcode := opcode i; operands := Operand_bind arguments <$> operands i |}.

Section parameter_names.
Context `{!PyEnv}.

(** A name that [inspect.Parameter] accepts as it is: an identifier that
    is no keyword (and not of the dotted form of implicit arguments). *)
Definition valid_parameter_name (name : string) : bool :=
  match name with
  | EmptyString => false
  | String c rest =>
      negb (bool_decide (c = "."%char) && str_isdigit rest)
      && negb (iskeyword name)
      && str_isidentifier name
  end.

(** The parameter that [_parse_argument] makes for a name. *)
Definition plain_param (name : string) : SigParam :=
  {| param_name := name; param_kind := POSITIONAL_OR_KEYWORD; param_default := None |}.
End parameter_names.

(** A parameter that must receive a value: it has no default and is not
    one of the collecting parameters. *)
Definition required (p : SigParam) : bool :=
  negb (has_default p)
  && bool_decide (param_kind p ≠ VAR_POSITIONAL ∧ param_kind p ≠ VAR_KEYWORD).

(** Kinds of parameters that a positional argument can fill, and kinds
    that a keyword argument can fill. *)
Definition takes_position (p : SigParam) : bool :=
  bool_decide (param_kind p = POSITIONAL_ONLY ∨ param_kind p = POSITIONAL_OR_KEYWORD).

Definition takes_keyword (p : SigParam) : bool :=
  bool_decide (param_kind p = POSITIONAL_OR_KEYWORD ∨ param_kind p = KEYWORD_ONLY).

(** The parameter at index [i] is supplied by the call: by a positional
    argument at its place or by a keyword argument of its name. *)
Definition supplied (args : list PyVal) (kwargs : gmap string PyVal)
    (i : nat) (p : SigParam) : bool :=
  takes_position p && bool_decide (i < length args)%nat
  || takes_keyword p && in_dict (param_name p) kwargs.

(** The signature has a place for the keyword [k]: a parameter of that name
    that can be passed by keyword, or a parameter that collects keywords. *)
Definition accepts_keyword (sig : Signature) (k : string) : bool :=
  existsb (λ p, bool_decide (param_name p = k) && takes_keyword p) (parameters sig)
  || existsb (λ p, bool_decide (param_kind p = VAR_KEYWORD)) (parameters sig).

(** The signature has places for [n] positional arguments. *)
Definition accepts_positions (sig : Signature) (n : nat) : bool :=
  bool_decide (n ≤ length (filter (λ p, takes_position p = true) (parameters sig)))%nat
  || existsb (λ p, bool_decide (param_kind p = VAR_POSITIONAL)) (parameters sig).

(** A signature as an ordinary [def f(a, b, c=1)] has it: every parameter
    can be passed by position or by keyword, and names are distinct. *)
Definition ordinary (sig : Signature) : Prop :=
  Forall (λ p, param_kind p = POSITIONAL_OR_KEYWORD) (parameters sig)
  ∧ NoDup (signature_names sig).

(** The signature that [_parse_argument] makes of a list of names. *)
Definition plain_signature (names : list string) : Signature :=
  {| parameters := plain_param <$> names |}.

(** The arguments fit a signature of plain names: no more positions than
    names, and every keyword is a name that no position fills. *)
Definition fits (names : list string) (args : list PyVal) (kwargs : gmap string PyVal)
  : Prop :=
  (length args ≤ length names)%nat
  ∧ ∀ k, is_Some (kwargs !! k) → k ∈ drop (length args) names.

(** ** Values for closed examples

    A schedule with the two parameters [amp] and [dur], a schedule whose
    parameter is the element of a parameter vector, a serialized sequence
    with offsets 10 and 5, and a callback with one required parameter. *)

Definition amp : ParameterObj := {| pname := "amp"; puuid := 1 |}.

Definition dur : ParameterObj := {| pname := "dur"; puuid := 2 |}.

Definition play (ops : list Operand) : Instruction := {| opcode := "play"; operands := ops |}.

Definition example_schedule : Schedule :=
  {| sched_name := Some "xgate"; sched_metadata := ∅;
     sched_instructions := [(0, play [Unbound dur; Unbound amp])] |}.

Definition example_world : World := {| heap := {[ 0%nat := example_schedule ]}; trace := [] |}.

(** [ScheduleDef(arguments)] right after its construction. *)
Definition new_entry (arguments : option (list string)) : ScheduleDef.t :=
  {| _user_arguments := arguments; _definition := None; _signature := None; subclass := None |}.

Definition indexed_schedule : Schedule :=
  {| sched_name := Some "xgate"; sched_metadata := ∅;
     sched_instructions := [(0, play [Unbound {| pname := "amp[0]"; puuid := 3 |}])] |}.

Definition indexed_world : World := {| heap := {[ 0%nat := indexed_schedule ]}; trace := [] |}.

Definition example_source : list PulseQobjInstruction :=
  [ {| qobj_name := "late"; t0 := 10; qobj_content := "ch=d0" |};
    {| qobj_name := "early"; t0 := 5; qobj_content := "ch=d0" |} ].

Definition example_fields (source : option (list PulseQobjInstruction)) : PulseQobjFields :=
  {| _converter := example_converter; _name := Some "xgate"; _source := source |}.

(** A [PulseQobjDef] that is not built, with or without a source. *)
Definition example_deferred (source : option (list PulseQobjInstruction)) : ScheduleDef.t :=
  {| _user_arguments := None; _definition := None; _signature := None;
     subclass := Some (example_fields source) |}.

(** The entry and the store after [new_entry None] was defined with
    [example_schedule]. *)
Definition example_defined : ScheduleDef.t :=
  {| _user_arguments := None; _definition := Some 0%nat;
     _signature := Some {| parameters := [plain_param "amp"; plain_param "dur"] |};
     subclass := None |}.

Definition example_callable : Callable :=
  {| callable_id := 7;
     callable_name := "xgate";
     callable_signature :=
       {| parameters :=
            [ {| param_name := "amp"; param_kind := POSITIONAL_OR_KEYWORD;
                 param_default := None |};
              {| param_name := "dur"; param_kind := POSITIONAL_OR_KEYWORD;
                 param_default := Some (VInt 160) |} ] |};
     callable_call := λ kwargs h,
       (Returns (fresh (dom h)),
        <[fresh (dom h) :=
            {| sched_name := Some "xgate"; sched_metadata := ∅;
               sched_instructions :=
                 [(0, play [Bound (default VNone (kwargs !! "dur"));
                            Bound (default VNone (kwargs !! "amp"))])] |}]> h) |}.

Definition example_defined_world : World :=
  {| heap := {[ 0%nat := tagged QISKIT example_schedule ]}; trace := [] |}.

(** A second parameter object with the name of [amp], and a schedule that
    uses both. *)
Definition amp_twin : ParameterObj := {| pname := "amp"; puuid := 9 |}.

Definition twin_schedule : Schedule :=
  {| sched_name := Some "xgate"; sched_metadata := ∅;
     sched_instructions := [(0, play [Unbound amp; Unbound amp_twin])] |}.

(** A converter whose instructions carry the parameters [dur] and [amp]. *)
Definition symbolic_converter : Converter :=
  λ q, [{| opcode := qobj_name q; operands := [Unbound dur; Unbound amp] |}].

(** A [PulseQobjDef] with the source [example_source] that is not built. *)
Definition deferred_with (arguments : option (list string)) (conv : Converter)
  : ScheduleDef.t :=
  {| _user_arguments := arguments; _definition := None; _signature := None;
     subclass := Some {| _converter := conv; _name := Some "xgate";
                         _source := Some example_source |} |}.

(** A [PulseQobjDef] that holds the schedule at reference 0. *)
Definition built_entry : ScheduleDef.t :=
  {| _user_arguments := None; _definition := Some 0%nat;
     _signature := Some {| parameters := [plain_param "amp"; plain_param "dur"] |};
     subclass := Some (example_fields (Some example_source)) |}.

(** * Running the methods *)

Ltac unfold_M :=
  unfold mbind, M_bind, mret, M_ret, raise, get_self, set_self, lift, emit,
    read_schedule, write_schedule, alloc_schedule, except_TypeError in *.

Lemma bind_run {E A B} (c : M E A) (f : A → M E B) self w :
  (c ≫= f) self w
  = match c self w with
    | (Returns a, self', w') => f a self' w'
    | (Raises e, self', w') => (Raises e, self', w')
    end.
Proof. done. Qed.

Lemma mret_run {E A} (a : A) (self : E) w :
  (mret a : M E A) self w = (Returns a, self, w).
Proof. done. Qed.

Lemma raise_run {E A} e (self : E) w : raise (A:=A) e self w = (Raises e, self, w).
Proof. done. Qed.

Lemma get_self_run {E} (self : E) w : get_self self w = (Returns self, self, w).
Proof. done. Qed.

Lemma set_self_run {E} (self' self : E) w : set_self self' self w = (Returns (), self', w).
Proof. done. Qed.

Lemma lift_run {E A} (o : outcome A) (self : E) w : lift o self w = (o, self, w).
Proof. done. Qed.

Lemma emit_run {E} ev (self : E) w :
  emit ev self w = (Returns (), self, {| heap := heap w; trace := trace w ++ [ev] |}).
Proof. done. Qed.

Lemma alloc_schedule_run {E} s (self : E) w :
  alloc_schedule s self w
  = (Returns (fresh (dom (heap w))), self,
     with_heap (<[fresh (dom (heap w)) := s]> (heap w)) w).
Proof. done. Qed.

Lemma read_schedule_run {E} l (self : E) w s :
  heap w !! l = Some s → read_schedule l self w = (Returns s, self, w).
Proof. intros Hs. unfold read_schedule. by rewrite Hs. Qed.


Ltac run :=
  repeat (rewrite ?bind_run, ?mret_run, ?raise_run, ?get_self_run, ?set_self_run,
            ?lift_run, ?emit_run, ?alloc_schedule_run;
          cbn beta iota).

Section proofs.
Context `{!PyEnv}.

Lemma parse_argument_frame self w :
  ∃ r sig', ScheduleDef__parse_argument self w = (r, set_signature sig' self, w).
Proof.
  unfold ScheduleDef__parse_argument, definition_schedule. unfold_M.
  destruct (_definition self) as [l|] eqn:Hd; [|exists (Raises AttributeError), (_signature self); by destruct self].
  destruct (heap w !! l) as [s|] eqn:Hs; [|exists (Raises AttributeError), (_signature self); by destruct self].
  destruct (truthy (_user_arguments self)).
  - case_bool_decide.
    + exists (Raises ArgumentMismatch), (_signature self); by destruct self.
    + destruct (make_params _) as [ps|e]; [|exists (Raises e), (_signature self); by destruct self].
      destruct (inspect_Signature ps) as [sg|e]; [|exists (Raises e), (_signature self); by destruct self].
      by eexists _, _.
  - destruct (make_params _) as [ps|e]; [|exists (Raises e), (_signature self); by destruct self].
    destruct (inspect_Signature ps) as [sg|e]; [|exists (Raises e), (_signature self); by destruct self].
    by eexists _, _.
Qed.

Lemma schedule_insert_spec l t inst (self : ScheduleDef.t) w s :
  heap w !! l = Some s →
  schedule_insert l t inst self w
  = (Returns (), self, with_heap (<[l := Schedule_insert t inst s]> (heap w)) w).
Proof. intros Hs. unfold schedule_insert. unfold_M. by rewrite Hs. Qed.

Lemma set_metadata_spec {E} l key v (self : E) w s :
  heap w !! l = Some s →
  set_metadata l key v self w
  = (Returns (), self,
     with_heap (<[l := {| sched_name := sched_name s;
                          sched_metadata := <[key := v]> (sched_metadata s);
                          sched_instructions := sched_instructions s |}]> (heap w)) w).
Proof. intros Hs. unfold set_metadata. unfold_M. by rewrite Hs. Qed.

Lemma with_heap_id w : with_heap (heap w) w = w.
Proof. by destruct w. Qed.

Lemma inner_loop_spec l t insts : ∀ (self : ScheduleDef.t) w s,
  heap w !! l = Some s →
  for_each insts (λ inst, schedule_insert l t inst) self w
  = (Returns (), self,
     with_heap (<[l := foldl (λ s inst, Schedule_insert t inst s) s insts]> (heap w)) w).
Proof.
  induction insts as [|inst insts IH]; intros self w s Hs; cbn [for_each foldl].
  - rewrite insert_id by done. by rewrite with_heap_id.
  - rewrite bind_run, (schedule_insert_spec _ _ _ _ _ s) by done.
    rewrite (IH _ _ (Schedule_insert t inst s)) by apply lookup_insert_eq.
    unfold with_heap; cbn [heap trace]. by rewrite insert_insert_eq.
Qed.

Lemma build_loop_spec l conv source : ∀ (self : ScheduleDef.t) w s,
  heap w !! l = Some s →
  for_each source (λ qobj_inst,
    for_each (conv qobj_inst) (λ qiskit_inst,
      schedule_insert l (t0 qobj_inst) qiskit_inst)) self w
  = (Returns (), self, with_heap (<[l := insert_all conv source s]> (heap w)) w).
Proof.
  induction source as [|qi source IH]; intros self w s Hs;
    unfold insert_all; cbn [for_each foldl].
  - rewrite insert_id by done. by rewrite with_heap_id.
  - rewrite bind_run, (inner_loop_spec _ _ _ _ _ s) by done.
    rewrite (IH _ _ (foldl (λ s inst, Schedule_insert (t0 qi) inst s) s (conv qi)))
      by apply lookup_insert_eq.
    unfold with_heap, insert_all; cbn [heap trace]. by rewrite insert_insert_eq.
Qed.

(** The build step up to its last statement: a new schedule holding the
    converted instructions and the tag is stored in the entry, and one
    build is counted; the signature is derived from it afterwards. *)
Lemma build_schedule_spec self w q source :
  subclass self = Some q →
  _source q = Some source →
  PulseQobjDef__build_schedule self w
  = ScheduleDef__parse_argument (set_definition (Some (fresh (dom (heap w)))) self)
      {| heap := <[fresh (dom (heap w)) := built_schedule q source]> (heap w);
         trace := trace w ++ [EvBuild] |}.
Proof.
  intros Hq Hsrc. unfold PulseQobjDef__build_schedule, subclass_fields.
  run. rewrite Hq. run. rewrite Hsrc. run.
  rewrite (build_loop_spec _ _ _ _ _ (Schedule_new (_name q)))
    by apply lookup_insert_eq.
  run. erewrite set_metadata_spec by apply lookup_insert_eq.
  run. unfold with_heap; cbn [heap trace].
  by rewrite !insert_insert_eq.
Qed.

Lemma builds_emit w h :
  builds {| heap := h; trace := trace w ++ [EvBuild] |} = S (builds w).
Proof.
  unfold builds; cbn [trace]. rewrite filter_app, length_app.
  rewrite filter_cons_True by done. rewrite filter_nil. cbn [length]. lia.
Qed.

Lemma build_schedule_outcome self w q source :
  subclass self = Some q →
  _source q = Some source →
  ∃ r sig',
    PulseQobjDef__build_schedule self w
    = (r, set_signature sig' (set_definition (Some (fresh (dom (heap w)))) self),
       {| heap := <[fresh (dom (heap w)) := built_schedule q source]> (heap w);
          trace := trace w ++ [EvBuild] |}).
Proof.
  intros Hq Hsrc. rewrite (build_schedule_spec _ _ _ _ Hq Hsrc).
  apply parse_argument_frame.
Qed.

Lemma fresh_loc_unused (h : gmap loc Schedule) : h !! fresh (dom h) = None.
Proof. apply not_elem_of_dom, is_fresh. Qed.

(** Once a definition is stored, asking for the signature builds nothing. *)
Lemma get_signature_built self w l :
  _definition self = Some l →
  PulseQobjDef_get_signature self w = (Returns (_signature self), self, w).
Proof.
  intros Hd. unfold PulseQobjDef_get_signature, build_if_unbuilt, ScheduleDef_get_signature.
  run. rewrite Hd. by run.
Qed.

Lemma virtual_get_signature_built self w l :
  _definition self = Some l →
  get_signature self w = (Returns (_signature self), self, w).
Proof.
  intros Hd. unfold get_signature. run. destruct (subclass self).
  - by apply get_signature_built with l.
  - unfold ScheduleDef_get_signature. by run.
Qed.

(** With a definition stored, [get_schedule] leaves the entry alone; it
    either leaves the store alone as well or adds one new schedule. *)
Lemma get_schedule_frame args kwargs self w l :
  _definition self = Some l →
  ∃ r w', ScheduleDef_get_schedule args kwargs self w = (r, self, w')
          ∧ (w' = w ∨ ∃ s', w' = with_heap (<[fresh (dom (heap w)) := s']> (heap w)) w).
Proof.
  intros Hd. unfold ScheduleDef_get_schedule.
  destruct (_ && _).
  { run. eauto. }
  rewrite bind_run. unfold except_TypeError. rewrite bind_run.
  rewrite (virtual_get_signature_built _ _ _ Hd). cbn beta iota.
  destruct (_signature self) as [sig|]; run; [|eauto].
  destruct (Signature_bind_partial sig args kwargs) as [to_bind|e].
  2:{ destruct e; eauto. }
  unfold definition_schedule. run. rewrite Hd.
  unfold read_schedule at 1.
  destruct (heap w !! l) as [s|] eqn:Hs; cbn beta iota; [|eauto].
  run. rewrite Hd. unfold assign_parameters. run.
  rewrite (read_schedule_run _ _ _ _ Hs). run. eauto 10.
Qed.

End proofs.

Section calls.
Context `{!PyEnv}.

Lemma perform_unbuilt c self w q source :
  subclass self = Some q →
  _source q = Some source →
  _definition self = None →
  ∃ self' w',
    perform c (self, w) = (self', w')
    ∧ builds w' = S (builds w)
    ∧ _definition self' = Some (fresh (dom (heap w)))
    ∧ subclass self' = Some q
    ∧ heap w' !! fresh (dom (heap w)) = Some (built_schedule q source).
Proof.
  intros Hq Hsrc Hd.
  destruct (build_schedule_outcome self w q source Hq Hsrc) as (r & sig' & Hb).
  set (l := fresh (dom (heap w))) in *.
  set (self1 := set_signature sig' (set_definition (Some l) self)) in *.
  set (w1 := {| heap := <[l := built_schedule q source]> (heap w);
                trace := trace w ++ [EvBuild] |}) in *.
  assert (Hd1 : _definition self1 = Some l) by done.
  destruct c as [|args kwargs]; cbn [perform fst snd].
  - unfold PulseQobjDef_get_signature, build_if_unbuilt. run. rewrite Hd, Hb.
    destruct r as [[]|e]; cbn beta iota.
    + unfold ScheduleDef_get_signature. run.
      exists self1, w1. split_and!; try done.
      * apply builds_emit.
      * apply lookup_insert_eq.
    + exists self1, w1. split_and!; try done.
      * apply builds_emit.
      * apply lookup_insert_eq.
  - unfold PulseQobjDef_get_schedule, build_if_unbuilt. run. rewrite Hd, Hb.
    destruct r as [[]|e]; cbn beta iota.
    + destruct (get_schedule_frame args kwargs self1 w1 l Hd1) as (r' & w' & -> & Hw').
      exists self1, w'. split; [done|].
      destruct Hw' as [->|[s' ->]].
      * split_and!; try done; [apply builds_emit|apply lookup_insert_eq].
      * split_and!; try done; [apply builds_emit|].
        cbn [with_heap heap]. rewrite lookup_insert_ne; [apply lookup_insert_eq|].
        intros Heq. pose proof (fresh_loc_unused (heap w1)) as Hf.
        rewrite Heq in Hf. cbn [w1 heap] in Hf. by rewrite lookup_insert_eq in Hf.
    + exists self1, w1. split_and!; try done.
      * apply builds_emit.
      * apply lookup_insert_eq.
Qed.

Lemma perform_built c self w l s :
  _definition self = Some l →
  heap w !! l = Some s →
  ∃ w', perform c (self, w) = (self, w')
        ∧ builds w' = builds w
        ∧ heap w' !! l = Some s.
Proof.
  intros Hd Hs. destruct c as [|args kwargs]; cbn [perform fst snd].
  - rewrite (get_signature_built _ _ _ Hd). eauto.
  - unfold PulseQobjDef_get_schedule, build_if_unbuilt. run. rewrite Hd. run.
    destruct (get_schedule_frame args kwargs self w l Hd) as (r' & w' & -> & Hw').
    exists w'. split; [done|]. destruct Hw' as [->|[s' ->]]; [done|].
    split; [done|]. cbn [with_heap heap].
    rewrite lookup_insert_ne; [done|]. intros Heq.
    pose proof (fresh_loc_unused (heap w)) as Hf. rewrite Heq in Hf. congruence.
Qed.

Lemma perform_all_built cs : ∀ self w l s,
  _definition self = Some l →
  heap w !! l = Some s →
  ∃ w', perform_all cs (self, w) = (self, w')
        ∧ builds w' = builds w
        ∧ heap w' !! l = Some s.
Proof.
  induction cs as [|c cs IH]; intros self w l s Hd Hs; cbn [perform_all foldl].
  - eauto.
  - destruct (perform_built c self w l s Hd Hs) as (w1 & -> & Hb1 & Hs1).
    destruct (IH self w1 l s Hd Hs1) as (w2 & Hp & Hb2 & Hs2).
    exists w2. unfold perform_all in Hp. rewrite Hp. split_and!; [done|lia|done].
Qed.

End calls.

Section insert.
Lemma insert_at_Permutation t i l : insert_at t i l ≡ₚ (t, i) :: l.
Proof.
  induction l as [|[t' i'] l IH]; cbn [insert_at]; [done|].
  case_decide; [|done]. rewrite IH. apply Permutation_swap.
Qed.

Lemma insert_at_sorted t i l :
  StronglySorted offset_le l → StronglySorted offset_le (insert_at t i l).
Proof.
  induction l as [|[t' i'] l IH]; intros Hl; cbn [insert_at].
  - repeat constructor.
  - apply StronglySorted_inv in Hl as [Hl Hhd]. case_decide.
    + constructor; [by apply IH|].
      rewrite insert_at_Permutation. constructor; [done|done].
    + constructor; [by constructor|].
      constructor; [unfold offset_le; cbn; lia|].
      eapply Forall_impl; [done|]. unfold offset_le; cbn. intros; lia.
Qed.

Lemma filter_none {A} (P : A → Prop) `{!∀ x, Decision (P x)} (l : list A) :
  Forall (λ x, ¬ P x) l → filter P l = [].
Proof.
  induction 1 as [|x l Hx _ IH]; [done|]. by rewrite filter_cons_False.
Qed.

Lemma insert_at_stable t i l t' :
  StronglySorted offset_le l →
  filter (λ x, x.1 = t') (insert_at t i l) = filter (λ x, x.1 = t') (l ++ [(t, i)]).
Proof.
  induction l as [|[t1 i1] l IH]; intros Hl; cbn [insert_at app]; [done|].
  apply StronglySorted_inv in Hl as [Hl Hhd]. case_decide as Hle.
  - rewrite !filter_cons. by rewrite IH.
  - assert (Hgt : Forall (λ x : Z * Instruction, t < x.1) ((t1, i1) :: l)).
    { constructor; [cbn; lia|]. eapply Forall_impl; [done|].
      unfold offset_le; cbn. intros; lia. }
    change ((t1, i1) :: l ++ [(t, i)]) with (((t1, i1) :: l) ++ [(t, i)]).
    rewrite filter_app. destruct (decide (t = t')) as [->|Hne].
    + rewrite filter_cons_True by done.
      rewrite (filter_cons_True _ (t', i) []) by done.
      rewrite (filter_none _ ((t1, i1) :: l)); [done|].
      eapply Forall_impl; [done|]. cbn. intros; lia.
    + rewrite filter_cons_False by done.
      rewrite (filter_cons_False _ (t, i) []) by done. by rewrite app_nil_r.
Qed.

Lemma insert_at_split t i (A B : list (Z * Instruction)) :
  Forall (λ x, x.1 ≤ t) A →
  Forall (λ x, t < x.1) B →
  insert_at t i (A ++ B) = A ++ (t, i) :: B.
Proof.
  intros HA HB. induction HA as [|[t1 i1] A Hx _ IH]; cbn [app insert_at].
  - destruct HB as [|[t1 i1] B Hx _]; cbn [insert_at]; [done|].
    cbn in Hx. by rewrite decide_False by lia.
  - cbn in Hx. rewrite decide_True by done. by rewrite IH.
Qed.

Lemma insert_run_split t insts : ∀ (A B : list (Z * Instruction)),
  Forall (λ x, x.1 ≤ t) A →
  Forall (λ x, t < x.1) B →
  foldl (λ acc inst, insert_at t inst acc) (A ++ B) insts
  = A ++ (pair t <$> insts) ++ B.
Proof.
  induction insts as [|i insts IH]; intros A B HA HB; cbn [foldl fmap list_fmap app];
    [done|].
  rewrite insert_at_split by done.
  change (A ++ (t, i) :: B) with (A ++ [(t, i)] ++ B). rewrite (assoc (++)).
  rewrite IH; [by rewrite <-(assoc (++))| |done].
  apply Forall_app; split; [done|]. repeat constructor. cbn; lia.
Qed.

Lemma insert_all_name conv source s :
  sched_name (insert_all conv source s) = sched_name s.
Proof.
  revert s. induction source as [|qi source IH]; intros s; [done|].
  unfold insert_all in *; cbn [foldl]. rewrite IH.
  generalize (conv qi). intros insts. revert s.
  induction insts as [|i insts IH2]; intros s; [done|]. cbn [foldl]. by rewrite IH2.
Qed.

Lemma insert_all_metadata conv source s :
  sched_metadata (insert_all conv source s) = sched_metadata s.
Proof.
  revert s. induction source as [|qi source IH]; intros s; [done|].
  unfold insert_all in *; cbn [foldl]. rewrite IH.
  generalize (conv qi). intros insts. revert s.
  induction insts as [|i insts IH2]; intros s; [done|]. cbn [foldl]. by rewrite IH2.
Qed.

Lemma insert_all_instructions conv source s :
  sched_instructions (insert_all conv source s)
  = foldl insert_timed (sched_instructions s) (timed_instructions conv source).
Proof.
  revert s. induction source as [|qi source IH]; intros s; [done|].
  unfold insert_all, timed_instructions in *; cbn [foldl flat_map].
  rewrite foldl_app, IH. f_equal.
  generalize (conv qi). intros insts. revert s.
  induction insts as [|i insts IH2]; intros s; [done|].
  cbn [foldl fmap list_fmap]. by rewrite IH2.
Qed.

(** Inserting one instruction after the other sorts them by offset and
    keeps, within one offset, the order in which they came. *)
Lemma insert_timed_sorts seq :
  let built := foldl insert_timed [] seq in
  built ≡ₚ seq
  ∧ StronglySorted offset_le built
  ∧ ∀ t, filter (λ x, x.1 = t) built = filter (λ x, x.1 = t) seq.
Proof.
  induction seq as [|x seq IH] using rev_ind; cbn zeta.
  - split_and!; [done|constructor|done].
  - rewrite foldl_app; cbn [foldl]. destruct IH as (Hp & Hs & Hf).
    unfold insert_timed at 1 3 5. destruct x as [t i]; cbn [fst snd]. split_and!.
    + rewrite insert_at_Permutation, Hp. by rewrite Permutation_cons_append.
    + by apply insert_at_sorted.
    + intros t'. rewrite insert_at_stable by done. by rewrite !filter_app, Hf.
Qed.
End insert.

Section deferred.
Context `{!PyEnv}.

(** C2. The build step stores a new schedule in the entry that holds,
    for every serialized instruction in source order, each converted
    instruction at the start offset of the serialized one: the stored
    instructions are the converted ones, ordered by offset, and within
    one offset in the order of the source; two serialized instructions
    at offsets 10 and 5 come out as 5 then 10.  The publisher tag of the
    new schedule is [BACKEND_PROVIDER], whatever the build step does
    afterwards. *)
Theorem C2_build_orders_by_offset self w q source :
  subclass self = Some q →
  _source q = Some source →
  ∃ r self' w' l s,
    PulseQobjDef__build_schedule self w = (r, self', w')
    ∧ heap w !! l = None
    ∧ _definition self' = Some l
    ∧ heap w' !! l = Some s
    ∧ sched_instructions s
      = foldl insert_timed [] (timed_instructions (_converter q) source)
    ∧ sched_instructions s ≡ₚ timed_instructions (_converter q) source
    ∧ StronglySorted offset_le (sched_instructions s)
    ∧ (∀ t, filter (λ x, x.1 = t) (sched_instructions s)
            = filter (λ x, x.1 = t) (timed_instructions (_converter q) source))
    ∧ (∀ q1 q2, source = [q1; q2] → t0 q1 = 10 → t0 q2 = 5 →
         sched_instructions s
         = (pair 5 <$> _converter q q2) ++ (pair 10 <$> _converter q q1))
    ∧ sched_metadata s !! "publisher" = Some (VPublisher BACKEND_PROVIDER).
Proof.
  intros Hq Hsrc.
  destruct (build_schedule_outcome self w q source Hq Hsrc) as (r & sig' & Hb).
  eexists r, _, _, (fresh (dom (heap w))), (built_schedule q source).
  split; [exact Hb|].
  assert (Hi : sched_instructions (built_schedule q source)
               = foldl insert_timed [] (timed_instructions (_converter q) source)).
  { unfold built_schedule, tagged; cbn [sched_instructions].
    by rewrite insert_all_instructions. }
  destruct (insert_timed_sorts (timed_instructions (_converter q) source))
    as (Hp & Hs & Hf).
  split_and!.
  - apply fresh_loc_unused.
  - done.
  - cbn [heap]. apply lookup_insert_eq.
  - done.
  - by rewrite Hi.
  - by rewrite Hi.
  - intros t. by rewrite Hi.
  - intros q1 q2 -> H1 H2. rewrite Hi.
    unfold timed_instructions; cbn [flat_map]. rewrite app_nil_r, foldl_app.
    rewrite H1, H2.
    assert (Hfold : ∀ t insts acc,
              foldl insert_timed acc (pair t <$> insts)
              = foldl (λ acc inst, insert_at t inst acc) acc insts).
    { intros t insts. induction insts as [|i insts IH]; intros acc; [done|].
      cbn [fmap list_fmap foldl]. by rewrite <-IH. }
    rewrite !Hfold.
    pose proof (insert_run_split 10 (_converter q q1) [] []) as H10.
    cbn [app] in H10. rewrite H10 by constructor. rewrite app_nil_r.
    pose proof (insert_run_split 5 (_converter q q2) [] (pair 10 <$> _converter q q1))
      as H5.
    cbn [app] in H5. rewrite H5; [done|constructor|].
    apply Forall_fmap, Forall_true. intros; cbn; lia.
  - unfold built_schedule, tagged; cbn [sched_metadata]. apply lookup_insert_eq.
Qed.

(** C7. Without arguments [get_schedule] hands back the very reference
    the entry stores: nothing is allocated, nothing is substituted, and
    neither the entry nor the store changes. *)
Theorem C7_no_arguments_returns_stored self w l :
  _definition self = Some l →
  ScheduleDef_get_schedule [] ∅ self w = (Returns (Some l), self, w).
Proof.
  intros Hd. unfold ScheduleDef_get_schedule.
  replace (bool_decide (@nil PyVal = []) && negb (dict_nonempty ∅)) with true by done.
  run. by rewrite Hd.
Qed.
End deferred.

Section publisher.
Context `{!PyEnv}.

Lemma tags_kept_refl h : tags_kept h h.
Proof. by intros l v. Qed.

Lemma tags_kept_new h s : tags_kept h (<[fresh (dom h) := s]> h).
Proof.
  intros l v Hl. unfold publisher_at in *.
  destruct (h !! l) as [s'|] eqn:Hs; [|done].
  rewrite lookup_insert_ne; [by rewrite Hs|].
  intros Heq. pose proof (fresh_loc_unused h) as Hf. rewrite Heq in Hf. congruence.
Qed.

(** Writing the tag of an untagged schedule keeps every tag there is. *)
Lemma tags_kept_tagging h l s p :
  h !! l = Some s →
  in_dict "publisher" (sched_metadata s) = false →
  tags_kept h (<[l := tagged p s]> h).
Proof.
  intros Hs Hno l' v Hl'. unfold publisher_at in *.
  destruct (decide (l = l')) as [<-|Hne].
  - rewrite Hs in Hl'. cbn in Hl'. unfold in_dict in Hno.
    apply bool_decide_eq_false in Hno. destruct Hno. by eexists.
  - by rewrite lookup_insert_ne.
Qed.

Lemma define_tags self w l : tags_kept (heap w) (heap (ScheduleDef_define l self w).2).
Proof.
  unfold ScheduleDef_define. run. unfold read_schedule at 1.
  destruct (heap w !! l) as [s|] eqn:Hs; cbn beta iota; [|apply tags_kept_refl].
  rewrite bind_run.
  destruct (in_dict "publisher" (sched_metadata s)) eqn:Hin.
  - run.
    destruct (parse_argument_frame (set_definition (Some l) self) w) as (r & sig' & ->).
    apply tags_kept_refl.
  - rewrite (set_metadata_spec _ _ _ _ _ _ Hs). cbn beta iota.
    match goal with |- context [ScheduleDef__parse_argument ?a ?b] =>
      destruct (parse_argument_frame a b) as (r & sig' & ->) end.
    cbn [snd with_heap heap]. by apply (tags_kept_tagging _ _ _ QISKIT).
Qed.

Lemma build_keeps_objects self w l s :
  heap w !! l = Some s →
  heap (PulseQobjDef__build_schedule self w).2 !! l = Some s.
Proof.
  intros Hs.
  assert (Hne : fresh (dom (heap w)) ≠ l).
  { intros Heq. pose proof (fresh_loc_unused (heap w)) as Hf.
    rewrite Heq in Hf. congruence. }
  destruct (subclass self) as [q|] eqn:Hq.
  - destruct (_source q) as [source|] eqn:Hsrc.
    + destruct (build_schedule_outcome self w q source Hq Hsrc) as (r & sig' & ->).
      cbn [snd heap]. by rewrite lookup_insert_ne.
    + unfold PulseQobjDef__build_schedule, subclass_fields. run. rewrite Hq. run.
      rewrite Hsrc. run. cbn [snd with_heap heap]. by rewrite lookup_insert_ne.
  - unfold PulseQobjDef__build_schedule, subclass_fields. run. rewrite Hq. by run.
Qed.

(** C9. No entry operation overwrites a publisher tag.  [define] writes
    the tag only into a schedule that has none; the build step writes it
    into the schedule it has just created and touches no other object;
    [CallableDef.get_schedule] writes it only into a returned schedule
    that the callback left untagged. *)
Theorem C9_publisher_tag_never_overwritten self cself w :
  (∀ l, tags_kept (heap w) (heap (ScheduleDef_define l self w).2))
  ∧ (tags_kept (heap w) (heap (PulseQobjDef__build_schedule self w).2)
     ∧ ∀ l s, heap w !! l = Some s →
              heap (PulseQobjDef__build_schedule self w).2 !! l = Some s)
  ∧ (∀ args kwargs,
       let w' := (CallableDef_get_schedule args kwargs cself w).2 in
       match CallableDef._definition cself, CallableDef._signature cself with
       | Some f, Some sig =>
           match Signature_bind sig args kwargs with
           | Returns to_bind =>
               tags_kept (callable_call f (apply_defaults sig to_bind) (heap w)).2
                         (heap w')
           | Raises _ => heap w' = heap w
           end
       | _, _ => heap w' = heap w
       end).
Proof.
  split_and!.
  - intros l. apply define_tags.
  - intros l v Hl. unfold publisher_at in *.
    destruct (heap w !! l) as [s|] eqn:Hs; [|done].
    by rewrite (build_keeps_objects _ _ _ _ Hs).
  - apply build_keeps_objects.
  - intros args kwargs. cbn zeta. unfold CallableDef_get_schedule.
    rewrite bind_run, get_self_run. cbn beta iota. rewrite bind_run.
    unfold except_TypeError.
    destruct (CallableDef._signature cself) as [sig|]; cbn beta iota.
    2:{ run. by destruct (CallableDef._definition cself). }
    rewrite bind_run, lift_run.
    destruct (Signature_bind sig args kwargs) as [to_bind|e]; cbn beta iota.
    2:{ destruct (CallableDef._definition cself); by destruct e. }
    run. destruct (CallableDef._definition cself) as [f|]; [|by run].
    unfold invoke. run. unfold run_callable. cbn [heap trace].
    destruct (callable_call f (apply_defaults sig to_bind) (heap w)) as [[l|e] h1];
      cbn beta iota; cbn [snd]; [|apply tags_kept_refl].
    rewrite bind_run. unfold read_schedule at 1. cbn [heap].
    destruct (h1 !! l) as [s|] eqn:Hs; cbn beta iota; [|apply tags_kept_refl].
    rewrite bind_run.
    destruct (in_dict "publisher" (sched_metadata s)) eqn:Hin.
    + run. apply tags_kept_refl.
    + erewrite set_metadata_spec by exact Hs. run. cbn [snd with_heap heap].
      by apply (tags_kept_tagging _ _ _ QISKIT).
Qed.
End publisher.

Section binding.
Context `{!PyEnv}.

Lemma value_dict_fold (arguments : gmap string PyVal) (params : list ParameterObj) :
  ∀ (acc : gmap ParameterObj PyVal) p,
    foldl (λ value_dict param,
             match arguments !! pname param with
             | Some v => <[param := v]> value_dict
             | None => value_dict
             end) acc params !! p
    = if decide (p ∈ params)
      then match arguments !! pname p with
           | Some v => Some v
           | None => acc !! p
           end
      else acc !! p.
Proof.
  induction params as [|p0 params IH]; intros acc p; cbn [foldl].
  - by rewrite decide_False by apply not_elem_of_nil.
  - rewrite IH. destruct (decide (p = p0)) as [->|Hne].
    + rewrite (decide_True (P := p0 ∈ p0 :: params)) by apply list_elem_of_here.
      destruct (arguments !! pname p0) as [v|] eqn:Hv.
      * rewrite lookup_insert_eq. by case_decide.
      * by case_decide.
    + destruct (decide (p ∈ params)) as [Hin|Hnin].
      * rewrite decide_True by by apply list_elem_of_further.
        destruct (arguments !! pname p0); [by rewrite lookup_insert_ne|done].
      * rewrite decide_False by (intros [?|?]%elem_of_cons; done).
        destruct (arguments !! pname p0); [by rewrite lookup_insert_ne|done].
Qed.

(** [value_dict] maps exactly the parameters of the definition whose name
    is bound, each to the value bound to its name. *)
Lemma make_value_dict_lookup params (arguments : gmap string PyVal) p :
  make_value_dict params arguments !! p
  = if decide (p ∈ params) then arguments !! pname p else None.
Proof.
  unfold make_value_dict. rewrite value_dict_fold.
  destruct (decide (p ∈ elements params)) as [Hin|Hnin].
  - rewrite decide_True by by apply elem_of_elements.
    rewrite lookup_empty. by destruct (arguments !! pname p).
  - rewrite decide_False; [apply lookup_empty|]. by rewrite <-elem_of_elements.
Qed.

Lemma elem_of_Schedule_parameters s p :
  p ∈ Schedule_parameters s
  ↔ ∃ ti, ti ∈ sched_instructions s ∧ Unbound p ∈ operands ti.2.
Proof.
  unfold Schedule_parameters. rewrite elem_of_list_to_set, list_elem_of_In, in_flat_map.
  split.
  - intros (ti & Hti & Hp). exists ti. rewrite list_elem_of_In. split; [done|].
    unfold Instruction_parameters in Hp. apply in_flat_map in Hp as (o & Ho & Hp).
    destruct o as [p'|v]; cbn in Hp; [|done]. destruct Hp as [->|[]].
    by apply list_elem_of_In.
  - intros (ti & Hti & Hp). exists ti. rewrite <-list_elem_of_In. split; [done|].
    unfold Instruction_parameters. apply in_flat_map. exists (Unbound p).
    rewrite <-list_elem_of_In. split; [done|]. by left.
Qed.

(** On the schedule it was made for, [value_dict] substitutes by name. *)
Lemma assign_by_name s (arguments : gmap string PyVal) :
  sched_instructions (Schedule_assign (make_value_dict (Schedule_parameters s) arguments) s)
  = prod_map id (Instruction_bind arguments) <$> sched_instructions s.
Proof.
  cbn [Schedule_assign sched_instructions].
  apply Forall_fmap_ext_1, Forall_forall. intros [t i] Hti.
  unfold prod_map; cbn [fst snd]. f_equal.
  unfold Instruction_assign, Instruction_bind. f_equal.
  apply Forall_fmap_ext_1, Forall_forall. intros [p|v] Ho; [|done].
  cbn [Operand_assign Operand_bind]. rewrite make_value_dict_lookup.
  rewrite decide_True; [done|].
  apply elem_of_Schedule_parameters. by exists (t, i).
Qed.

(** What is still symbolic after a substitution by name. *)
Lemma bind_parameters s s' (arguments : gmap string PyVal) p :
  sched_instructions s' = prod_map id (Instruction_bind arguments) <$> sched_instructions s →
  p ∈ Schedule_parameters s'
  ↔ p ∈ Schedule_parameters s ∧ arguments !! pname p = None.
Proof.
  intros Hs'. rewrite !elem_of_Schedule_parameters, Hs'. split.
  - intros (ti & Hti & Hp). apply list_elem_of_fmap in Hti as ([t i] & -> & Hti).
    cbn [prod_map fst snd Instruction_bind operands] in Hp.
    apply list_elem_of_fmap in Hp as (o & Ho & Hin).
    destruct o as [p'|v]; cbn [Operand_bind] in Ho.
    + destruct (arguments !! pname p') eqn:Hv; [done|]. injection Ho as ->.
      split; [|done]. by exists (t, i).
    + done.
  - intros [(ti & Hti & Hp) Hnone]. destruct ti as [t i].
    exists (t, Instruction_bind arguments i). split.
    + apply list_elem_of_fmap. by exists (t, i).
    + cbn [snd Instruction_bind operands]. apply list_elem_of_fmap.
      exists (Unbound p). split; [|done]. cbn [Operand_bind]. by rewrite Hnone.
Qed.

(** C4. A call of [get_schedule] with at least one argument that binds
    against the signature returns a new schedule: its reference was not
    in use, the stored original and every other object are as before, and
    its instructions are those of the original with exactly the operands
    whose parameter name is bound replaced by the bound value; the
    parameters of the original whose name is not bound are the parameters
    of the result. *)
Theorem C4_partial_binding_frame self w l s sig args kwargs
    (arguments : gmap string PyVal) :
  _definition self = Some l →
  _signature self = Some sig →
  heap w !! l = Some s →
  args ≠ [] ∨ kwargs ≠ ∅ →
  Signature_bind_partial sig args kwargs = Returns arguments →
  ∃ l' s',
    ScheduleDef_get_schedule args kwargs self w
    = (Returns (Some l'), self, with_heap (<[l' := s']> (heap w)) w)
    ∧ heap w !! l' = None
    ∧ l' ≠ l
    ∧ (∀ l0 s0, heap w !! l0 = Some s0 → <[l' := s']> (heap w) !! l0 = Some s0)
    ∧ sched_instructions s'
      = prod_map id (Instruction_bind arguments) <$> sched_instructions s
    ∧ (∀ p, p ∈ Schedule_parameters s'
            ↔ p ∈ Schedule_parameters s ∧ arguments !! pname p = None).
Proof.
  intros Hd Hsig Hs Hargs Hbind.
  set (l' := fresh (dom (heap w))).
  set (s' := Schedule_assign (make_value_dict (Schedule_parameters s) arguments) s).
  assert (Hfresh : heap w !! l' = None) by apply fresh_loc_unused.
  exists l', s'. split_and!.
  - unfold ScheduleDef_get_schedule.
    replace (bool_decide (args = []) && negb (dict_nonempty kwargs)) with false.
    2:{ symmetry. apply andb_false_iff. destruct Hargs as [Ha|Hk].
        - left. by apply bool_decide_eq_false.
        - right. unfold dict_nonempty. rewrite negb_involutive.
          apply bool_decide_eq_false. by rewrite map_size_empty_iff. }
    rewrite bind_run. unfold except_TypeError. rewrite bind_run.
    rewrite (virtual_get_signature_built _ _ _ Hd). cbn beta iota.
    rewrite Hsig, lift_run, Hbind. cbn beta iota.
    unfold definition_schedule. run. rewrite Hd.
    rewrite (read_schedule_run _ _ _ _ Hs). run. rewrite Hd.
    unfold assign_parameters. run. rewrite (read_schedule_run _ _ _ _ Hs). by run.
  - done.
  - intros ->. congruence.
  - intros l0 s0 H0. rewrite lookup_insert_ne; [done|]. intros <-. congruence.
  - apply assign_by_name.
  - intros p. apply bind_parameters, assign_by_name.
Qed.
End binding.

Section string_order.
Lemma ascii_compare_refl a : Ascii.compare a a = Eq.
Proof. unfold Ascii.compare. apply N.compare_refl. Qed.

Lemma ascii_compare_lt_trans a b c :
  Ascii.compare a b = Lt → Ascii.compare b c = Lt → Ascii.compare a c = Lt.
Proof. unfold Ascii.compare. rewrite !N.compare_lt_iff. lia. Qed.

Lemma string_compare_refl s : String.compare s s = Eq.
Proof. induction s as [|a s IH]; cbn; [done|]. by rewrite ascii_compare_refl. Qed.

Lemma string_compare_lt_trans s1 : ∀ s2 s3,
  String.compare s1 s2 = Lt → String.compare s2 s3 = Lt → String.compare s1 s3 = Lt.
Proof.
  induction s1 as [|a s1 IH]; intros [|b s2] [|c s3]; cbn; try done.
  destruct (Ascii.compare a b) eqn:Hab; try done;
    destruct (Ascii.compare b c) eqn:Hbc; try done; intros H12 H23.
  - apply Ascii.compare_eq_iff in Hab as ->. rewrite Hbc. by apply IH with s2.
  - apply Ascii.compare_eq_iff in Hab as ->. by rewrite Hbc.
  - apply Ascii.compare_eq_iff in Hbc as <-. by rewrite Hab.
  - by rewrite (ascii_compare_lt_trans a b c).
Qed.

Lemma str_le_lt_eq a b : str_le a b ↔ str_lt a b ∨ a = b.
Proof.
  unfold str_le, str_lt, String.leb, String.ltb. split.
  - destruct (String.compare a b) eqn:Hc; try done; [|by left].
    right. by apply String.compare_eq_iff.
  - intros [Hlt| ->]; [by destruct (String.compare a b)|].
    by rewrite string_compare_refl.
Qed.

Lemma str_lt_irrefl a : ¬ str_lt a a.
Proof. unfold str_lt, String.ltb. by rewrite string_compare_refl. Qed.

#[global] Instance str_lt_trans : Transitive str_lt.
Proof.
  intros a b c. unfold str_lt, String.ltb.
  destruct (String.compare a b) eqn:Hab; try done.
  destruct (String.compare b c) eqn:Hbc; try done.
  by rewrite (string_compare_lt_trans a b c).
Qed.

#[global] Instance str_le_trans : Transitive str_le.
Proof.
  intros a b c. rewrite !str_le_lt_eq. intros [Hab| ->] [Hbc| ->]; auto.
  left. by transitivity b.
Qed.

#[global] Instance str_le_total : Total str_le.
Proof. intros a b. apply String.leb_total. Qed.

#[global] Instance str_le_antisym : AntiSymm (=) str_le.
Proof. intros a b. apply String.leb_antisym. Qed.

(** A list in non-decreasing order without repetitions is in strictly
    increasing order. *)
Lemma sorted_strict (l : list string) :
  StronglySorted str_le l → NoDup l → StronglySorted str_lt l.
Proof.
  induction 1 as [|x l Hl IH Hx]; intros Hnd; [constructor|].
  apply NoDup_cons in Hnd as [Hnin Hnd]. constructor; [by apply IH|].
  apply Forall_forall. intros y Hy. rewrite Forall_forall in Hx.
  destruct (proj1 (str_le_lt_eq x y) (Hx y Hy)) as [Hlt| ->]; done.
Qed.

Lemma sorted_spec (l : list string) :
  NoDup l →
  sorted l ≡ₚ l ∧ StronglySorted str_lt (sorted l) ∧ NoDup (sorted l).
Proof.
  intros Hnd. unfold sorted.
  assert (Hp : merge_sort str_le l ≡ₚ l) by apply merge_sort_Permutation.
  assert (Hnd' : NoDup (merge_sort str_le l)) by by rewrite Hp.
  split_and!; [done| |done].
  apply sorted_strict; [|done]. apply StronglySorted_merge_sort; apply _.
Qed.
End string_order.

Section signature.
Context `{!PyEnv}.

Lemma inspect_Parameter_valid name :
  valid_parameter_name name = true →
  inspect_Parameter name POSITIONAL_OR_KEYWORD None = Returns (plain_param name).
Proof.
  unfold valid_parameter_name, inspect_Parameter. destruct name as [|c rest]; [done|].
  intros [[Hi Hk]%andb_true_iff Hid]%andb_true_iff.
  apply negb_true_iff in Hi, Hk.
  rewrite (bool_decide_false (is_Some None)) by by intros [? ?].
  cbn [andb]. rewrite Hi, Hk, Hid. done.
Qed.

Lemma make_params_valid names :
  Forall (λ n, valid_parameter_name n = true) names →
  make_params names = Returns (plain_param <$> names).
Proof.
  induction 1 as [|n names Hn _ IH]; [done|].
  cbn [make_params]. by rewrite inspect_Parameter_valid, IH.
Qed.

Lemma Signature_validate_plain names : ∀ top seen,
  top = POSITIONAL_ONLY ∨ top = POSITIONAL_OR_KEYWORD →
  NoDup names →
  (∀ n, n ∈ names → n ∉ seen) →
  Signature_validate (plain_param <$> names) top false seen = Returns ().
Proof.
  induction names as [|n names IH]; intros top seen Htop Hnd Hseen; [done|].
  apply NoDup_cons in Hnd as [Hn Hnd].
  cbn [fmap list_fmap Signature_validate plain_param param_kind param_name].
  rewrite bool_decide_false by (destruct Htop as [-> | ->]; cbn; lia).
  assert (Hseen_n : n ∉ seen) by (apply Hseen; left).
  destruct Htop as [-> | ->].
  - rewrite bool_decide_true by (cbn; lia).
    rewrite (bool_decide_true (_ ∨ _)) by by right.
    cbn. rewrite bool_decide_false by done.
    apply IH; [by right|done|].
    intros m Hm. apply not_elem_of_union. split; [|apply Hseen; by right].
    apply not_elem_of_singleton. by intros ->.
  - rewrite bool_decide_false by (cbn; lia).
    rewrite (bool_decide_true (_ ∨ _)) by by right.
    cbn. rewrite bool_decide_false by done.
    apply IH; [by right|done|].
    intros m Hm. apply not_elem_of_union. split; [|apply Hseen; by right].
    apply not_elem_of_singleton. by intros ->.
Qed.

Lemma inspect_Signature_plain names :
  NoDup names →
  inspect_Signature (plain_param <$> names)
  = Returns {| parameters := plain_param <$> names |}.
Proof.
  intros Hnd. unfold inspect_Signature.
  rewrite Signature_validate_plain; [done|by left|done|]. intros n _. apply not_elem_of_empty.
Qed.

Lemma signature_names_plain names :
  signature_names {| parameters := plain_param <$> names |} = names.
Proof.
  unfold signature_names; cbn [parameters]. rewrite <-list_fmap_compose.
  by rewrite (list_fmap_ext _ id names) by done; rewrite list_fmap_id.
Qed.
End signature.

Section inline.
Context `{!PyEnv}.

Lemma truthy_cons {A} (names : list A) : names ≠ [] → truthy (Some names) = true.
Proof. by destruct names. Qed.

(** What [_parse_argument] does when no argument names were given. *)
Lemma parse_argument_sorted self w l s :
  _definition self = Some l →
  heap w !! l = Some s →
  truthy (_user_arguments self) = false →
  (∀ p, p ∈ Schedule_parameters s → valid_parameter_name (pname p) = true) →
  ScheduleDef__parse_argument self w
  = (Returns (),
     set_signature
       (Some {| parameters := plain_param <$> sorted (elements (all_argnames_of s)) |})
       self, w).
Proof.
  intros Hd Hs Hu Hvalid. unfold ScheduleDef__parse_argument, definition_schedule.
  run. rewrite Hd, (read_schedule_run _ _ _ _ Hs). run. rewrite Hu. run.
  assert (Hnd : NoDup (elements (all_argnames_of s))) by apply NoDup_elements.
  destruct (sorted_spec _ Hnd) as (Hp & _ & Hnd').
  rewrite make_params_valid.
  2:{ apply Forall_forall. intros n Hn. rewrite Hp in Hn.
      apply elem_of_elements in Hn. unfold all_argnames_of in Hn.
      apply elem_of_map in Hn as (p & -> & Hp'). by apply Hvalid. }
  run. rewrite inspect_Signature_plain by done. by run.
Qed.

(** What [_parse_argument] does with given argument names. *)
Lemma parse_argument_explicit self w l s names :
  _definition self = Some l →
  heap w !! l = Some s →
  _user_arguments self = Some names →
  names ≠ [] →
  ScheduleDef__parse_argument self w
  = if bool_decide (list_to_set names ≠ all_argnames_of s)
    then (Raises ArgumentMismatch, self, w)
    else match make_params names with
         | Raises e => (Raises e, self, w)
         | Returns params =>
             match inspect_Signature params with
             | Raises e => (Raises e, self, w)
             | Returns sig => (Returns (), set_signature (Some sig) self, w)
             end
         end.
Proof.
  intros Hd Hs Hu Hne. unfold ScheduleDef__parse_argument, definition_schedule.
  run. rewrite Hd, (read_schedule_run _ _ _ _ Hs). run.
  rewrite Hu, (truthy_cons _ Hne). change (default [] (Some names)) with names.
  case_bool_decide; run; [done|].
  destruct (make_params names) as [params|e]; run; [|done].
  destruct (inspect_Signature params) as [sig|e]; by run.
Qed.

(** [define] up to the derivation of the signature: the entry refers to
    the schedule, which has got the tag [QISKIT] unless it had a tag. *)
Lemma define_spec self w l s :
  heap w !! l = Some s →
  ∃ s', sched_instructions s' = sched_instructions s
        ∧ ScheduleDef_define l self w
          = ScheduleDef__parse_argument (set_definition (Some l) self)
              (with_heap (<[l := s']> (heap w)) w).
Proof.
  intros Hs. unfold ScheduleDef_define. run.
  rewrite (read_schedule_run _ _ _ _ Hs). run.
  destruct (in_dict "publisher" (sched_metadata s)).
  - exists s. split; [done|]. run. rewrite insert_id by done. by rewrite with_heap_id.
  - exists (tagged QISKIT s). split; [done|].
    rewrite (set_metadata_spec _ _ _ _ _ _ Hs). by run.
Qed.

Lemma all_argnames_of_instructions s s' :
  sched_instructions s' = sched_instructions s →
  Schedule_parameters s' = Schedule_parameters s ∧ all_argnames_of s' = all_argnames_of s.
Proof.
  intros Hi. unfold all_argnames_of, Schedule_parameters. by rewrite Hi.
Qed.

(** C3 (amended).  For an entry without argument names of its own and a
    schedule whose parameter names are all valid Python parameter names,
    [define] succeeds and [get_signature] returns a signature whose names
    are the distinct parameter names of the schedule in lexicographic
    order, strictly increasing and hence without duplicates. *)
Theorem C3_signature_names_sorted self w l s :
  truthy (_user_arguments self) = false →
  heap w !! l = Some s →
  (∀ p, p ∈ Schedule_parameters s → valid_parameter_name (pname p) = true) →
  ∃ self' w' sig,
    ScheduleDef_define l self w = (Returns (), self', w')
    ∧ ScheduleDef_get_signature self' w' = (Returns (Some sig), self', w')
    ∧ signature_names sig = sorted (elements (all_argnames_of s))
    ∧ StronglySorted str_lt (signature_names sig)
    ∧ NoDup (signature_names sig)
    ∧ ∀ n, n ∈ signature_names sig ↔ ∃ p, p ∈ Schedule_parameters s ∧ pname p = n.
Proof.
  intros Hu Hs Hvalid.
  destruct (define_spec self w l s Hs) as (s' & Hi & Hdef).
  destruct (all_argnames_of_instructions s s' Hi) as [Hps Hns].
  rewrite (parse_argument_sorted _ _ l s') in Hdef; try done.
  2:{ cbn [with_heap heap]. apply lookup_insert_eq. }
  2:{ intros p. rewrite Hps. apply Hvalid. }
  rewrite Hns in Hdef.
  assert (Hnd : NoDup (elements (all_argnames_of s))) by apply NoDup_elements.
  destruct (sorted_spec _ Hnd) as (Hp & Hsorted & Hnd').
  eexists _, _, _. split; [exact Hdef|]. split; [done|].
  rewrite signature_names_plain. split_and!; try done.
  intros n. rewrite Hp, elem_of_elements. unfold all_argnames_of.
  rewrite elem_of_map. split; intros (p & ? & ?); by exists p.
Qed.

(** C6 (amended).  For an entry with a non-empty list of argument names:
    when the names are distinct valid Python parameter names and their set
    is the set of parameter names of the schedule, [define] succeeds and
    [get_signature] returns the names in the given order; when the two
    sets differ, [define] raises the [PulseError] of a mismatch. *)
Theorem C6_explicit_names_order self w l s names :
  _user_arguments self = Some names →
  names ≠ [] →
  heap w !! l = Some s →
  (list_to_set names = all_argnames_of s →
   NoDup names →
   Forall (λ n, valid_parameter_name n = true) names →
   ∃ self' w' sig,
     ScheduleDef_define l self w = (Returns (), self', w')
     ∧ ScheduleDef_get_signature self' w' = (Returns (Some sig), self', w')
     ∧ signature_names sig = names)
  ∧ (list_to_set names ≠ all_argnames_of s →
     ∃ self' w', ScheduleDef_define l self w = (Raises ArgumentMismatch, self', w')).
Proof.
  intros Hu Hne Hs.
  destruct (define_spec self w l s Hs) as (s' & Hi & Hdef).
  destruct (all_argnames_of_instructions s s' Hi) as [Hps Hns].
  rewrite (parse_argument_explicit _ _ l s' names) in Hdef; try done.
  2:{ cbn [with_heap heap]. apply lookup_insert_eq. }
  rewrite Hns in Hdef. split.
  - intros Heq Hnd Hvalid.
    rewrite bool_decide_false in Hdef by by intros [].
    rewrite make_params_valid, inspect_Signature_plain in Hdef by done.
    eexists _, _, _. split; [exact Hdef|]. split; [done|].
    apply signature_names_plain.
  - intros Hneq. rewrite bool_decide_true in Hdef by done. eauto.
Qed.
End inline.

Section equality.
Context `{!PyEnv}.

Lemma definition_eq_schedules {E} l1 l2 (self : E) w s1 s2 :
  heap w !! l1 = Some s1 →
  heap w !! l2 = Some s2 →
  definition_eq (Some l1) (RefSchedule l2) self w
  = (Returns (Schedule_eqb s1 s2), self, w).
Proof.
  intros H1 H2. cbn [definition_eq]. run.
  rewrite (read_schedule_run _ _ _ _ H1). run.
  rewrite (read_schedule_run _ _ _ _ H2). by run.
Qed.

(** C8 (amended).  Compared with another deferred entry, a deferred entry
    compares the two raw sources and builds nothing.  Compared, while
    unbuilt, with a built entry of the inline family, it runs the build
    step exactly once and leaves the other entry's schedule alone.  When
    its argument names are accepted for the schedule it builds (no names
    of its own and valid parameter names, or distinct valid names of its
    own with the set of the schedule's parameter names), the answer is the
    equality by value of the built schedule and the other entry's
    schedule.  When its own names do not match the parameters of the built
    schedule, the answer is the error for the mismatch; in general an error
    of the build step ends the comparison. *)
Theorem C8_equality_of_deferred_entries self w q :
  subclass self = Some q →
  (∀ other q',
     subclass other = Some q' →
     PulseQobjDef_eq (ObjScheduleDef other) self w
     = (Returns (bool_decide (_source q = _source q')), self, w))
  ∧ (∀ source other l2 s2,
       _source q = Some source →
       _definition self = None →
       subclass other = None →
       _definition other = Some l2 →
       heap w !! l2 = Some s2 →
       ∃ r_build r self' w',
         PulseQobjDef__build_schedule self w = (r_build, self', w')
         ∧ PulseQobjDef_eq (ObjScheduleDef other) self w = (r, self', w')
         ∧ builds w' = S (builds w)
         ∧ match r_build with
           | Returns _ => r = Returns (Schedule_eqb (built_schedule q source) s2)
           | Raises e => r = Raises e
           end
         ∧ (truthy (_user_arguments self) = false →
            (∀ p, p ∈ Schedule_parameters (built_schedule q source) →
                  valid_parameter_name (pname p) = true) →
            r = Returns (Schedule_eqb (built_schedule q source) s2))
         ∧ (∀ names,
              _user_arguments self = Some names →
              names ≠ [] →
              NoDup names →
              Forall (λ n, valid_parameter_name n = true) names →
              list_to_set names = all_argnames_of (built_schedule q source) →
              r = Returns (Schedule_eqb (built_schedule q source) s2))
         ∧ (∀ names,
              _user_arguments self = Some names →
              names ≠ [] →
              list_to_set names ≠ all_argnames_of (built_schedule q source) →
              r = Raises ArgumentMismatch)
         ∧ heap w' !! l2 = Some s2).
Proof.
  intros Hq. split.
  - intros other q' Hq'. unfold PulseQobjDef_eq. cbn [isinstance_PulseQobjDef].
    rewrite Hq'. unfold subclass_fields. run. rewrite Hq. by run.
  - intros source other l2 s2 Hsrc Hd Ho Hd2 Hs2.
    destruct (build_schedule_outcome self w q source Hq Hsrc) as (rb & sig' & Hb).
    set (self1 := set_signature sig' (set_definition (Some (fresh (dom (heap w)))) self))
      in *.
    set (w1 := {| heap := <[fresh (dom (heap w)) := built_schedule q source]> (heap w);
                  trace := trace w ++ [EvBuild] |}) in *.
    assert (Hl2 : heap w1 !! l2 = Some s2).
    { cbn [w1 heap]. rewrite lookup_insert_ne; [done|].
      intros Hfr. pose proof (fresh_loc_unused (heap w)) as Hf.
      rewrite Hfr in Hf. congruence. }
    assert (Heq : PulseQobjDef_eq (ObjScheduleDef other) self w
                  = match rb with
                    | Returns _ =>
                        (Returns (Schedule_eqb (built_schedule q source) s2), self1, w1)
                    | Raises e => (Raises e, self1, w1)
                    end).
    { unfold PulseQobjDef_eq. cbn [isinstance_PulseQobjDef isinstance_ScheduleDef].
      rewrite Ho. run. rewrite Hd. rewrite bool_decide_true by done. cbn [andb].
      rewrite Hb. destruct rb as [[]|e]; cbn beta iota; [|done].
      run. cbn [getattr_definition]. rewrite Hd2. cbn [ref_of_schedule]. run.
      change (_definition self1) with (Some (fresh (dom (heap w)))).
      apply definition_eq_schedules; [|done].
      cbn [w1 heap]. apply lookup_insert_eq. }
    assert (Hparse : PulseQobjDef__build_schedule self w
                     = ScheduleDef__parse_argument
                         (set_definition (Some (fresh (dom (heap w)))) self) w1).
    { by rewrite (build_schedule_spec _ _ _ _ Hq Hsrc). }
    assert (Hw1 : heap w1 !! fresh (dom (heap w)) = Some (built_schedule q source))
      by apply lookup_insert_eq.
    destruct rb as [[]|e].
    + exists (Returns ()), (Returns (Schedule_eqb (built_schedule q source) s2)), self1, w1.
      split_and!; [done|done|apply builds_emit|done|done|done| |done].
      intros names Hu Hne Hneq. exfalso.
      rewrite Hparse in Hb.
      rewrite (parse_argument_explicit _ _ (fresh (dom (heap w))) (built_schedule q source) names) in Hb;
        [|done|done|done|done].
      by rewrite bool_decide_true in Hb.
    + exists (Raises e), (Raises e), self1, w1.
      split_and!; [done|done|apply builds_emit|done| | | |done].
      * intros Hu Hvalid. exfalso. rewrite Hparse in Hb.
        rewrite (parse_argument_sorted _ _ (fresh (dom (heap w))) (built_schedule q source)) in Hb; done.
      * intros names Hu Hne Hnd Hvalid Hset. exfalso. rewrite Hparse in Hb.
        rewrite (parse_argument_explicit _ _ (fresh (dom (heap w))) (built_schedule q source) names) in Hb;
          [|done|done|done|done].
        rewrite bool_decide_false in Hb by by intros [].
        by rewrite make_params_valid, inspect_Signature_plain in Hb.
      * intros names Hu Hne Hneq. rewrite Hparse in Hb.
        rewrite (parse_argument_explicit _ _ (fresh (dom (heap w))) (built_schedule q source) names) in Hb;
          [|done|done|done|done].
        rewrite bool_decide_true in Hb by done. by injection Hb as <-.
Qed.

(** C10. Comparing a defined entry with an object that has no stored
    definition ([None], a number, a schedule: anything but an entry)
    raises [AttributeError]; it does not answer [False]. *)
Theorem C10_equality_without_definition (self : ScheduleDef.t)
    (cself : CallableDef.t) (other : PyObj) w :
  carries_definition other = false →
  ScheduleDef_eq other self w = (Raises AttributeError, self, w)
  ∧ CallableDef_eq other cself w = (Raises AttributeError, cself, w).
Proof.
  intros Ho. unfold ScheduleDef_eq, CallableDef_eq. run.
  by destruct other.
Qed.
End equality.

Section bind.
Implicit Types (kwargs arguments : gmap string PyVal) (params : list SigParam).

(** [_bind] gives up with [TypeError] only. *)
Lemma bind_positional_raises partial args : ∀ params kwargs arguments e,
  bind_positional partial args params kwargs arguments = Raises e → e = TypeError.
Proof.
  induction args as [|a args IH]; intros [|p params] kwargs arguments e;
    cbn [bind_positional]; try congruence.
  - repeat case_match; congruence.
  - repeat case_match; try congruence. apply IH.
Qed.

Lemma bind_keywords_raises partial params : ∀ kwargs arguments kp e,
  bind_keywords partial params kwargs arguments kp = Raises e → e = TypeError.
Proof.
  induction params as [|p params IH]; intros kwargs arguments kp e;
    cbn [bind_keywords]; [done|].
  repeat case_match; try congruence; apply IH.
Qed.

Lemma Signature_bind_raises sig args kwargs partial e :
  Signature__bind sig args kwargs partial = Raises e → e = TypeError.
Proof.
  unfold Signature__bind.
  destruct (bind_positional _ _ _ _ _) as [[arguments params]|e1] eqn:H1.
  - destruct (bind_keywords _ _ _ _ _) as [[[kw arguments'] kp]|e2] eqn:H2.
    + repeat case_match; congruence.
    + intros [= <-]. by eapply bind_keywords_raises.
  - intros [= <-]. by eapply bind_positional_raises.
Qed.

(** The first loop: a prefix of the parameters is filled by position,
    then possibly one parameter collects the remaining positions. *)
Lemma bind_positional_returns partial args :
  ∀ params kwargs arguments arguments' rest,
    bind_positional partial args params kwargs arguments = Returns (arguments', rest) →
    ∃ pre mid,
      params = pre ++ mid ++ rest
      ∧ Forall (λ p, takes_position p = true) pre
      ∧ (length pre ≤ length args)%nat
      ∧ ((mid = [] ∧ length pre = length args)
         ∨ ∃ vp, mid = [vp] ∧ param_kind vp = VAR_POSITIONAL)
      ∧ (∀ k, is_Some (arguments !! k) → is_Some (arguments' !! k))
      ∧ Forall (λ p, is_Some (arguments' !! param_name p)) pre.
Proof.
  induction args as [|a args IH]; intros [|p params] kwargs arguments arguments' rest;
    cbn [bind_positional]; try done.
  - intros [= <- <-]. exists [], []. split_and!; auto.
  - intros Hr.
    destruct (bool_decide (param_kind p = VAR_POSITIONAL)) eqn:Hvp.
    { apply bool_decide_eq_true in Hvp. injection Hr as <- <-.
      exists [], [p]. split_and!; auto. right. by exists p. }
    assert (arguments' = arguments ∧ rest = p :: params) as [-> ->].
    { repeat case_match; by simplify_eq. }
    exists [], []. split_and!; auto.
  - intros Hr.
    destruct (bool_decide (_ ∨ _)) eqn:Hk; [done|].
    apply bool_decide_eq_false in Hk.
    destruct (bool_decide (param_kind p = VAR_POSITIONAL)) eqn:Hvp.
    { apply bool_decide_eq_true in Hvp. injection Hr as <- <-.
      exists [], [p]. split_and!; auto.
      - cbn; lia.
      - right. by exists p.
      - intros k Hk'. destruct (decide (param_name p = k)) as [->|Hne].
        + rewrite lookup_insert_eq. by eexists.
        + by rewrite lookup_insert_ne. }
    apply bool_decide_eq_false in Hvp.
    destruct (_ && _); [done|].
    apply IH in Hr as (pre & mid & -> & Hpre & Hlen & Hmid & Hmono & Hin).
    assert (Hp : is_Some (arguments' !! param_name p)).
    { apply Hmono. rewrite lookup_insert_eq. by eexists. }
    exists (p :: pre), mid. split_and!; auto.
    + constructor; [|done]. unfold takes_position. apply bool_decide_eq_true.
      destruct (param_kind p); intuition congruence.
    + cbn; lia.
    + destruct Hmid as [[-> Hl]|Hmid]; [left|by right]. split; [done|]. cbn; lia.
    + intros k Hk'. apply Hmono. destruct (decide (param_name p = k)) as [->|Hne].
      * rewrite lookup_insert_eq. by eexists.
      * by rewrite lookup_insert_ne.
Qed.

(** The second loop, for a full binding: a required parameter finds its
    keyword; every keyword that disappears was taken by a parameter;
    nothing bound gets lost. *)
Lemma bind_keywords_returns params :
  ∀ kwargs arguments kp kwargs' arguments' kp',
    bind_keywords false params kwargs arguments kp = Returns (kwargs', arguments', kp') →
    Forall (λ p, required p = true →
                 takes_keyword p = true ∧ is_Some (kwargs !! param_name p)
                 ∧ is_Some (arguments' !! param_name p)) params
    ∧ (∀ k, is_Some (kwargs !! k) →
            is_Some (kwargs' !! k)
            ∨ ∃ p, p ∈ params ∧ param_name p = k ∧ takes_keyword p = true)
    ∧ (∀ p, kp' = Some p →
            kp = Some p ∨ (p ∈ params ∧ param_kind p = VAR_KEYWORD))
    ∧ (∀ k, is_Some (arguments !! k) → is_Some (arguments' !! k)).
Proof.
  induction params as [|p params IH]; intros kwargs arguments kp kwargs' arguments' kp';
    cbn [bind_keywords].
  - intros [= <- <- <-]. split_and!; auto.
  - destruct (bool_decide (param_kind p = VAR_KEYWORD)) eqn:Hvk.
    { apply bool_decide_eq_true in Hvk. intros Hr.
      apply IH in Hr as (Hreq & Hkw & Hkp & Hmono). split_and!; auto.
      - constructor; [|done]. unfold required. rewrite Hvk.
        rewrite (bool_decide_false (_ ∧ _)) by (intros [? ?]; done).
        by rewrite andb_false_r.
      - intros k Hk. destruct (Hkw k Hk) as [?|(p' & ? & ? & ?)]; [by left|right].
        exists p'. split_and!; auto. by right.
      - intros p' Hp'. destruct (Hkp p' Hp') as [[= <-]|[? ?]]; right.
        + split; [by left|done].
        + split; [by right|done]. }
    apply bool_decide_eq_false in Hvk.
    destruct (bool_decide (param_kind p = VAR_POSITIONAL)) eqn:Hvp.
    { apply bool_decide_eq_true in Hvp. intros Hr.
      apply IH in Hr as (Hreq & Hkw & Hkp & Hmono). split_and!; auto.
      - constructor; [|done]. unfold required. rewrite Hvp.
        rewrite (bool_decide_false (_ ∧ _)) by (intros [? ?]; done).
        by rewrite andb_false_r.
      - intros k Hk. destruct (Hkw k Hk) as [?|(p' & ? & ? & ?)]; [by left|right].
        exists p'. split_and!; auto. by right.
      - intros p' Hp'. destruct (Hkp p' Hp') as [?|[? ?]]; [by left|right].
        split; [by right|done]. }
    apply bool_decide_eq_false in Hvp.
    destruct (kwargs !! param_name p) as [v|] eqn:Hv.
    + destruct (bool_decide (param_kind p = POSITIONAL_ONLY)) eqn:Hpo; [done|].
      apply bool_decide_eq_false in Hpo. intros Hr.
      apply IH in Hr as (Hreq & Hkw & Hkp & Hmono).
      assert (Htk : takes_keyword p = true).
      { unfold takes_keyword. apply bool_decide_eq_true.
        destruct (param_kind p); intuition congruence. }
      split_and!.
      * constructor.
        -- intros _. split_and!; [done|by eexists|].
           apply Hmono. rewrite lookup_insert_eq. by eexists.
        -- eapply Forall_impl; [exact Hreq|]. cbn. intros p' Hp' Hr'.
           destruct (Hp' Hr') as (? & [x Hx] & ?). split_and!; [done| |done].
           apply lookup_delete_Some in Hx as [_ Hx]. by eexists.
      * intros k [x Hk]. destruct (decide (param_name p = k)) as [<-|Hne].
        -- right. exists p. split_and!; [by left|done|done].
        -- destruct (Hkw k) as [?|(p' & ? & ? & ?)].
           ++ rewrite lookup_delete_ne by done. by eexists.
           ++ by left.
           ++ right. exists p'. split_and!; auto. by right.
      * intros p' Hp'. destruct (Hkp p' Hp') as [?|[? ?]]; [by left|right].
        split; [by right|done].
      * intros k Hk. apply Hmono. destruct (decide (param_name p = k)) as [->|Hne].
        -- rewrite lookup_insert_eq. by eexists.
        -- by rewrite lookup_insert_ne.
    + cbn [negb andb]. destruct (has_default p) eqn:Hdef; cbn [negb]; [|done].
      intros Hr. apply IH in Hr as (Hreq & Hkw & Hkp & Hmono). split_and!; auto.
      * constructor; [|done]. unfold required. by rewrite Hdef.
      * intros k Hk. destruct (Hkw k Hk) as [?|(p' & ? & ? & ?)]; [by left|right].
        exists p'. split_and!; auto. by right.
      * intros p' Hp'. destruct (Hkp p' Hp') as [?|[? ?]]; [by left|right].
        split; [by right|done].
Qed.
End bind.

Section ordinary.
Implicit Types (kwargs arguments : gmap string PyVal) (params : list SigParam).

Lemma bind_positional_ordinary args : ∀ params kwargs arguments,
  Forall (λ p, param_kind p = POSITIONAL_OR_KEYWORD) params →
  (length args ≤ length params)%nat →
  Forall (λ p, kwargs !! param_name p = None) (take (length args) params) →
  Forall (λ p, has_default p = true ∨ is_Some (kwargs !! param_name p))
         (drop (length args) params) →
  ∃ arguments',
    bind_positional false args params kwargs arguments
    = Returns (arguments', drop (length args) params).
Proof.
  induction args as [|a args IH]; intros [|p params] kwargs arguments Hk Hlen Hfree Hrest;
    cbn [bind_positional length take drop] in *; try lia.
  - eauto.
  - apply Forall_cons in Hk as [Hp _]. apply Forall_cons in Hrest as [Hd _].
    rewrite Hp. rewrite bool_decide_false by done. unfold in_dict.
    destruct (kwargs !! param_name p) as [v|] eqn:Hv.
    + rewrite bool_decide_true by by eexists.
      rewrite bool_decide_false by done. eauto.
    + rewrite bool_decide_false by by intros [? ?].
      rewrite bool_decide_false by done. cbn [orb].
      destruct Hd as [->|[? ?]]; [eauto|done].
  - apply Forall_cons in Hk as [Hp Hk]. apply Forall_cons in Hfree as [Hn Hfree].
    rewrite Hp. rewrite bool_decide_false by (intros [?|?]; done).
    rewrite bool_decide_false by done. unfold in_dict. rewrite Hn.
    rewrite (bool_decide_false (is_Some None)) by by intros [? ?].
    cbn [andb]. apply IH; [done|lia|done|done].
Qed.

Lemma bind_keywords_ordinary params : ∀ kwargs arguments kp,
  Forall (λ p, param_kind p = POSITIONAL_OR_KEYWORD) params →
  NoDup (param_name <$> params) →
  Forall (λ p, has_default p = true ∨ is_Some (kwargs !! param_name p)) params →
  ∃ kwargs' arguments',
    bind_keywords false params kwargs arguments kp = Returns (kwargs', arguments', kp)
    ∧ ∀ k, is_Some (kwargs' !! k) →
           is_Some (kwargs !! k) ∧ k ∉ param_name <$> params.
Proof.
  induction params as [|p params IH]; intros kwargs arguments kp Hk Hnd Hall;
    cbn [bind_keywords].
  - eexists _, _. split; [done|]. intros k Hk'. split; [done|]. apply not_elem_of_nil.
  - apply Forall_cons in Hk as [Hp Hk]. apply Forall_cons in Hall as [Hd Hall].
    cbn [fmap list_fmap] in Hnd. apply NoDup_cons in Hnd as [Hnin Hnd].
    rewrite Hp. rewrite !bool_decide_false by done.
    destruct (kwargs !! param_name p) as [v|] eqn:Hv.
    + destruct (IH (delete (param_name p) kwargs)
                   (<[param_name p := v]> arguments) kp Hk Hnd)
        as (kw' & args' & -> & Hkw).
      { rewrite Forall_forall in Hall. apply Forall_forall. intros p' Hp'.
        destruct (Hall p' Hp') as [?|Hs]; [by left|right].
        rewrite lookup_delete_ne; [done|]. intros Heq. apply Hnin.
        rewrite Heq. by apply list_elem_of_fmap_2. }
      eexists _, _. split; [done|]. intros k Hk'.
      destruct (Hkw k Hk') as [[x Hx] Hnk].
      apply lookup_delete_Some in Hx as [Hne Hx]. split; [by eexists|].
      cbn [fmap list_fmap]. apply not_elem_of_cons. split; [done|done].
    + destruct Hd as [Hd|[? ?]]; [|done]. rewrite Hd. cbn [negb andb].
      destruct (IH kwargs arguments kp Hk Hnd Hall) as (kw' & args' & -> & Hkw).
      eexists _, _. split; [done|]. intros k Hk'.
      destruct (Hkw k Hk') as [Hx Hnk]. split; [done|].
      cbn [fmap list_fmap]. apply not_elem_of_cons. split; [|done].
      intros ->. destruct Hx as [x Hx]. congruence.
Qed.

(** For an ordinary signature the binding succeeds when there are no more
    positional arguments than parameters, every keyword names a parameter
    that no positional argument fills, and every required parameter is
    supplied. *)
Lemma Signature_bind_ordinary sig args kwargs :
  ordinary sig →
  (length args ≤ length (parameters sig))%nat →
  (∀ k, is_Some (kwargs !! k) →
        k ∈ param_name <$> drop (length args) (parameters sig)) →
  (∀ i p, parameters sig !! i = Some p → required p = true →
          supplied args kwargs i p = true) →
  ∃ to_bind, Signature_bind sig args kwargs = Returns to_bind.
Proof.
  intros [Hk Hnd] Hlen Hkw Hreq. unfold Signature_bind, Signature__bind.
  assert (Hnames : signature_names sig
                   = (param_name <$> take (length args) (parameters sig))
                     ++ (param_name <$> drop (length args) (parameters sig))).
  { unfold signature_names. by rewrite <-fmap_app, take_drop. }
  rewrite Hnames in Hnd. apply NoDup_app in Hnd as (_ & Hdisj & Hnd2).
  assert (Hrest : Forall (λ p, has_default p = true ∨ is_Some (kwargs !! param_name p))
                         (drop (length args) (parameters sig))).
  { apply Forall_lookup. intros i p Hi. rewrite lookup_drop in Hi.
    destruct (has_default p) eqn:Hd; [by left|right].
    assert (Hr : required p = true).
    { unfold required. rewrite Hd. cbn [negb andb]. apply bool_decide_eq_true.
      rewrite (proj1 (Forall_lookup _ _) Hk _ p Hi). done. }
    specialize (Hreq _ p Hi Hr). unfold supplied in Hreq.
    rewrite (bool_decide_false (_ < _)%nat) in Hreq by lia.
    rewrite andb_false_r in Hreq. cbn [orb] in Hreq.
    apply andb_true_iff in Hreq as [_ Hin]. by apply bool_decide_eq_true in Hin. }
  destruct (bind_positional_ordinary args (parameters sig) kwargs ∅) as [arguments1 ->];
    [done|done| |done|].
  { apply Forall_forall. intros p Hp.
    destruct (kwargs !! param_name p) as [v|] eqn:Hv; [|done]. exfalso.
    apply (Hdisj (param_name p)); [by apply list_elem_of_fmap_2|].
    apply Hkw. by eexists. }
  destruct (bind_keywords_ordinary (drop (length args) (parameters sig)) kwargs
              arguments1 None) as (kw' & arguments2 & -> & Hleft);
    [by apply Forall_drop|done|done|].
  assert (Hempty : dict_nonempty kw' = false).
  { unfold dict_nonempty. apply negb_false_iff, bool_decide_eq_true.
    apply map_size_empty_iff, map_empty. intros k.
    destruct (kw' !! k) as [v|] eqn:Hv; [|done]. exfalso.
    destruct (Hleft k) as [Hin Hnin]; [by eexists|]. by apply Hnin, Hkw. }
  rewrite Hempty. eauto.
Qed.
End ordinary.

Section full_binding.
Implicit Types (kwargs arguments : gmap string PyVal) (params : list SigParam).

Lemma Signature_bind_inv sig args kwargs to_bind :
  Signature_bind sig args kwargs = Returns to_bind →
  ∃ arguments1 rest kwargs' arguments2 kp,
    bind_positional false args (parameters sig) kwargs ∅ = Returns (arguments1, rest)
    ∧ bind_keywords false rest kwargs arguments1 None = Returns (kwargs', arguments2, kp)
    ∧ (dict_nonempty kwargs' = true → is_Some kp)
    ∧ (∀ k, is_Some (arguments2 !! k) → is_Some (to_bind !! k)).
Proof.
  unfold Signature_bind, Signature__bind.
  destruct (bind_positional _ _ _ _ _) as [[arguments1 rest]|e1] eqn:H1; [|done].
  destruct (bind_keywords _ _ _ _ _) as [[[kw arguments2] kp]|e2] eqn:H2; [|done].
  intros Hr. exists arguments1, rest, kw, arguments2, kp. split_and!; [done|done| |].
  - intros Hne. rewrite Hne in Hr. by destruct kp.
  - intros k Hk. destruct (dict_nonempty kw); [|by simplify_eq].
    destruct kp as [p|]; [|done]. injection Hr as <-.
    destruct (decide (param_name p = k)) as [->|Hne].
    + rewrite lookup_insert_eq. by eexists.
    + by rewrite lookup_insert_ne.
Qed.

(** A binding that succeeds has found a value for every required
    parameter, at its position or under its name. *)
Lemma bind_supplies_required sig args kwargs to_bind i p :
  Signature_bind sig args kwargs = Returns to_bind →
  parameters sig !! i = Some p →
  required p = true →
  supplied args kwargs i p = true ∧ is_Some (to_bind !! param_name p).
Proof.
  intros (arguments1 & rest & kw & arguments2 & kp & H1 & H2 & _ & Hfin)%Signature_bind_inv
         Hi Hreq.
  apply bind_positional_returns in H1 as (pre & mid & Hsplit & Hpre & Hlen & Hmid & _ & Hin).
  apply bind_keywords_returns in H2 as (Hrest & _ & _ & Hmono).
  rewrite Hsplit in Hi. apply lookup_app_Some in Hi as [Hi|[Hge Hi]].
  - split.
    + unfold supplied. rewrite (proj1 (Forall_lookup _ _) Hpre i p Hi). cbn [andb].
      apply lookup_lt_Some in Hi. rewrite bool_decide_true by lia. done.
    + apply Hfin, Hmono. by apply (proj1 (Forall_lookup _ _) Hin i p Hi).
  - apply lookup_app_Some in Hi as [Hi|[_ Hi]].
    + destruct Hmid as [[-> _]|(vp & -> & Hvp)]; [done|].
      apply list_lookup_singleton_Some in Hi as [_ <-].
      unfold required in Hreq. rewrite Hvp in Hreq.
      rewrite (bool_decide_false (_ ∧ _)) in Hreq by (intros [? ?]; done).
      by rewrite andb_false_r in Hreq.
    + destruct (proj1 (Forall_lookup _ _) Hrest _ p Hi Hreq) as (Htk & Hkw & Harg).
      split; [|by apply Hfin].
      unfold supplied, in_dict. rewrite Htk, (bool_decide_true (is_Some _)) by done.
      by rewrite orb_true_r.
Qed.

(** A binding that succeeds has found a place for every keyword. *)
Lemma bind_accepts_keywords sig args kwargs to_bind k :
  Signature_bind sig args kwargs = Returns to_bind →
  is_Some (kwargs !! k) →
  accepts_keyword sig k = true.
Proof.
  intros (arguments1 & rest & kw & arguments2 & kp & H1 & H2 & Hkp & _)%Signature_bind_inv Hk.
  apply bind_positional_returns in H1 as (pre & mid & Hsplit & _).
  apply bind_keywords_returns in H2 as (_ & Hkw & Hvk & _).
  assert (Hsub : ∀ p, p ∈ rest → p ∈ parameters sig).
  { intros p Hp. rewrite Hsplit, !elem_of_app. auto. }
  unfold accepts_keyword. apply orb_true_iff.
  destruct (Hkw k Hk) as [[x Hx]|(p & Hp & Hn & Htk)].
  - right. destruct Hkp as [p Hp].
    { unfold dict_nonempty. apply negb_true_iff, bool_decide_eq_false.
      intros Hsz%map_size_empty_iff. by rewrite Hsz, lookup_empty in Hx. }
    destruct (Hvk p Hp) as [?|[Hin Hkind]]; [done|].
    apply existsb_exists. exists p. rewrite <-list_elem_of_In.
    split; [by apply Hsub|by apply bool_decide_eq_true].
  - left. apply existsb_exists. exists p. rewrite <-list_elem_of_In.
    split; [by apply Hsub|]. rewrite Htk, bool_decide_true by done. done.
Qed.

Lemma filter_all {A} (P : A → Prop) `{!∀ x, Decision (P x)} (l : list A) :
  Forall P l → filter P l = l.
Proof.
  induction 1 as [|x l Hx _ IH]; [done|]. by rewrite filter_cons_True, IH.
Qed.

(** A binding that succeeds has found a place for every position. *)
Lemma bind_accepts_positions sig args kwargs to_bind :
  Signature_bind sig args kwargs = Returns to_bind →
  accepts_positions sig (length args) = true.
Proof.
  intros (arguments1 & rest & kw & arguments2 & kp & H1 & _)%Signature_bind_inv.
  apply bind_positional_returns in H1 as (pre & mid & Hsplit & Hpre & _ & Hmid & _).
  unfold accepts_positions. apply orb_true_iff.
  destruct Hmid as [[-> Hlen]|(vp & -> & Hvp)].
  - left. apply bool_decide_eq_true. rewrite Hsplit, filter_app, length_app.
    rewrite (filter_all _ pre) by done. lia.
  - right. apply existsb_exists. exists vp. rewrite <-list_elem_of_In.
    split; [|by apply bool_decide_eq_true].
    rewrite Hsplit, !elem_of_app. right; left. apply list_elem_of_singleton. done.
Qed.

Lemma apply_defaults_fold (arguments : gmap string PyVal) params :
  ∀ acc : gmap string PyVal,
    let f := λ (new_arguments : gmap string PyVal) param,
               match arguments !! param_name param with
               | Some v => <[param_name param := v]> new_arguments
               | None =>
                   match param_default param with
                   | Some val => <[param_name param := val]> new_arguments
                   | None =>
                       match param_kind param with
                       | VAR_POSITIONAL => <[param_name param := VTuple []]> new_arguments
                       | VAR_KEYWORD => <[param_name param := VDict []]> new_arguments
                       | _ => new_arguments
                       end
                   end
               end in
    (∀ k, is_Some (acc !! k) → is_Some (foldl f acc params !! k))
    ∧ Forall (λ p, (required p = true → is_Some (arguments !! param_name p)) →
                   is_Some (foldl f acc params !! param_name p)) params.
Proof.
  induction params as [|p params IH]; intros acc f; cbn [foldl]; [by split|].
  destruct (IH (f acc p)) as [Hmono Hall]. fold f in Hmono, Hall.
  assert (Hins : ∀ k v, is_Some (acc !! k) → is_Some (<[param_name p := v]> acc !! k)).
  { intros k v Hk. destruct (decide (param_name p = k)) as [->|Hne].
    - rewrite lookup_insert_eq. by eexists.
    - by rewrite lookup_insert_ne. }
  split.
  - intros k Hk. apply Hmono. unfold f.
    repeat case_match; auto.
  - constructor; [|done]. intros Hreq. apply Hmono. unfold f.
    destruct (arguments !! param_name p) as [v|] eqn:Hv.
    { rewrite lookup_insert_eq. by eexists. }
    destruct (param_default p) as [d|] eqn:Hd.
    { rewrite lookup_insert_eq. by eexists. }
    destruct (param_kind p) eqn:Hk;
      try (rewrite lookup_insert_eq; by eexists);
      (destruct Hreq as [? ?]; [|done]; unfold required, has_default;
       rewrite Hd, Hk; by apply andb_true_iff; split; [|apply bool_decide_eq_true]).
Qed.

(** After a full binding, [apply_defaults] leaves no parameter of the
    signature without a value. *)
Lemma apply_defaults_resolved sig args kwargs to_bind p :
  Signature_bind sig args kwargs = Returns to_bind →
  p ∈ parameters sig →
  is_Some (apply_defaults sig to_bind !! param_name p).
Proof.
  intros Hb Hp. unfold apply_defaults.
  destruct (apply_defaults_fold to_bind (parameters sig) ∅) as [_ Hall].
  rewrite Forall_forall in Hall. apply (Hall p Hp). intros Hreq.
  apply list_elem_of_lookup in Hp as [i Hi].
  by destruct (bind_supplies_required sig args kwargs to_bind i p Hb Hi Hreq).
Qed.
End full_binding.

Section callback.
Context `{!PyEnv}.

Lemma invocations_emit w h f kwargs :
  invocations {| heap := h; trace := trace w ++ [EvInvoke f kwargs] |}
  = S (invocations w).
Proof.
  unfold invocations; cbn [trace]. rewrite filter_app, length_app.
  rewrite filter_cons_True by done. rewrite filter_nil. cbn [length]. lia.
Qed.

(** How [get_schedule] of a defined callback entry goes on once the
    arguments are bound. *)
Lemma CallableDef_get_schedule_spec f sig args kwargs (self : CallableDef.t) w :
  CallableDef._definition self = Some f →
  CallableDef._signature self = Some sig →
  CallableDef_get_schedule args kwargs self w
  = match Signature_bind sig args kwargs with
    | Raises _ => (Raises BindingError_function, self, w)
    | Returns to_bind =>
        let arguments := apply_defaults sig to_bind in
        let trace' := trace w ++ [EvInvoke (callable_id f) arguments] in
        match callable_call f arguments (heap w) with
        | (Raises e, h1) => (Raises e, self, {| heap := h1; trace := trace' |})
        | (Returns l, h1) =>
            match h1 !! l with
            | None => (Raises AttributeError, self, {| heap := h1; trace := trace' |})
            | Some s =>
                (Returns l, self,
                 {| heap := if in_dict "publisher" (sched_metadata s) then h1
                            else <[l := tagged QISKIT s]> h1;
                    trace := trace' |})
            end
        end
    end.
Proof.
  intros Hd Hsig. unfold CallableDef_get_schedule.
  rewrite bind_run, get_self_run. cbn beta iota. rewrite bind_run.
  unfold except_TypeError. rewrite Hsig, bind_run, lift_run.
  destruct (Signature_bind sig args kwargs) as [to_bind|e] eqn:Hb; cbn beta iota.
  2:{ by rewrite (Signature_bind_raises _ _ _ _ _ Hb). }
  run. rewrite Hd. unfold invoke. run. unfold run_callable. cbn [heap trace].
  destruct (callable_call f (apply_defaults sig to_bind) (heap w)) as [[l|e] h1];
    cbn beta iota zeta; [|done].
  rewrite bind_run. unfold read_schedule at 1. cbn [heap].
  destruct (h1 !! l) as [s|] eqn:Hs; cbn beta iota; [|done].
  rewrite bind_run. destruct (in_dict "publisher" (sched_metadata s)) eqn:Hin.
  - by run.
  - erewrite set_metadata_spec by exact Hs. by run.
Qed.

(** C5. A callback entry refuses with the binding error, without calling
    the callback, when a required parameter is left without a value, when
    a keyword has no place in the signature, or when there are more
    positional arguments than places.  The arguments of an ordinary
    signature bind when every required parameter is supplied, no position
    is surplus and every keyword names a parameter that no position fills.
    Whenever the arguments bind, every parameter of the signature has a
    value after the defaults are applied, and each call of [get_schedule]
    calls the callback exactly once, with exactly these values; a schedule
    that the callback returns is tagged [QISKIT] if it has no tag and left
    as it is otherwise. *)
Theorem C5_callback_binding_and_invocation f args kwargs w :
  let self := {| CallableDef._definition := Some f;
                 CallableDef._signature := Some (callable_signature f) |} in
  let sig := callable_signature f in
  let refused :=
    CallableDef_get_schedule args kwargs self w = (Raises BindingError_function, self, w) in
  (∀ i p, parameters sig !! i = Some p → required p = true →
          supplied args kwargs i p = false → refused)
  ∧ (∀ k, is_Some (kwargs !! k) → accepts_keyword sig k = false → refused)
  ∧ (accepts_positions sig (length args) = false → refused)
  ∧ (ordinary sig →
     (length args ≤ length (parameters sig))%nat →
     (∀ k, is_Some (kwargs !! k) →
           k ∈ param_name <$> drop (length args) (parameters sig)) →
     (∀ i p, parameters sig !! i = Some p → required p = true →
             supplied args kwargs i p = true) →
     ∃ to_bind, Signature_bind sig args kwargs = Returns to_bind)
  ∧ match Signature_bind sig args kwargs with
    | Raises _ => refused
    | Returns to_bind =>
        let arguments := apply_defaults sig to_bind in
        (∀ p, p ∈ parameters sig → is_Some (arguments !! param_name p))
        ∧ ∃ r w',
            CallableDef_get_schedule args kwargs self w = (r, self, w')
            ∧ trace w' = trace w ++ [EvInvoke (callable_id f) arguments]
            ∧ invocations w' = S (invocations w)
            ∧ match callable_call f arguments (heap w) with
              | (Raises e, h1) => r = Raises e ∧ heap w' = h1
              | (Returns l, h1) =>
                  match h1 !! l with
                  | None => r = Raises AttributeError ∧ heap w' = h1
                  | Some s =>
                      r = Returns l
                      ∧ heap w' = if in_dict "publisher" (sched_metadata s) then h1
                                  else <[l := tagged QISKIT s]> h1
                  end
              end
    end.
Proof.
  intros self sig refused. unfold refused.
  rewrite (CallableDef_get_schedule_spec f sig args kwargs self w) by done.
  destruct (Signature_bind sig args kwargs) as [to_bind|e] eqn:Hb.
  2:{ split_and!; try done. intros Ho Hlen Hkw Hreq.
      destruct (Signature_bind_ordinary sig args kwargs Ho Hlen Hkw Hreq) as [? ?].
      congruence. }
  cbv zeta. split_and!.
  - intros i p Hi Hreq Hno.
    destruct (bind_supplies_required _ _ _ _ _ _ Hb Hi Hreq) as [Hs _]. congruence.
  - intros k Hk Hno. rewrite (bind_accepts_keywords _ _ _ _ _ Hb Hk) in Hno. done.
  - intros Hno. rewrite (bind_accepts_positions _ _ _ _ Hb) in Hno. done.
  - eauto.
  - intros p Hp. by eapply apply_defaults_resolved.
  - destruct (callable_call f (apply_defaults sig to_bind) (heap w)) as [[l|e] h1].
    + destruct (h1 !! l) as [s|].
      * eexists _, _. split; [reflexivity|]. cbn [trace heap].
        split_and!; [done|apply invocations_emit|done|done].
      * eexists _, _. split; [reflexivity|]. cbn [trace heap].
        split_and!; [done|apply invocations_emit|done|done].
    + eexists _, _. split; [reflexivity|]. cbn [trace heap].
      split_and!; [done|apply invocations_emit|done|done].
Qed.
End callback.

Section cache.
Context `{!PyEnv}.

(** With a schedule stored, [get_schedule] answers from it. *)
Lemma get_schedule_answer self w l s args kwargs :
  _definition self = Some l →
  heap w !! l = Some s →
  ScheduleDef_get_schedule args kwargs self w = answer_from self l s args kwargs w.
Proof.
  intros Hd Hs. unfold ScheduleDef_get_schedule, answer_from.
  destruct (bool_decide (args = []) && negb (dict_nonempty kwargs)).
  { run. by rewrite Hd. }
  rewrite bind_run. unfold except_TypeError. rewrite bind_run.
  rewrite (virtual_get_signature_built _ _ _ Hd). cbn beta iota.
  destruct (_signature self) as [sig|]; [|by run].
  rewrite lift_run.
  destruct (Signature_bind_partial sig args kwargs) as [arguments|e] eqn:Hb; cbn beta iota.
  2:{ by rewrite (Signature_bind_raises _ _ _ _ _ Hb). }
  unfold definition_schedule. run. rewrite Hd.
  rewrite (read_schedule_run _ _ _ _ Hs). run. rewrite Hd.
  unfold assign_parameters. run. rewrite (read_schedule_run _ _ _ _ Hs). by run.
Qed.

(** An answer leaves the entry alone and at most adds one schedule. *)
Lemma answer_from_frame self l s args kwargs w :
  ∃ r w', answer_from self l s args kwargs w = (r, self, w')
          ∧ trace w' = trace w
          ∧ ∀ l0 s0, heap w !! l0 = Some s0 → heap w' !! l0 = Some s0.
Proof.
  unfold answer_from. destruct (_ && _); [by eexists _, _|].
  destruct (_signature self) as [sig|]; [|by eexists _, _].
  destruct (Signature_bind_partial sig args kwargs) as [arguments|e]; [|by eexists _, _].
  eexists _, _. split_and!; [done|done|].
  intros l0 s0 H0. cbn [with_heap heap]. rewrite lookup_insert_ne; [done|].
  intros Heq. pose proof (fresh_loc_unused (heap w)) as Hf. rewrite Heq in Hf. congruence.
Qed.

(** C1. A deferred entry that is still unbuilt and is given its source
    shows the placeholder without building.  The first call for its
    signature or for a schedule runs the build step exactly once: a new
    schedule built from the source is stored in the entry, and the call
    answers from it (the signature derived from it, the stored schedule
    itself, or that schedule with the given values bound), unless the
    build step raises, whose error is then the answer.  Whatever calls
    follow, none of them builds again, all of them find the very schedule
    the first one stored, and each further call answers from this cache:
    [get_signature] the stored signature, [get_schedule] the stored
    schedule or a binding of it, with nothing rebuilt. *)
Theorem C1_build_exactly_once self0 w0 q source c cs :
  subclass self0 = Some q →
  _definition self0 = None →
  ∃ self1 q1 self2 w2 l r_build,
    PulseQobjDef_define source self0 w0 = (Returns (), self1, w0)
    ∧ subclass self1 = Some q1
    ∧ _source q1 = Some source
    ∧ PulseQobjDef_str self1 w0 = (Returns placeholder, self1, w0)
    ∧ heap w0 !! l = None
    ∧ PulseQobjDef__build_schedule self1 w0
      = (r_build, self2,
         {| heap := <[l := built_schedule q1 source]> (heap w0);
            trace := trace w0 ++ [EvBuild] |})
    ∧ match c with
      | GetSignature =>
          PulseQobjDef_get_signature self1 w0
          = (match r_build with
             | Returns _ => Returns (_signature self2)
             | Raises e => Raises e
             end, self2,
             {| heap := <[l := built_schedule q1 source]> (heap w0);
                trace := trace w0 ++ [EvBuild] |})
      | GetSchedule args kwargs =>
          PulseQobjDef_get_schedule args kwargs self1 w0
          = match r_build with
            | Returns _ =>
                answer_from self2 l (built_schedule q1 source) args kwargs
                  {| heap := <[l := built_schedule q1 source]> (heap w0);
                     trace := trace w0 ++ [EvBuild] |}
            | Raises e =>
                (Raises e, self2,
                 {| heap := <[l := built_schedule q1 source]> (heap w0);
                    trace := trace w0 ++ [EvBuild] |})
            end
      end
    ∧ perform c (self1, w0) = (self2, w2)
    ∧ builds w2 = S (builds w0)
    ∧ _definition self2 = Some l
    ∧ heap w2 !! l = Some (built_schedule q1 source)
    ∧ (truthy (_user_arguments self0) = false →
       (∀ p, p ∈ Schedule_parameters (built_schedule q1 source) →
             valid_parameter_name (pname p) = true) →
       r_build = Returns ()
       ∧ _signature self2
         = Some {| parameters :=
                     plain_param <$> sorted (elements (all_argnames_of
                                                         (built_schedule q1 source))) |})
    ∧ ∃ w3, perform_all cs (self2, w2) = (self2, w3)
            ∧ builds w3 = builds w2
            ∧ heap w3 !! l = heap w2 !! l
            ∧ PulseQobjDef_get_signature self2 w3 = (Returns (_signature self2), self2, w3)
            ∧ ∀ args kwargs,
                PulseQobjDef_get_schedule args kwargs self2 w3
                = answer_from self2 l (built_schedule q1 source) args kwargs w3.
Proof.
  intros Hq Hd.
  set (self1 := set_source (Some source) self0).
  set (q1 := {| _converter := _converter q; _name := _name q; _source := Some source |}).
  assert (Hq1 : subclass self1 = Some q1).
  { unfold self1, set_source. cbn. by rewrite Hq. }
  assert (Hd1 : _definition self1 = None) by done.
  destruct (build_schedule_outcome self1 w0 q1 source Hq1 eq_refl) as (rb & sig' & Hb).
  set (l := fresh (dom (heap w0))) in *.
  set (s := built_schedule q1 source) in *.
  set (self2 := set_signature sig' (set_definition (Some l) self1)) in *.
  set (wb := {| heap := <[l := s]> (heap w0); trace := trace w0 ++ [EvBuild] |}) in *.
  assert (Hd2 : _definition self2 = Some l) by done.
  assert (Hsb : heap wb !! l = Some s) by apply lookup_insert_eq.
  assert (Hfirst :
    match c with
    | GetSignature =>
        PulseQobjDef_get_signature self1 w0
        = (match rb with
           | Returns _ => Returns (_signature self2)
           | Raises e => Raises e
           end, self2, wb)
    | GetSchedule args kwargs =>
        PulseQobjDef_get_schedule args kwargs self1 w0
        = match rb with
          | Returns _ => answer_from self2 l s args kwargs wb
          | Raises e => (Raises e, self2, wb)
          end
    end).
  { destruct c as [|args kwargs].
    - unfold PulseQobjDef_get_signature, build_if_unbuilt. run. rewrite Hd1, Hb.
      destruct rb as [[]|e]; cbn beta iota; [|done].
      unfold ScheduleDef_get_signature. by run.
    - unfold PulseQobjDef_get_schedule, build_if_unbuilt. run. rewrite Hd1, Hb.
      destruct rb as [[]|e]; cbn beta iota; [|done].
      by apply get_schedule_answer. }
  assert (Hperf : ∃ w2, perform c (self1, w0) = (self2, w2)
                        ∧ builds w2 = S (builds w0)
                        ∧ heap w2 !! l = Some s).
  { destruct c as [|args kwargs]; cbn [perform fst snd]; rewrite Hfirst.
    - exists wb. split_and!; [done|apply builds_emit|done].
    - destruct rb as [[]|e].
      + destruct (answer_from_frame self2 l s args kwargs wb) as (r & w' & -> & Ht & Hh).
        exists w'. split_and!; [done| |by apply Hh].
        unfold builds. rewrite Ht. apply (builds_emit w0).
      + exists wb. split_and!; [done|apply builds_emit|done]. }
  destruct Hperf as (w2 & Hperf & Hb2 & Hs2).
  destruct (perform_all_built cs self2 w2 l s Hd2 Hs2) as (w3 & Hp3 & Hb3 & Hs3).
  exists self1, q1, self2, w2, l, rb.
  split_and!; [|exact Hq1|reflexivity| |apply fresh_loc_unused|exact Hb|exact Hfirst
              |exact Hperf|exact Hb2|exact Hd2|exact Hs2| |].
  - unfold PulseQobjDef_define. by run.
  - unfold PulseQobjDef_str. run. rewrite Hd1. by run.
  - intros Hu Hvalid.
    rewrite (build_schedule_spec _ _ _ _ Hq1 eq_refl) in Hb.
    rewrite (parse_argument_sorted _ _ l s) in Hb; [|done|apply lookup_insert_eq|done|done].
    by injection Hb as <- <-.
  - exists w3. split_and!; [done|done|congruence| |].
    + by apply get_signature_built with l.
    + intros args kwargs. unfold PulseQobjDef_get_schedule, build_if_unbuilt. run.
      rewrite Hd2. run. by apply get_schedule_answer.
Qed.
End cache.

(** * Further properties of the entries *)

Section partial_binding.
Implicit Types (kwargs arguments : gmap string PyVal) (params : list SigParam).

(** The second loop, whatever the mode: every keyword that disappears was
    taken by a parameter, the collecting parameter comes from the list,
    nothing bound gets lost. *)
Lemma bind_keywords_consumes partial params :
  ∀ kwargs arguments kp kwargs' arguments' kp',
    bind_keywords partial params kwargs arguments kp = Returns (kwargs', arguments', kp') →
    (∀ k, is_Some (kwargs !! k) →
          is_Some (kwargs' !! k)
          ∨ ∃ p, p ∈ params ∧ param_name p = k ∧ takes_keyword p = true)
    ∧ (∀ p, kp' = Some p →
            kp = Some p ∨ (p ∈ params ∧ param_kind p = VAR_KEYWORD)).
Proof.
  induction params as [|p params IH]; intros kwargs arguments kp kwargs' arguments' kp';
    cbn [bind_keywords].
  - intros [= <- <- <-]. split; auto.
  - assert (Hstep : ∀ kw acc kp0,
      bind_keywords partial params kw acc kp0 = Returns (kwargs', arguments', kp') →
      (∀ k, is_Some (kw !! k) →
            is_Some (kwargs' !! k)
            ∨ ∃ p0, p0 ∈ p :: params ∧ param_name p0 = k ∧ takes_keyword p0 = true)
      ∧ (∀ p0, kp' = Some p0 →
               kp0 = Some p0 ∨ (p0 ∈ p :: params ∧ param_kind p0 = VAR_KEYWORD))).
    { intros kw acc kp0 Hr. apply IH in Hr as [Hkw Hkp]. split.
      - intros k Hk. destruct (Hkw k Hk) as [?|(p' & ? & ? & ?)]; [by left|right].
        exists p'. split_and!; auto. by right.
      - intros p' Hp'. destruct (Hkp p' Hp') as [?|[? ?]]; [by left|right].
        split; [by right|done]. }
    destruct (bool_decide (param_kind p = VAR_KEYWORD)) eqn:Hvk.
    { apply bool_decide_eq_true in Hvk. intros Hr.
      destruct (Hstep _ _ _ Hr) as [Hkw Hkp]. split; [done|].
      intros p' Hp'. destruct (Hkp p' Hp') as [[= <-]|?]; [|by right].
      right. split; [by left|done]. }
    apply bool_decide_eq_false in Hvk.
    destruct (bool_decide (param_kind p = VAR_POSITIONAL)) eqn:Hvp.
    { intros Hr. by apply Hstep in Hr. }
    apply bool_decide_eq_false in Hvp.
    destruct (kwargs !! param_name p) as [v|] eqn:Hv.
    + destruct (bool_decide (param_kind p = POSITIONAL_ONLY)) eqn:Hpo; [done|].
      apply bool_decide_eq_false in Hpo. intros Hr.
      destruct (Hstep _ _ _ Hr) as [Hkw Hkp]. split; [|done].
      intros k [x Hk]. destruct (decide (param_name p = k)) as [<-|Hne].
      * right. exists p. split_and!; [by left|done|].
        unfold takes_keyword. apply bool_decide_eq_true.
        destruct (param_kind p); intuition congruence.
      * apply Hkw. rewrite lookup_delete_ne by done. by eexists.
    + destruct (negb partial && negb (has_default p)); [done|].
      intros Hr. by apply Hstep in Hr.
Qed.

(** A partial binding that succeeds has found a place for every keyword
    and for every position. *)
Lemma bind_partial_accepts sig args kwargs arguments :
  Signature_bind_partial sig args kwargs = Returns arguments →
  (∀ k, is_Some (kwargs !! k) → accepts_keyword sig k = true)
  ∧ accepts_positions sig (length args) = true.
Proof.
  unfold Signature_bind_partial, Signature__bind.
  destruct (bind_positional _ _ _ _ _) as [[arguments1 rest]|e1] eqn:H1; [|done].
  destruct (bind_keywords _ _ _ _ _) as [[[kw arguments2] kp]|e2] eqn:H2; [|done].
  intros Hr.
  apply bind_positional_returns in H1 as (pre & mid & Hsplit & Hpre & _ & Hmid & _).
  apply bind_keywords_consumes in H2 as [Hkw Hvk].
  assert (Hsub : ∀ p, p ∈ rest → p ∈ parameters sig).
  { intros p Hp. rewrite Hsplit, !elem_of_app. auto. }
  split.
  - intros k Hk. unfold accepts_keyword. apply orb_true_iff.
    destruct (Hkw k Hk) as [[x Hx]|(p & Hp & Hn & Htk)].
    + right. assert (Hne : dict_nonempty kw = true).
      { unfold dict_nonempty. apply negb_true_iff, bool_decide_eq_false.
        intros Hsz%map_size_empty_iff. by rewrite Hsz, lookup_empty in Hx. }
      rewrite Hne in Hr. destruct kp as [p|]; [|done].
      destruct (Hvk p eq_refl) as [?|[Hin Hkind]]; [done|].
      apply existsb_exists. exists p. rewrite <-list_elem_of_In.
      split; [by apply Hsub|by apply bool_decide_eq_true].
    + left. apply existsb_exists. exists p. rewrite <-list_elem_of_In.
      split; [by apply Hsub|]. rewrite Htk, bool_decide_true by done. done.
  - unfold accepts_positions. apply orb_true_iff.
    destruct Hmid as [[-> Hlen]|(vp & -> & Hvp)].
    + left. apply bool_decide_eq_true. rewrite Hsplit, filter_app, length_app.
      rewrite (filter_all _ pre) by done. lia.
    + right. apply existsb_exists. exists vp. rewrite <-list_elem_of_In.
      split; [|by apply bool_decide_eq_true].
      rewrite Hsplit, !elem_of_app. right; left. by apply list_elem_of_singleton.
Qed.
End partial_binding.

Section plain.
Implicit Types (kwargs arguments : gmap string PyVal) (names : list string).

Lemma bind_positional_plain args : ∀ names kwargs arguments,
  (length args ≤ length names)%nat →
  Forall (λ n, kwargs !! n = None) (take (length args) names) →
  bind_positional true args (plain_param <$> names) kwargs arguments
  = Returns (foldl (λ acc nv, <[nv.1 := nv.2]> acc) arguments (zip names args),
             plain_param <$> drop (length args) names).
Proof.
  induction args as [|a args IH]; intros [|n names] kwargs arguments Hlen Hfree;
    cbn [length] in Hlen; try lia; cbn [bind_positional fmap list_fmap].
  - done.
  - cbn [plain_param param_kind param_name has_default param_default].
    rewrite bool_decide_false by done.
    destruct (in_dict n kwargs); [by rewrite bool_decide_false by done|].
    rewrite bool_decide_false by done. done.
  - cbn [length take] in Hfree. apply Forall_cons in Hfree as [Hn Hfree].
    cbn [plain_param param_kind param_name].
    rewrite bool_decide_false by (intros [?|?]; done).
    rewrite bool_decide_false by done.
    unfold in_dict. rewrite Hn, (bool_decide_false (is_Some None)) by by intros [? ?].
    cbn [andb]. rewrite IH by (done || lia). done.
Qed.

Lemma bind_positional_plain_inv args : ∀ names kwargs arguments arguments' rest,
  bind_positional true args (plain_param <$> names) kwargs arguments
  = Returns (arguments', rest) →
  (length args ≤ length names)%nat
  ∧ Forall (λ n, kwargs !! n = None) (take (length args) names).
Proof.
  induction args as [|a args IH]; intros names kwargs arguments arguments' rest.
  { intros _. cbn [length take]. split; [lia|]. by rewrite take_0. }
  destruct names as [|n names]; cbn [bind_positional fmap list_fmap length take]; [done|].
  cbn [plain_param param_kind param_name].
  rewrite bool_decide_false by (intros [?|?]; done).
  rewrite bool_decide_false by done.
  unfold in_dict. destruct (kwargs !! n) as [v|] eqn:Hv.
  - rewrite bool_decide_true by by eexists. by rewrite bool_decide_true by done.
  - rewrite (bool_decide_false (is_Some None)) by by intros [? ?].
    cbn [andb]. intros Hr. apply IH in Hr as [Hlen Hfree].
    split; [lia|by constructor].
Qed.

Lemma bind_keywords_plain names : ∀ kwargs arguments kp,
  ∃ kwargs' arguments',
    bind_keywords true (plain_param <$> names) kwargs arguments kp
    = Returns (kwargs', arguments', kp)
    ∧ (∀ k, kwargs' !! k = if decide (k ∈ names) then None else kwargs !! k)
    ∧ (∀ k, arguments' !! k
            = if decide (k ∈ names)
              then match kwargs !! k with
                   | Some v => Some v
                   | None => arguments !! k
                   end
              else arguments !! k).
Proof.
  induction names as [|n names IH]; intros kwargs arguments kp;
    cbn [bind_keywords fmap list_fmap].
  - eexists _, _. split; [done|]. split; intros k; by rewrite decide_False by apply not_elem_of_nil.
  - cbn [plain_param param_kind param_name].
    rewrite !bool_decide_false by done.
    destruct (kwargs !! n) as [v|] eqn:Hv.
    + destruct (IH (delete n kwargs) (<[n := v]> arguments) kp)
        as (kw' & acc' & -> & Hkw & Hacc).
      eexists _, _. split; [done|]. split; intros k.
      * rewrite Hkw. destruct (decide (k = n)) as [->|Hne].
        -- rewrite (decide_True (P := n ∈ n :: names)) by by left.
           case_decide; [done|]. apply lookup_delete_eq.
        -- rewrite lookup_delete_ne by done.
           destruct (decide (k ∈ names)).
           ++ by rewrite decide_True by by right.
           ++ by rewrite decide_False by (intros [?|?]%elem_of_cons; done).
      * rewrite Hacc. destruct (decide (k = n)) as [->|Hne].
        -- rewrite (decide_True (P := n ∈ n :: names)) by by left.
           rewrite lookup_delete_eq, lookup_insert_eq, Hv. by case_decide.
        -- rewrite lookup_delete_ne, lookup_insert_ne by done.
           destruct (decide (k ∈ names)).
           ++ by rewrite decide_True by by right.
           ++ by rewrite decide_False by (intros [?|?]%elem_of_cons; done).
    + cbn [negb andb].
      destruct (IH kwargs arguments kp) as (kw' & acc' & -> & Hkw & Hacc).
      eexists _, _. split; [done|]. split; intros k.
      * rewrite Hkw. destruct (decide (k = n)) as [->|Hne].
        -- rewrite (decide_True (P := n ∈ n :: names)) by by left.
           by case_decide.
        -- destruct (decide (k ∈ names)).
           ++ by rewrite decide_True by by right.
           ++ by rewrite decide_False by (intros [?|?]%elem_of_cons; done).
      * rewrite Hacc. destruct (decide (k = n)) as [->|Hne].
        -- rewrite (decide_True (P := n ∈ n :: names)) by by left.
           rewrite Hv. by case_decide.
        -- destruct (decide (k ∈ names)).
           ++ by rewrite decide_True by by right.
           ++ by rewrite decide_False by (intros [?|?]%elem_of_cons; done).
Qed.

Lemma foldl_insert_lookup (l : list (string * PyVal)) : ∀ (acc : gmap string PyVal) k,
  k ∉ l.*1 → foldl (λ acc nv, <[nv.1 := nv.2]> acc) acc l !! k = acc !! k.
Proof.
  induction l as [|[n v] l IH]; intros acc k Hk; cbn [foldl]; [done|].
  cbn [fmap list_fmap fst] in Hk. apply not_elem_of_cons in Hk as [Hne Hk].
  rewrite IH by done. by rewrite lookup_insert_ne.
Qed.

Lemma foldl_insert_lookup_at names : ∀ args (acc : gmap string PyVal) i n v,
  NoDup names →
  names !! i = Some n →
  args !! i = Some v →
  foldl (λ acc nv, <[nv.1 := nv.2]> acc) acc (zip names args) !! n = Some v.
Proof.
  induction names as [|n0 names IH]; intros [|a args] acc i n v Hnd Hn Hv; try done.
  apply NoDup_cons in Hnd as [Hnin Hnd]. cbn [zip zip_with foldl fst snd].
  destruct i as [|i]; cbn in Hn, Hv.
  - injection Hn as ->. injection Hv as ->.
    rewrite foldl_insert_lookup; [apply lookup_insert_eq|].
    intros Hin. apply Hnin. apply list_elem_of_fmap in Hin as ([n' v'] & -> & Hin).
    apply elem_of_zip_l in Hin. done.
  - by eapply IH.
Qed.
End plain.

Section plain_partial.
Implicit Types (kwargs arguments : gmap string PyVal) (names : list string).

Lemma zip_fst_take names : ∀ (args : list PyVal),
  (zip names args).*1 = take (length args) names.
Proof.
  induction names as [|n names IH]; intros [|a args]; cbn; try done.
  by rewrite <-IH.
Qed.

Lemma fits_free names args kwargs :
  NoDup names → fits names args kwargs →
  Forall (λ n, kwargs !! n = None) (take (length args) names).
Proof.
  intros Hnd [_ Hkw]. apply Forall_forall. intros n Hn.
  destruct (kwargs !! n) as [v|] eqn:Hv; [|done]. exfalso.
  rewrite <-(take_drop (length args) names) in Hnd.
  apply NoDup_app in Hnd as (_ & Hdisj & _). apply (Hdisj n Hn), Hkw. by eexists.
Qed.

Lemma bind_partial_plain_returns names args kwargs :
  NoDup names → fits names args kwargs →
  ∃ arguments,
    Signature_bind_partial (plain_signature names) args kwargs = Returns arguments
    ∧ (∀ i n v, names !! i = Some n → args !! i = Some v → arguments !! n = Some v)
    ∧ (∀ k, k ∉ take (length args) names → arguments !! k = kwargs !! k).
Proof.
  intros Hnd Hfit. pose proof (fits_free _ _ _ Hnd Hfit) as Hfree.
  destruct Hfit as [Hlen Hkw].
  unfold Signature_bind_partial, Signature__bind, plain_signature. cbn [parameters].
  rewrite bind_positional_plain by done.
  set (acc1 := foldl (λ acc nv, <[nv.1 := nv.2]> acc) (∅ : gmap string PyVal)
                     (zip names args)).
  destruct (bind_keywords_plain (drop (length args) names) kwargs acc1 None)
    as (kw' & acc' & -> & Hkw' & Hacc').
  assert (Hempty : dict_nonempty kw' = false).
  { unfold dict_nonempty. apply negb_false_iff, bool_decide_eq_true.
    apply map_size_empty_iff, map_empty. intros k. rewrite Hkw'.
    case_decide as Hin; [done|]. destruct (kwargs !! k) eqn:Hk; [|done].
    destruct Hin. apply Hkw. by eexists. }
  rewrite Hempty. exists acc'. split; [done|]. split.
  - intros i n v Hn Hv. rewrite Hacc'.
    assert (Hin : n ∈ take (length args) names).
    { apply list_elem_of_lookup. exists i. rewrite lookup_take_lt; [done|].
      by apply lookup_lt_Some in Hv. }
    rewrite decide_False.
    + by apply (foldl_insert_lookup_at names args ∅ i).
    + rewrite <-(take_drop (length args) names) in Hnd.
      apply NoDup_app in Hnd as (_ & Hdisj & _). by apply Hdisj.
  - intros k Hk. rewrite Hacc'.
    assert (Hacc1 : acc1 !! k = None).
    { unfold acc1. rewrite foldl_insert_lookup; [done|]. by rewrite zip_fst_take. }
    rewrite Hacc1. case_decide as Hin.
    + by destruct (kwargs !! k).
    + destruct (kwargs !! k) eqn:Hv; [|done]. destruct Hin. apply Hkw. by eexists.
Qed.

Lemma bind_partial_plain_fits names args kwargs arguments :
  Signature_bind_partial (plain_signature names) args kwargs = Returns arguments →
  fits names args kwargs.
Proof.
  unfold Signature_bind_partial, Signature__bind, plain_signature. cbn [parameters].
  destruct (bind_positional _ _ _ _ _) as [[acc1 rest]|e1] eqn:H1; [|done].
  pose proof (bind_positional_plain_inv _ _ _ _ _ _ H1) as [Hlen Hfree].
  rewrite bind_positional_plain in H1 by done. injection H1 as <- <-.
  destruct (bind_keywords_plain (drop (length args) names) kwargs
              (foldl (λ acc nv, <[nv.1 := nv.2]> acc) ∅ (zip names args)) None)
    as (kw' & acc' & -> & Hkw' & _).
  intros Hr. split; [done|]. intros k [v Hk].
  destruct (decide (k ∈ drop (length args) names)) as [|Hnin]; [done|]. exfalso.
  assert (Hne : dict_nonempty kw' = true).
  { unfold dict_nonempty. apply negb_true_iff, bool_decide_eq_false.
    intros Hsz%map_size_empty_iff.
    pose proof (Hkw' k) as Hk'. rewrite decide_False, Hk, Hsz, lookup_empty in Hk' by done.
    done. }
  by rewrite Hne in Hr.
Qed.
End plain_partial.

Section bound_calls.
Context `{!PyEnv}.

(** [get_schedule] with arguments on an entry that holds a schedule and a
    signature: it stands and falls with the partial binding. *)
Lemma get_schedule_with_arguments self w l s sig args kwargs :
  _definition self = Some l →
  _signature self = Some sig →
  heap w !! l = Some s →
  args ≠ [] ∨ kwargs ≠ ∅ →
  ScheduleDef_get_schedule args kwargs self w
  = match Signature_bind_partial sig args kwargs with
    | Raises _ => (Raises BindingError_schedule, self, w)
    | Returns arguments =>
        (Returns (Some (fresh (dom (heap w)))), self,
         with_heap (<[fresh (dom (heap w))
                      := Schedule_assign
                           (make_value_dict (Schedule_parameters s) arguments) s]>
                      (heap w)) w)
    end.
Proof.
  intros Hd Hsig Hs Hargs. unfold ScheduleDef_get_schedule.
  replace (bool_decide (args = []) && negb (dict_nonempty kwargs)) with false.
  2:{ symmetry. apply andb_false_iff. destruct Hargs as [Ha|Hk].
      - left. by apply bool_decide_eq_false.
      - right. unfold dict_nonempty. rewrite negb_involutive.
        apply bool_decide_eq_false. by rewrite map_size_empty_iff. }
  rewrite bind_run. unfold except_TypeError. rewrite bind_run.
  rewrite (virtual_get_signature_built _ _ _ Hd). cbn beta iota.
  rewrite Hsig, lift_run.
  destruct (Signature_bind_partial sig args kwargs) as [arguments|e] eqn:Hb;
    cbn beta iota.
  2:{ by rewrite (Signature_bind_raises _ _ _ _ _ Hb). }
  unfold definition_schedule. run. rewrite Hd.
  rewrite (read_schedule_run _ _ _ _ Hs). run. rewrite Hd.
  unfold assign_parameters. run. rewrite (read_schedule_run _ _ _ _ Hs). by run.
Qed.
End bound_calls.

Section lifecycle.
Context `{!PyEnv}.

(** [_parse_argument] stores a signature when it returns and stores
    nothing when it raises. *)
Lemma parse_argument_outcome self w :
  ∃ r self', ScheduleDef__parse_argument self w = (r, self', w)
    ∧ match r with
      | Raises _ => self' = self
      | Returns _ => ∃ sig, self' = set_signature (Some sig) self
      end.
Proof.
  unfold ScheduleDef__parse_argument, definition_schedule. unfold_M.
  destruct (_definition self) as [l|] eqn:Hd; [|by eexists (Raises _), _].
  destruct (heap w !! l) as [s|] eqn:Hs; [|by eexists (Raises _), _].
  destruct (truthy (_user_arguments self)).
  - case_bool_decide; [by eexists (Raises _), _|].
    destruct (make_params _) as [ps|e]; [|by eexists (Raises _), _].
    destruct (inspect_Signature ps) as [sg|e]; [|by eexists (Raises _), _].
    eexists (Returns _), _. split; [done|]. by eexists.
  - destruct (make_params _) as [ps|e]; [|by eexists (Raises _), _].
    destruct (inspect_Signature ps) as [sg|e]; [|by eexists (Raises _), _].
    eexists (Returns _), _. split; [done|]. by eexists.
Qed.

(** [define] stores the reference and tags the schedule before it derives
    the signature. *)
Lemma define_outcome self w l s :
  heap w !! l = Some s →
  ∃ r self',
    ScheduleDef_define l self w
    = (r, self',
       with_heap (<[l := if in_dict "publisher" (sched_metadata s) then s
                         else tagged QISKIT s]> (heap w)) w)
    ∧ match r with
      | Raises _ => self' = set_definition (Some l) self
      | Returns _ => ∃ sig, self' = set_signature (Some sig) (set_definition (Some l) self)
      end.
Proof.
  intros Hs. unfold ScheduleDef_define. run.
  rewrite (read_schedule_run _ _ _ _ Hs). run.
  destruct (in_dict "publisher" (sched_metadata s)).
  - run. rewrite insert_id, with_heap_id by done.
    destruct (parse_argument_outcome (set_definition (Some l) self) w)
      as (r & self' & -> & Hr). by exists r, self'.
  - rewrite (set_metadata_spec _ _ _ _ _ _ Hs). cbn beta iota.
    match goal with |- context [ScheduleDef__parse_argument ?a ?b] =>
      destruct (parse_argument_outcome a b) as (r & self' & -> & Hr) end.
    by exists r, self'.
Qed.

Lemma omap_as_str_strings (l : list PyVal) :
  forallb (λ arg, bool_decide (is_Some (as_str arg))) l = true →
  VStr <$> omap as_str l = l.
Proof.
  induction l as [|v l IH]; [done|]. cbn [forallb].
  intros [Hv Hl]%andb_true_iff. apply bool_decide_eq_true in Hv as [n Hn].
  destruct v; try done. cbn. by rewrite IH.
Qed.

Lemma forallb_false_elem {A} (f : A → bool) (l : list A) :
  forallb f l = false → ∃ x, x ∈ l ∧ f x = false.
Proof.
  induction l as [|x l IH]; [done|]. cbn [forallb].
  intros [Hx|Hl]%andb_false_iff.
  - exists x. split; [left|done].
  - destruct (IH Hl) as (y & Hy & Hf). exists y. split; [by right|done].
Qed.

(** X1. The constructor raises the error for invalid arguments exactly
    when the given sequence holds something that is no string; otherwise
    the new entry has neither definition nor signature and stores the
    given names, all of them and in their order ([None] and the empty
    sequence as they are). *)
Theorem init_stores_the_given_names arguments :
  match ScheduleDef_init arguments with
  | Raises e =>
      e = InvalidArgument ∧ ∃ l v, arguments = Some l ∧ v ∈ l ∧ as_str v = None
  | Returns self =>
      self = new_entry (_user_arguments self)
      ∧ option_map (fmap VStr) (_user_arguments self) = arguments
      ∧ ∀ l v, arguments = Some l → v ∈ l → is_Some (as_str v)
  end.
Proof.
  unfold ScheduleDef_init.
  destruct arguments as [l|].
  2:{ cbn [truthy andb]. split_and!; [done|done|]. intros ? ? [=]. }
  change (default [] (Some l)) with l.
  destruct (forallb (λ arg, bool_decide (is_Some (as_str arg))) l) eqn:Hall.
  - cbn [negb]. rewrite andb_false_r. split_and!; [done| |].
    + cbn [_user_arguments option_map]. by rewrite omap_as_str_strings.
    + intros l' v [= <-] Hv. rewrite forallb_forall in Hall.
      eapply bool_decide_eq_true_1, Hall. by apply list_elem_of_In.
  - destruct l as [|v0 l0]; [done|]. cbn [truthy negb andb].
    split; [done|]. apply forallb_false_elem in Hall as (v & Hv & Hf).
    exists (v0 :: l0), v. split_and!; [done|done|].
    apply bool_decide_eq_false in Hf. destruct (as_str v); [|done].
    destruct Hf. by eexists.
Qed.

Lemma get_schedule_nonempty (args : list PyVal) (kwargs : gmap string PyVal) :
  args ≠ [] ∨ kwargs ≠ ∅ →
  bool_decide (args = []) && negb (dict_nonempty kwargs) = false.
Proof.
  intros Hargs. apply andb_false_iff. destruct Hargs as [Ha|Hk].
  - left. by apply bool_decide_eq_false.
  - right. unfold dict_nonempty. rewrite negb_involutive.
    apply bool_decide_eq_false. by rewrite map_size_empty_iff.
Qed.

Lemma init_fields arguments self :
  ScheduleDef_init arguments = Returns self →
  _definition self = None ∧ _signature self = None ∧ subclass self = None.
Proof.
  unfold ScheduleDef_init. destruct (_ && _); [done|]. by intros [= <-].
Qed.

(** X2. An entry that was constructed and never defined: [get_signature]
    and [get_schedule] without arguments return [None]; [get_schedule] with
    an argument and [__str__] raise [AttributeError], which is no
    [PulseError]; none of them changes the entry or the store. *)
Theorem undefined_entry_has_nothing_to_bind arguments self args kwargs w :
  ScheduleDef_init arguments = Returns self →
  ScheduleDef_get_signature self w = (Returns None, self, w)
  ∧ ScheduleDef_get_schedule [] ∅ self w = (Returns None, self, w)
  ∧ (args ≠ [] ∨ kwargs ≠ ∅ →
     ScheduleDef_get_schedule args kwargs self w = (Raises AttributeError, self, w))
  ∧ ScheduleDef_str self w = (Raises AttributeError, self, w).
Proof.
  intros (Hd & Hsig & Hsub)%init_fields. split_and!.
  - unfold ScheduleDef_get_signature. run. by rewrite Hsig.
  - unfold ScheduleDef_get_schedule.
    replace (bool_decide (@nil PyVal = []) && negb (dict_nonempty ∅)) with true by done.
    run. by rewrite Hd.
  - intros Hargs. unfold ScheduleDef_get_schedule.
    rewrite (get_schedule_nonempty _ _ Hargs).
    rewrite bind_run. unfold except_TypeError. rewrite bind_run.
    unfold get_signature. run. rewrite Hsub. unfold ScheduleDef_get_signature. run.
    rewrite Hsig. by run.
  - unfold ScheduleDef_str, definition_schedule. run. rewrite Hd. by run.
Qed.

(** X3. A callback entry that was constructed and never defined has no
    signature; [get_schedule] with any arguments and [__str__] raise
    [AttributeError] and call nothing; it compares equal to every entry
    without a definition, of either class. *)
Theorem undefined_callback_entry args kwargs w :
  CallableDef_get_signature CallableDef_init w = (Returns None, CallableDef_init, w)
  ∧ CallableDef_get_schedule args kwargs CallableDef_init w
    = (Raises AttributeError, CallableDef_init, w)
  ∧ CallableDef_str CallableDef_init w = (Raises AttributeError, CallableDef_init, w)
  ∧ ∀ other, getattr_definition other = Returns RefNone →
      CallableDef_eq other CallableDef_init w = (Returns true, CallableDef_init, w).
Proof.
  split_and!; try done.
  intros other Ho. unfold CallableDef_eq. run. rewrite Ho. by run.
Qed.

(** X4. [define] is not atomic.  When it raises, the entry already refers
    to the new schedule, which already carries a publisher tag (its own, or
    [QISKIT]), while the signature is the one from before the call:
    [get_schedule] without arguments hands out the new schedule and
    [get_signature] the old signature. *)
Theorem failed_define_keeps_the_new_schedule self w l s e self' w' :
  heap w !! l = Some s →
  ScheduleDef_define l self w = (Raises e, self', w') →
  self' = set_definition (Some l) self
  ∧ publisher_at (heap w') l
    = Some (default (VPublisher QISKIT) (publisher_at (heap w) l))
  ∧ (∀ l0, l0 ≠ l → heap w' !! l0 = heap w !! l0)
  ∧ ScheduleDef_get_schedule [] ∅ self' w' = (Returns (Some l), self', w')
  ∧ ScheduleDef_get_signature self' w' = (Returns (_signature self), self', w').
Proof.
  intros Hs Hdef. destruct (define_outcome self w l s Hs) as (r & self1 & Heq & Hr).
  rewrite Heq in Hdef. injection Hdef as -> -> <-. cbn beta iota in Hr. subst self'.
  split_and!.
  - done.
  - unfold publisher_at. cbn [with_heap heap]. rewrite lookup_insert_eq, Hs. cbn.
    unfold in_dict. case_bool_decide as Hin.
    + destruct Hin as [v Hv]. by rewrite Hv.
    + cbn. rewrite lookup_insert_eq.
      destruct (sched_metadata s !! "publisher") eqn:Hv; [|done].
      destruct Hin. by eexists.
  - intros l0 Hne. cbn [with_heap heap]. by rewrite lookup_insert_ne.
  - unfold ScheduleDef_get_schedule.
    replace (bool_decide (@nil PyVal = []) && negb (dict_nonempty ∅)) with true by done.
    by run.
  - unfold ScheduleDef_get_signature. by run.
Qed.

Lemma built_get_schedule self w l args kwargs :
  _definition self = Some l →
  PulseQobjDef_get_schedule args kwargs self w = ScheduleDef_get_schedule args kwargs self w.
Proof.
  intros Hd. unfold PulseQobjDef_get_schedule, build_if_unbuilt. run. rewrite Hd. by run.
Qed.

Lemma get_schedule_stored self w l :
  _definition self = Some l →
  ScheduleDef_get_schedule [] ∅ self w = (Returns (Some l), self, w).
Proof.
  intros Hd. unfold ScheduleDef_get_schedule.
  replace (bool_decide (@nil PyVal = []) && negb (dict_nonempty ∅)) with true by done.
  run. by rewrite Hd.
Qed.

(** X5. [PulseQobjDef.define] on an entry that is already built replaces
    the source and nothing else: it never builds, and afterwards
    [get_signature] and [get_schedule] still answer from the schedule that
    was built from the old source, while the comparison with another
    deferred entry looks at the new source. *)
Theorem redefine_keeps_the_built_schedule self w q l source :
  subclass self = Some q →
  _definition self = Some l →
  ∃ self',
    PulseQobjDef_define source self w = (Returns (), self', w)
    ∧ PulseQobjDef_get_signature self' w = (Returns (_signature self), self', w)
    ∧ PulseQobjDef_get_schedule [] ∅ self' w = (Returns (Some l), self', w)
    ∧ ∀ other q', subclass other = Some q' →
        PulseQobjDef_eq (ObjScheduleDef other) self' w
        = (Returns (bool_decide (Some source = _source q')), self', w).
Proof.
  intros Hq Hd. exists (set_source (Some source) self). split_and!.
  - unfold PulseQobjDef_define. by run.
  - by rewrite (get_signature_built _ _ l).
  - rewrite (built_get_schedule _ _ l) by done. by apply get_schedule_stored.
  - intros other q' Hq'. unfold PulseQobjDef_eq. cbn [isinstance_PulseQobjDef].
    rewrite Hq'. unfold subclass_fields. run. cbn [set_source subclass].
    rewrite Hq. cbn. by run.
Qed.

Lemma build_without_source self w q :
  subclass self = Some q →
  _source q = None →
  PulseQobjDef__build_schedule self w
  = (Raises TypeError, self,
     {| heap := <[fresh (dom (heap w)) := Schedule_new (_name q)]> (heap w);
        trace := trace w ++ [EvBuild] |}).
Proof.
  intros Hq Hsrc. unfold PulseQobjDef__build_schedule, subclass_fields.
  run. rewrite Hq. run. rewrite Hsrc. by run.
Qed.

Lemma fresh_keeps (h : gmap loc Schedule) l s s' :
  h !! l = Some s → <[fresh (dom h) := s']> h !! l = Some s.
Proof.
  intros Hs. rewrite lookup_insert_ne; [done|]. intros Heq.
  pose proof (fresh_loc_unused h) as Hf. rewrite Heq in Hf. congruence.
Qed.

(** X6. A deferred entry that was constructed and never given a source
    shows the placeholder; [get_signature] and [get_schedule] raise
    [TypeError] (no [PulseError]) from inside the build step, which is
    counted; the entry stays unbuilt, so each further call attempts the
    build again, and no object of the store is changed. *)
Theorem deferred_entry_without_source arguments converter name self args kwargs w :
  PulseQobjDef_init arguments converter name = Returns self →
  PulseQobjDef_str self w = (Returns placeholder, self, w)
  ∧ ∃ w', PulseQobjDef_get_signature self w = (Raises TypeError, self, w')
          ∧ PulseQobjDef_get_schedule args kwargs self w = (Raises TypeError, self, w')
          ∧ builds w' = S (builds w)
          ∧ (∀ l s, heap w !! l = Some s → heap w' !! l = Some s)
          ∧ ∃ w'', PulseQobjDef_get_signature self w' = (Raises TypeError, self, w'')
                   ∧ builds w'' = S (S (builds w)).
Proof.
  unfold PulseQobjDef_init.
  destruct (ScheduleDef_init arguments) as [base|e] eqn:Hinit; [|done].
  apply init_fields in Hinit as (Hd & Hsig & _). intros [= <-].
  set (self := {| _user_arguments := _user_arguments base;
                  _definition := _definition base; _signature := _signature base;
                  subclass := Some {| _converter := default QobjToInstructionConverter_default
                                                      converter;
                                      _name := name; _source := None |} |}).
  assert (Hb : ∀ w0, PulseQobjDef__build_schedule self w0
                     = (Raises TypeError, self,
                        {| heap := <[fresh (dom (heap w0)) := Schedule_new name]> (heap w0);
                           trace := trace w0 ++ [EvBuild] |})).
  { intros w0. by rewrite (build_without_source self w0 _ eq_refl eq_refl). }
  assert (Hg : ∀ w0, PulseQobjDef_get_signature self w0
                     = (Raises TypeError, self,
                        {| heap := <[fresh (dom (heap w0)) := Schedule_new name]> (heap w0);
                           trace := trace w0 ++ [EvBuild] |})).
  { intros w0. unfold PulseQobjDef_get_signature, build_if_unbuilt. run.
    change (_definition self) with (_definition base). rewrite Hd, Hb. done. }
  split.
  - unfold PulseQobjDef_str. run. change (_definition self) with (_definition base).
    rewrite Hd. by run.
  - eexists. split_and!.
    + apply Hg.
    + unfold PulseQobjDef_get_schedule, build_if_unbuilt. run.
      change (_definition self) with (_definition base). rewrite Hd, Hb. done.
    + apply builds_emit.
    + intros l s Hs. cbn [heap]. by apply fresh_keeps.
    + eexists. split; [apply Hg|].
      rewrite (builds_emit {| heap := _; trace := trace w ++ [EvBuild] |}).
      by rewrite builds_emit.
Qed.

(** X7. A deferred entry whose given argument names do not match the
    parameters of the schedule it builds: the first [get_signature] builds
    and raises the error for the mismatch, yet it leaves the built schedule
    in the entry; the calls after it do not build, do not raise, and hand
    out the signature from before (none, for a new entry) and the built
    schedule. *)
Theorem deferred_mismatch_is_raised_once self w q source names :
  subclass self = Some q →
  _source q = Some source →
  _definition self = None →
  _user_arguments self = Some names →
  names ≠ [] →
  list_to_set names ≠ all_argnames_of (built_schedule q source) →
  ∃ self' w',
    PulseQobjDef_get_signature self w = (Raises ArgumentMismatch, self', w')
    ∧ builds w' = S (builds w)
    ∧ heap w' !! fresh (dom (heap w)) = Some (built_schedule q source)
    ∧ PulseQobjDef_get_signature self' w' = (Returns (_signature self), self', w')
    ∧ PulseQobjDef_get_schedule [] ∅ self' w'
      = (Returns (Some (fresh (dom (heap w)))), self', w').
Proof.
  intros Hq Hsrc Hd Hu Hne Hneq.
  set (l := fresh (dom (heap w))).
  set (self1 := set_definition (Some l) self).
  set (w1 := {| heap := <[l := built_schedule q source]> (heap w);
                trace := trace w ++ [EvBuild] |}).
  assert (Hb : PulseQobjDef__build_schedule self w = (Raises ArgumentMismatch, self1, w1)).
  { rewrite (build_schedule_spec _ _ _ _ Hq Hsrc).
    rewrite (parse_argument_explicit _ _ l (built_schedule q source) names);
      [|done|apply lookup_insert_eq|done|done].
    by rewrite bool_decide_true. }
  exists self1, w1. split_and!.
  - unfold PulseQobjDef_get_signature, build_if_unbuilt. run. by rewrite Hd, Hb.
  - apply builds_emit.
  - apply lookup_insert_eq.
  - by rewrite (get_signature_built _ _ l).
  - rewrite (built_get_schedule _ _ l) by done. by apply get_schedule_stored.
Qed.
End lifecycle.

Section partial_calls.
Context `{!PyEnv}.

(** [get_schedule] turns every error of the binding into its own error,
    before it looks at the schedule. *)
Lemma get_schedule_refused self w l sig args kwargs e :
  _definition self = Some l →
  _signature self = Some sig →
  args ≠ [] ∨ kwargs ≠ ∅ →
  Signature_bind_partial sig args kwargs = Raises e →
  ScheduleDef_get_schedule args kwargs self w = (Raises BindingError_schedule, self, w).
Proof.
  intros Hd Hsig Hargs Hb. unfold ScheduleDef_get_schedule.
  rewrite (get_schedule_nonempty _ _ Hargs).
  rewrite bind_run. unfold except_TypeError. rewrite bind_run.
  rewrite (virtual_get_signature_built _ _ _ Hd). cbn beta iota.
  rewrite Hsig, lift_run, Hb. by rewrite (Signature_bind_raises _ _ _ _ _ Hb).
Qed.

(** X8. Whatever the signature of a defined entry is, [get_schedule]
    raises the binding error, and neither allocates nor changes anything,
    when a keyword argument has no place in the signature or when there
    are more positional arguments than places. *)
Theorem get_schedule_refuses_surplus_arguments self w l sig args kwargs :
  _definition self = Some l →
  _signature self = Some sig →
  (∃ k, is_Some (kwargs !! k) ∧ accepts_keyword sig k = false)
  ∨ accepts_positions sig (length args) = false →
  ScheduleDef_get_schedule args kwargs self w = (Raises BindingError_schedule, self, w).
Proof.
  intros Hd Hsig Hbad.
  assert (Hargs : args ≠ [] ∨ kwargs ≠ ∅).
  { destruct Hbad as [(k & [v Hk] & _)|Hpos].
    - right. intros ->. by rewrite lookup_empty in Hk.
    - left. intros ->. unfold accepts_positions in Hpos. cbn [length] in Hpos.
      rewrite bool_decide_true in Hpos by lia. done. }
  destruct (Signature_bind_partial sig args kwargs) as [arguments|e] eqn:Hb.
  - destruct (bind_partial_accepts _ _ _ _ Hb) as [Hkw Hpos].
    destruct Hbad as [(k & Hk & Hno)|Hno]; [rewrite (Hkw k Hk) in Hno|rewrite Hpos in Hno];
      done.
  - by apply (get_schedule_refused _ _ l sig _ _ e).
Qed.

(** X9. For a defined entry whose signature lists the distinct names
    [names], as [_parse_argument] makes it: [get_schedule] binds exactly
    when there are no more positional arguments than names and every
    keyword is one of the names that no positional argument has taken;
    missing arguments are never an error.  The i-th positional argument
    then stands for the i-th name, every other name has the value of its
    keyword or none, and the new schedule is the stored one with the
    operands of bound names replaced.  In every other case the call
    raises the binding error and changes nothing. *)
Theorem get_schedule_binds_by_position_and_keyword self w l s names args kwargs :
  _definition self = Some l →
  _signature self = Some (plain_signature names) →
  NoDup names →
  heap w !! l = Some s →
  args ≠ [] ∨ kwargs ≠ ∅ →
  (fits names args kwargs →
   ∃ arguments s',
     ScheduleDef_get_schedule args kwargs self w
     = (Returns (Some (fresh (dom (heap w)))), self,
        with_heap (<[fresh (dom (heap w)) := s']> (heap w)) w)
     ∧ sched_instructions s'
       = prod_map id (Instruction_bind arguments) <$> sched_instructions s
     ∧ (∀ i n v, names !! i = Some n → args !! i = Some v → arguments !! n = Some v)
     ∧ (∀ k, k ∉ take (length args) names → arguments !! k = kwargs !! k))
  ∧ (¬ fits names args kwargs →
     ScheduleDef_get_schedule args kwargs self w
     = (Raises BindingError_schedule, self, w)).
Proof.
  intros Hd Hsig Hnd Hs Hargs. split.
  - intros Hfit.
    destruct (bind_partial_plain_returns names args kwargs Hnd Hfit)
      as (arguments & Hb & Hpos & Hkw).
    exists arguments,
      (Schedule_assign (make_value_dict (Schedule_parameters s) arguments) s).
    split_and!; [|apply assign_by_name|done|done].
    rewrite (get_schedule_with_arguments _ _ _ _ _ _ _ Hd Hsig Hs Hargs). by rewrite Hb.
  - intros Hno.
    destruct (Signature_bind_partial (plain_signature names) args kwargs)
      as [arguments|e] eqn:Hb.
    + destruct Hno. by apply bind_partial_plain_fits with arguments.
    + by apply (get_schedule_refused _ _ l (plain_signature names) _ _ e).
Qed.

(** X10. One positional value for each name of the signature, when the
    names cover the parameters of the stored schedule, gives a schedule
    without any parameter left. *)
Theorem one_value_per_name_resolves_the_schedule self w l s names args :
  _definition self = Some l →
  _signature self = Some (plain_signature names) →
  NoDup names →
  heap w !! l = Some s →
  args ≠ [] →
  length args = length names →
  (∀ p, p ∈ Schedule_parameters s → pname p ∈ names) →
  ∃ l' s',
    ScheduleDef_get_schedule args ∅ self w
    = (Returns (Some l'), self, with_heap (<[l' := s']> (heap w)) w)
    ∧ heap w !! l' = None
    ∧ Schedule_parameters s' = ∅.
Proof.
  intros Hd Hsig Hnd Hs Hargs Hlen Hcover.
  assert (Hfit : fits names args ∅).
  { split; [lia|]. intros k [v Hk]. by rewrite lookup_empty in Hk. }
  destruct (bind_partial_plain_returns names args ∅ Hnd Hfit)
    as (arguments & Hb & Hpos & _).
  eexists _, _. split_and!.
  - rewrite (get_schedule_with_arguments _ _ _ _ _ _ _ Hd Hsig Hs (or_introl Hargs)).
    rewrite Hb. reflexivity.
  - apply fresh_loc_unused.
  - apply set_eq. intros p. rewrite elem_of_empty.
    rewrite (bind_parameters s _ arguments p (assign_by_name s arguments)).
    split; [|done]. intros [Hp Hnone].
    apply Hcover, list_elem_of_lookup in Hp as [i Hi].
    destruct (lookup_lt_is_Some_2 args i) as [v Hv].
    { rewrite Hlen. by apply lookup_lt_Some in Hi. }
    rewrite (Hpos i _ v Hi Hv) in Hnone. done.
Qed.

(** X11. Parameters of the stored schedule that have the same name are
    treated identically: the loop of [get_schedule] gives both the value
    bound to the name, or gives neither a value. *)
Theorem same_name_parameters_get_the_same_value s
    (arguments : gmap string PyVal) p1 p2 :
  p1 ∈ Schedule_parameters s →
  p2 ∈ Schedule_parameters s →
  pname p1 = pname p2 →
  make_value_dict (Schedule_parameters s) arguments !! p1 = arguments !! pname p1
  ∧ make_value_dict (Schedule_parameters s) arguments !! p2 = arguments !! pname p1
  ∧ Operand_assign (make_value_dict (Schedule_parameters s) arguments) (Unbound p1)
    = Operand_bind arguments (Unbound p1)
  ∧ Operand_assign (make_value_dict (Schedule_parameters s) arguments) (Unbound p2)
    = match arguments !! pname p1 with
      | Some v => Bound v
      | None => Unbound p2
      end.
Proof.
  intros H1 H2 Hn. rewrite !make_value_dict_lookup, !decide_True by done.
  cbn [Operand_assign Operand_bind]. rewrite !make_value_dict_lookup, !decide_True by done.
  by rewrite Hn.
Qed.
End partial_calls.

Section comparisons.
Context `{!PyEnv}.

Lemma definition_eq_reads_only {E} a b (self : E) w :
  ∃ r, definition_eq a b self w = (r, self, w).
Proof.
  destruct a as [l1|], b as [|l2|f]; cbn [definition_eq]; run; eauto.
  unfold read_schedule. destruct (heap w !! l1); cbn beta iota; [|eauto].
  run. destruct (heap w !! l2); cbn beta iota; eauto.
Qed.

(** The build step of a deferred entry counts one build, whatever comes of
    it. *)
Lemma build_counts_once self w q :
  subclass self = Some q →
  ∃ r self' w', PulseQobjDef__build_schedule self w = (r, self', w')
                ∧ builds w' = S (builds w).
Proof.
  intros Hq. destruct (_source q) as [source|] eqn:Hsrc.
  - destruct (build_schedule_outcome self w q source Hq Hsrc) as (r & sig' & ->).
    eexists _, _, _. split; [done|]. apply builds_emit.
  - rewrite (build_without_source _ _ _ Hq Hsrc).
    eexists _, _, _. split; [done|]. apply builds_emit.
Qed.

(** X12. The operator [==] with a plain [ScheduleDef] on the left never
    changes that entry.  When the other operand is no [PulseQobjDef], the
    operator is [ScheduleDef.__eq__], which only reads: the other operand
    and the store stay as they are, and against an entry without a
    definition the answer only says whether this entry has no definition
    either, so two undefined entries are equal whatever their argument
    names.  When the other operand is a [PulseQobjDef], the answer is that
    of its reflected [__eq__]: nothing changes if it is built, and it is
    built, with one build counted, if it was not. *)
Theorem ScheduleDef_operator_eq_dispatch self other w :
  subclass self = None →
  ∃ r other' w',
    operator_eq self other w = (r, self, other', w')
    ∧ (isinstance_PulseQobjDef other = None →
       ScheduleDef_eq other self w = (r, self, w)
       ∧ other' = other
       ∧ w' = w
       ∧ (getattr_definition other = Returns RefNone →
          r = Returns (bool_decide (_definition self = None))))
    ∧ (∀ o, other = ObjScheduleDef o →
            is_Some (subclass o) →
            ∃ o', other' = ObjScheduleDef o'
                  ∧ PulseQobjDef_eq (ObjScheduleDef self) o w = (r, o', w')
                  ∧ (is_Some (_definition o) → o' = o ∧ w' = w)
                  ∧ (_definition o = None → builds w' = S (builds w))).
Proof.
  intros Hsub.
  assert (Hplain : ∃ r, ScheduleDef_eq other self w = (r, self, w)
                        ∧ (getattr_definition other = Returns RefNone →
                           r = Returns (bool_decide (_definition self = None)))).
  { unfold ScheduleDef_eq. run.
    destruct (getattr_definition other) as [b|e] eqn:Hb; cbn beta iota.
    - destruct (definition_eq_reads_only (_definition self) b self w) as [r Hr].
      exists r. split; [done|]. intros [= ->].
      destruct (_definition self) as [l|]; cbn [definition_eq] in Hr;
        rewrite mret_run in Hr; by injection Hr as <-.
    - by exists (Raises e). }
  unfold operator_eq. rewrite Hsub.
  destruct other as [v|l|o|co].
  - destruct Hplain as (r & Hr & Hnone). rewrite Hr.
    exists r, (ObjVal v), w. split_and!; [done|done|]. by intros o [=].
  - destruct Hplain as (r & Hr & Hnone). rewrite Hr.
    exists r, (ObjSchedule l), w. split_and!; [done|done|]. by intros o [=].
  - destruct (subclass o) as [q|] eqn:Hq.
    + rewrite bool_decide_true by by eexists.
      assert (Hrefl : ∃ r o' w',
                PulseQobjDef_eq (ObjScheduleDef self) o w = (r, o', w')
                ∧ (is_Some (_definition o) → o' = o ∧ w' = w)
                ∧ (_definition o = None → builds w' = S (builds w))).
      { unfold PulseQobjDef_eq. cbn [isinstance_PulseQobjDef isinstance_ScheduleDef].
        rewrite Hsub. run. cbn [andb getattr_definition].
        destruct (_definition o) as [lo|] eqn:Hdo.
        - rewrite bool_decide_false by done. run. rewrite Hdo.
          destruct (definition_eq_reads_only (Some lo)
                      (ref_of_schedule (_definition self)) o w) as [r Hr].
          exists r, o, w. split_and!; [done|done|done].
        - rewrite bool_decide_true by done.
          destruct (build_counts_once o w q Hq) as (rb & o1 & w1 & -> & Hb1).
          destruct rb as [[]|e]; cbn beta iota.
          + run.
            destruct (definition_eq_reads_only (_definition o1)
                        (ref_of_schedule (_definition self)) o1 w1) as [r Hr].
            exists r, o1, w1. split_and!; [done| |done]. by intros [? ?].
          + exists (Raises e), o1, w1. split_and!; [done| |done]. by intros [? ?]. }
      destruct Hrefl as (r & o' & w' & Hr & Hbuilt & Hunbuilt). rewrite Hr.
      exists r, (ObjScheduleDef o'), w'. split_and!; [done| |].
      * cbn [isinstance_PulseQobjDef]. by rewrite Hq.
      * intros o0 [= <-] _. by exists o'.
    + rewrite bool_decide_false by by intros [? ?].
      destruct Hplain as (r & Hr & Hnone). rewrite Hr.
      exists r, (ObjScheduleDef o), w. split_and!; [done|done|].
      intros o0 [= <-] [? ?]. congruence.
  - destruct Hplain as (r & Hr & Hnone). rewrite Hr.
    exists r, (ObjCallableDef co), w. split_and!; [done|done|]. by intros o [=].
Qed.

(** X13. [CallableDef.__eq__] between two callback entries is the identity
    of the stored callables: it is symmetric, says [True] exactly when
    both store the same callable or both store none, and calls neither
    callback. *)
Theorem CallableDef_eq_is_identity (a b : CallableDef.t) w :
  ∃ r, CallableDef_eq (ObjCallableDef b) a w = (Returns r, a, w)
       ∧ CallableDef_eq (ObjCallableDef a) b w = (Returns r, b, w)
       ∧ (r = true
          ↔ option_map callable_id (CallableDef._definition a)
            = option_map callable_id (CallableDef._definition b)).
Proof.
  unfold CallableDef_eq. run. cbn [getattr_definition].
  destruct (CallableDef._definition a) as [f|], (CallableDef._definition b) as [g|];
    cbn [ref_of_callable definition_is option_map].
  - exists (bool_decide (callable_id f = callable_id g)). split_and!; [done| |].
    + rewrite mret_run. do 3 f_equal. apply bool_decide_ext. split; congruence.
    + rewrite bool_decide_eq_true. split; congruence.
  - exists false. split_and!; done.
  - exists false. split_and!; done.
  - exists true. split_and!; done.
Qed.

(** X14. Once a deferred entry holds a schedule it behaves as an entry of
    its base class: [get_signature], [get_schedule] with any arguments and
    [__str__] are those of [ScheduleDef], and so is [__eq__] against
    everything that is no deferred entry. *)
Theorem built_entry_behaves_as_its_base_class self w l args kwargs other :
  _definition self = Some l →
  PulseQobjDef_get_signature self w = ScheduleDef_get_signature self w
  ∧ PulseQobjDef_get_schedule args kwargs self w
    = ScheduleDef_get_schedule args kwargs self w
  ∧ PulseQobjDef_str self w = ScheduleDef_str self w
  ∧ (isinstance_PulseQobjDef other = None →
     PulseQobjDef_eq other self w = ScheduleDef_eq other self w).
Proof.
  intros Hd. split_and!.
  - rewrite (get_signature_built _ _ l) by done. unfold ScheduleDef_get_signature. by run.
  - by apply built_get_schedule with l.
  - unfold PulseQobjDef_str. run. by rewrite Hd.
  - intros Ho. unfold PulseQobjDef_eq, ScheduleDef_eq. rewrite Ho. run.
    rewrite Hd. rewrite (bool_decide_false (Some l = None)) by done.
    rewrite andb_false_r. run. by rewrite ?Hd.
Qed.

(** X16. The text of an entry is made without building and without
    changing the entry or the store; this holds for [ScheduleDef.__str__] on a deferred entry as
    well, built or not. *)
Theorem str_changes_nothing (self : ScheduleDef.t) (cself : CallableDef.t) w :
  (∃ r, ScheduleDef_str self w = (r, self, w))
  ∧ (∃ r, PulseQobjDef_str self w = (r, self, w))
  ∧ (∃ r, CallableDef_str cself w = (r, cself, w)).
Proof.
  assert (Hs : ∃ r, ScheduleDef_str self w = (r, self, w)).
  { unfold ScheduleDef_str, definition_schedule. run.
    destruct (_definition self) as [l|] eqn:Hd; run; [|eauto].
    unfold read_schedule at 1. destruct (heap w !! l) as [s|]; cbn beta iota; [|eauto].
    rewrite bind_run, (virtual_get_signature_built _ _ _ Hd). cbn beta iota.
    destruct (_signature self) as [sig|]; run; [|eauto].
    case_bool_decide; run; eauto. }
  split_and!; [done| |].
  - unfold PulseQobjDef_str. run. destruct (_definition self); run; eauto.
  - unfold CallableDef_str. run.
    destruct (CallableDef._signature cself); run; [|eauto].
    destruct (CallableDef._definition cself); run; eauto.
Qed.

(** X21. [PulseQobjDef.__eq__] builds only when an unbuilt entry is
    compared with an entry of the inline family that is no deferred entry:
    against anything else, and once it is built, it changes neither the
    entry nor the store.  In particular an unbuilt deferred entry, source
    or not, is equal to a callback entry that stores no callable. *)
Theorem PulseQobjDef_eq_builds_for_inline_entries_only self other w q :
  subclass self = Some q →
  (isinstance_ScheduleDef other = false
   ∨ is_Some (isinstance_PulseQobjDef other)
   ∨ is_Some (_definition self) →
   ∃ r, PulseQobjDef_eq other self w = (r, self, w))
  ∧ (∀ cother, _definition self = None →
       CallableDef._definition cother = None →
       PulseQobjDef_eq (ObjCallableDef cother) self w = (Returns true, self, w)).
Proof.
  intros Hq. split.
  - intros Hcase. unfold PulseQobjDef_eq.
    destruct (isinstance_PulseQobjDef other) as [q'|] eqn:Hi.
    { unfold subclass_fields. run. rewrite Hq. run. eauto. }
    run. replace (isinstance_ScheduleDef other && bool_decide (_definition self = None))
      with false.
    2:{ symmetry. apply andb_false_iff.
        destruct Hcase as [Ho|[[? Ho]|[l Hd]]]; [by left|done|].
        right. rewrite Hd. by apply bool_decide_eq_false. }
    run. destruct (getattr_definition other) as [b|e]; cbn beta iota; [|eauto].
    apply definition_eq_reads_only.
  - intros cother Hd Hc. unfold PulseQobjDef_eq.
    cbn [isinstance_PulseQobjDef isinstance_ScheduleDef getattr_definition andb].
    run. rewrite Hd, Hc. by run.
Qed.
End comparisons.

Section defaults.
Implicit Types (kwargs arguments : gmap string PyVal) (params : list SigParam).

Lemma apply_defaults_fold_lookup arguments params :
  ∀ (acc : gmap string PyVal),
    let f := λ (new_arguments : gmap string PyVal) param,
               match arguments !! param_name param with
               | Some v => <[param_name param := v]> new_arguments
               | None =>
                   match param_default param with
                   | Some val => <[param_name param := val]> new_arguments
                   | None =>
                       match param_kind param with
                       | VAR_POSITIONAL => <[param_name param := VTuple []]> new_arguments
                       | VAR_KEYWORD => <[param_name param := VDict []]> new_arguments
                       | _ => new_arguments
                       end
                   end
               end in
    (∀ k, k ∉ param_name <$> params → foldl f acc params !! k = acc !! k)
    ∧ (NoDup (param_name <$> params) →
       ∀ p, p ∈ params →
         (∀ v, arguments !! param_name p = Some v →
               foldl f acc params !! param_name p = Some v)
         ∧ (∀ d, arguments !! param_name p = None → param_default p = Some d →
                 foldl f acc params !! param_name p = Some d)).
Proof.
  induction params as [|p0 params IH]; intros acc f; cbn [foldl fmap list_fmap].
  { split; [done|]. intros _ p Hp. by apply elem_of_nil in Hp. }
  destruct (IH (f acc p0)) as [Hout Hin]. fold f in Hout, Hin. split.
  - intros k Hk. apply not_elem_of_cons in Hk as [Hne Hk]. rewrite (Hout k Hk).
    unfold f. repeat case_match; by rewrite ?lookup_insert_ne.
  - intros Hnd p Hp. apply NoDup_cons in Hnd as [Hnin Hnd].
    apply elem_of_cons in Hp as [->|Hp]; [|by apply Hin].
    rewrite (Hout _ Hnin). unfold f. split.
    + intros v Hv. by rewrite Hv, lookup_insert_eq.
    + intros d Hv Hd. by rewrite Hv, Hd, lookup_insert_eq.
Qed.
End defaults.

Section callback_defaults.
Context `{!PyEnv}.

(** X15. After [define] with a callable whose parameters have distinct
    names, a call that binds passes to the callable keyword arguments that
    name parameters only; a parameter that the call has given a value
    keeps it, also when it has a default, and a parameter that the call
    has left out gets its default. *)
Theorem callback_arguments_prefer_the_call f self0 w0 self w args kwargs
    (to_bind : gmap string PyVal) :
  CallableDef_define f self0 w0 = (Returns (), self, w) →
  NoDup (signature_names (callable_signature f)) →
  Signature_bind (callable_signature f) args kwargs = Returns to_bind →
  CallableDef_get_signature self w = (Returns (Some (callable_signature f)), self, w)
  ∧ ∃ r w' a,
      CallableDef_get_schedule args kwargs self w = (r, self, w')
      ∧ trace w' = trace w ++ [EvInvoke (callable_id f) a]
      ∧ (∀ k, is_Some (a !! k) → k ∈ signature_names (callable_signature f))
      ∧ (∀ p v, p ∈ parameters (callable_signature f) →
                to_bind !! param_name p = Some v → a !! param_name p = Some v)
      ∧ (∀ p d, p ∈ parameters (callable_signature f) →
                to_bind !! param_name p = None → param_default p = Some d →
                a !! param_name p = Some d).
Proof.
  unfold CallableDef_define. rewrite set_self_run. intros [= <- <-] Hnd Hb.
  split; [done|].
  set (self := {| CallableDef._definition := Some f;
                  CallableDef._signature := Some (callable_signature f) |}).
  pose proof (CallableDef_get_schedule_spec f (callable_signature f) args kwargs
                self w0 eq_refl eq_refl) as Hg.
  rewrite Hb in Hg. cbv zeta in Hg.
  destruct (apply_defaults_fold_lookup to_bind (parameters (callable_signature f)) ∅)
    as [Hout Hin].
  assert (Hthree :
    (∀ k, is_Some (apply_defaults (callable_signature f) to_bind !! k) →
          k ∈ signature_names (callable_signature f))
    ∧ (∀ p v, p ∈ parameters (callable_signature f) →
              to_bind !! param_name p = Some v →
              apply_defaults (callable_signature f) to_bind !! param_name p = Some v)
    ∧ (∀ p d, p ∈ parameters (callable_signature f) →
              to_bind !! param_name p = None → param_default p = Some d →
              apply_defaults (callable_signature f) to_bind !! param_name p = Some d)).
  { unfold apply_defaults. split_and!.
    - intros k [v Hk].
      destruct (decide (k ∈ signature_names (callable_signature f))) as [|Hno]; [done|].
      rewrite (Hout k Hno), lookup_empty in Hk. done.
    - intros p v Hp Hv. destruct (Hin Hnd p Hp) as [H1 _]. by apply H1.
    - intros p d Hp Hv Hd. destruct (Hin Hnd p Hp) as [_ H2]. by apply H2. }
  destruct (callable_call f (apply_defaults (callable_signature f) to_bind) (heap w0))
    as [[l|e] h1].
  - destruct (h1 !! l) as [s|]; eexists _, _, _; (split; [exact Hg|]); by cbn [trace].
  - eexists _, _, _. split; [exact Hg|]. by cbn [trace].
Qed.
End callback_defaults.

Section signatures.
Context `{!PyEnv}.

Lemma inspect_Parameter_inv name p :
  inspect_Parameter name POSITIONAL_OR_KEYWORD None = Returns p →
  param_default p = None ∧ takes_position p = true.
Proof.
  unfold inspect_Parameter.
  rewrite (bool_decide_false (is_Some None)) by by intros [? ?]. cbn [andb].
  destruct name as [|c rest]; [done|].
  destruct (_ && str_isdigit rest).
  - rewrite (bool_decide_false (_ ≠ _)) by by intros [].
    destruct (negb _); [done|]. by intros [= <-].
  - destruct (_ || _); [done|]. by intros [= <-].
Qed.

Lemma inspect_Parameter_raises name kind default e :
  inspect_Parameter name kind default = Raises e → e = ValueError ∨ e = IndexError.
Proof.
  unfold inspect_Parameter. repeat case_match; intros [=]; auto.
Qed.

Lemma make_params_inv argnames : ∀ params,
  make_params argnames = Returns params →
  Forall2 (λ n p, inspect_Parameter n POSITIONAL_OR_KEYWORD None = Returns p)
          argnames params.
Proof.
  induction argnames as [|n argnames IH]; intros params; cbn [make_params].
  - intros [= <-]. constructor.
  - destruct (inspect_Parameter n POSITIONAL_OR_KEYWORD None) as [p|e] eqn:Hp; [|done].
    destruct (make_params argnames) as [ps|e]; [|done].
    intros [= <-]. constructor; [done|by apply IH].
Qed.

Lemma make_params_raises argnames e :
  make_params argnames = Raises e → e = ValueError ∨ e = IndexError.
Proof.
  induction argnames as [|n argnames IH]; cbn [make_params]; [done|].
  destruct (inspect_Parameter n POSITIONAL_OR_KEYWORD None) as [p|e'] eqn:Hp.
  - destruct (make_params argnames) as [ps|e']; [done|]. intros [= <-]. by apply IH.
  - intros [= <-]. by apply inspect_Parameter_raises in Hp.
Qed.

Lemma Signature_validate_raises params : ∀ top kd seen e,
  Signature_validate params top kd seen = Raises e → e = ValueError.
Proof.
  induction params as [|p params IH]; intros top kd seen e; cbn [Signature_validate];
    [done|].
  repeat case_match; try (by intros [= <-]); apply IH.
Qed.

Lemma Signature_validate_NoDup params : ∀ top kd seen,
  Signature_validate params top kd seen = Returns () →
  NoDup (param_name <$> params) ∧ ∀ n, n ∈ param_name <$> params → n ∉ seen.
Proof.
  induction params as [|p params IH]; intros top kd seen; cbn [Signature_validate].
  { intros _. split; [constructor|]. intros n Hn. by apply elem_of_nil in Hn. }
  destruct (bool_decide (kind_value (param_kind p) < kind_value top)); [done|].
  destruct (if bool_decide (kind_value (param_kind p) > kind_value top)
            then (false, param_kind p) else (kd, top)) as [kd' top'].
  destruct (_ && _ && kd'); [done|].
  case_bool_decide as Hb; [done|].
  intros [Hnd Hseen]%IH. cbn [fmap list_fmap]. split.
  - apply NoDup_cons. split; [|done].
    intros Hin. apply (Hseen _ Hin), elem_of_union_l. by apply elem_of_singleton.
  - intros n [->|Hn]%elem_of_cons; [done|].
    intros Hs. by apply (Hseen n Hn), elem_of_union_r.
Qed.

(** [inspect.Signature] accepts only parameters with distinct names. *)
Lemma inspect_Signature_inv params sig :
  inspect_Signature params = Returns sig →
  parameters sig = params ∧ NoDup (signature_names sig).
Proof.
  unfold inspect_Signature.
  destruct (Signature_validate params POSITIONAL_ONLY false ∅) as [[]|e] eqn:Hv; [|done].
  intros [= <-]. split; [done|]. by apply Signature_validate_NoDup in Hv as [Hnd _].
Qed.

Lemma inspect_Signature_raises params e :
  inspect_Signature params = Raises e → e = ValueError.
Proof.
  unfold inspect_Signature.
  destruct (Signature_validate params POSITIONAL_ONLY false ∅) as [[]|e'] eqn:Hv; [done|].
  intros [= <-]. by apply Signature_validate_raises in Hv.
Qed.

(** Names that give parameters with distinct names are distinct. *)
Lemma make_params_NoDup argnames params :
  make_params argnames = Returns params →
  NoDup (param_name <$> params) →
  NoDup argnames ∧ length params = length argnames.
Proof.
  intros Hall%make_params_inv Hnd. split; [|symmetry; by eapply Forall2_length].
  apply NoDup_alt. intros i j n Hi Hj.
  destruct (Forall2_lookup_l _ _ _ _ _ Hall Hi) as (pi & Hpi & Hipi).
  destruct (Forall2_lookup_l _ _ _ _ _ Hall Hj) as (pj & Hpj & Hipj).
  assert (pi = pj) as <- by congruence.
  apply (proj1 (NoDup_alt _) Hnd i j (param_name pi)); by rewrite list_lookup_fmap, ?Hpi, ?Hpj.
Qed.

(** What [_parse_argument] has checked when it returns. *)
Lemma parse_argument_returns self w l s self' w' :
  _definition self = Some l →
  heap w !! l = Some s →
  ScheduleDef__parse_argument self w = (Returns (), self', w') →
  ∃ argnames params sig,
    (if truthy (_user_arguments self)
     then _user_arguments self = Some argnames
          ∧ list_to_set argnames = all_argnames_of s
     else argnames = sorted (elements (all_argnames_of s)))
    ∧ make_params argnames = Returns params
    ∧ inspect_Signature params = Returns sig
    ∧ self' = set_signature (Some sig) self
    ∧ w' = w.
Proof.
  intros Hd Hs. unfold ScheduleDef__parse_argument, definition_schedule.
  run. rewrite Hd, (read_schedule_run _ _ _ _ Hs). run.
  destruct (truthy (_user_arguments self)) eqn:Hu.
  - destruct (_user_arguments self) as [names|] eqn:Hn; [|done].
    change (default [] (Some names)) with names.
    case_bool_decide as Hset; run; [done|].
    destruct (make_params names) as [params|e] eqn:Hp; run; [|done].
    destruct (inspect_Signature params) as [sig|e] eqn:Hsig; run; [|done].
    intros [= <- <-]. exists names, params, sig. split_and!; done.
  - run.
    destruct (make_params _) as [params|e] eqn:Hp; run; [|done].
    destruct (inspect_Signature params) as [sig|e] eqn:Hsig; run; [|done].
    intros [= <- <-]. by eexists _, params, sig.
Qed.

(** What a [define] that returns has established. *)
Lemma define_returns_inv self w l s self' w' :
  heap w !! l = Some s →
  ScheduleDef_define l self w = (Returns (), self', w') →
  ∃ argnames params sig,
    (if truthy (_user_arguments self)
     then _user_arguments self = Some argnames
          ∧ list_to_set argnames = all_argnames_of s
     else argnames = sorted (elements (all_argnames_of s)))
    ∧ make_params argnames = Returns params
    ∧ inspect_Signature params = Returns sig
    ∧ self' = set_signature (Some sig) (set_definition (Some l) self).
Proof.
  intros Hs Hdef. destruct (define_spec self w l s Hs) as (s' & Hi & Heq).
  rewrite Heq in Hdef.
  apply (parse_argument_returns _ _ l s') in Hdef
    as (argnames & params & sig & Hnames & Hp & Hsig & -> & _);
    [|done|apply lookup_insert_eq].
  destruct (all_argnames_of_instructions s s' Hi) as [_ Hns]. rewrite Hns in Hnames.
  by exists argnames, params, sig.
Qed.

(** X17. Whenever [define] returns, with or without argument names of the
    caller, the entry holds the schedule and a signature with exactly one
    parameter for each distinct parameter name of the schedule: the names
    of the signature are pairwise distinct, and every parameter can be
    given by position and has no default.  Argument names of the caller
    that were accepted are pairwise distinct. *)
Theorem defined_signature_has_one_parameter_per_name self w l s self' w' :
  heap w !! l = Some s →
  ScheduleDef_define l self w = (Returns (), self', w') →
  ∃ sig,
    _definition self' = Some l
    ∧ _signature self' = Some sig
    ∧ NoDup (signature_names sig)
    ∧ length (parameters sig) = size (all_argnames_of s)
    ∧ Forall (λ p, param_default p = None ∧ takes_position p = true) (parameters sig)
    ∧ (truthy (_user_arguments self) = true →
       ∃ names, _user_arguments self = Some names ∧ NoDup names
                ∧ list_to_set names = all_argnames_of s).
Proof.
  intros Hs Hdef.
  destruct (define_returns_inv _ _ _ _ _ _ Hs Hdef)
    as (argnames & params & sig & Hnames & Hp & Hsig & ->).
  apply inspect_Signature_inv in Hsig as [Hpar Hnd].
  unfold signature_names in Hnd. rewrite Hpar in Hnd.
  destruct (make_params_NoDup _ _ Hp Hnd) as [Hnd' Hlen].
  exists sig. split_and!; [done|done| | | |].
  - unfold signature_names. by rewrite Hpar.
  - rewrite Hpar, Hlen. destruct (truthy (_user_arguments self)).
    + destruct Hnames as [_ <-]. by rewrite size_list_to_set.
    + subst argnames. unfold sorted.
      by rewrite (Permutation_length (merge_sort_Permutation _ _)).
  - rewrite Hpar. apply make_params_inv in Hp.
    apply Forall_forall. intros p [i Hi]%list_elem_of_lookup.
    destruct (Forall2_lookup_r _ _ _ _ _ Hp Hi) as (n & _ & Hn).
    by apply inspect_Parameter_inv in Hn.
  - intros Hu. rewrite Hu in Hnames. destruct Hnames as [Hn Hset]. by exists argnames.
Qed.

Lemma omap_as_str_VStr (names : list string) : omap as_str (VStr <$> names) = names.
Proof. induction names as [|n names IH]; [done|]. cbn. by rewrite IH. Qed.

(** X18. Argument names with a repetition are accepted by the
    constructor, which only looks for strings, and refused by every
    [define]: it raises, with [ValueError] (no [PulseError]) when the names
    are valid parameter names and cover the parameters of the schedule,
    and the entry refers to the schedule all the same. *)
Theorem repeated_argument_names_fail_at_define self w l s names :
  heap w !! l = Some s →
  _user_arguments self = Some names →
  ¬ NoDup names →
  ScheduleDef_init (Some (VStr <$> names)) = Returns (new_entry (Some names))
  ∧ ∃ e w',
      ScheduleDef_define l self w = (Raises e, set_definition (Some l) self, w')
      ∧ (e = ArgumentMismatch ∨ e = ValueError ∨ e = IndexError)
      ∧ (list_to_set names = all_argnames_of s →
         Forall (λ n, valid_parameter_name n = true) names →
         e = ValueError).
Proof.
  intros Hs Hu Hdup. split.
  { unfold ScheduleDef_init. change (default [] (Some (VStr <$> names))) with (VStr <$> names).
    replace (forallb _ (VStr <$> names)) with true.
    2:{ symmetry. apply forallb_forall. intros v Hv%list_elem_of_In.
        apply list_elem_of_fmap in Hv as (n & -> & _). apply bool_decide_eq_true.
        by eexists. }
    rewrite andb_false_r. cbn [option_map]. by rewrite omap_as_str_VStr. }
  assert (Hne : names ≠ []) by (intros ->; apply Hdup; constructor).
  destruct (define_spec self w l s Hs) as (s' & Hi & Heq).
  destruct (all_argnames_of_instructions s s' Hi) as [_ Hns].
  rewrite (parse_argument_explicit _ _ l s' names) in Heq;
    [|done|apply lookup_insert_eq|done|done].
  rewrite Hns in Heq. rewrite Heq. clear Heq.
  case_bool_decide as Hset.
  { eexists _, _. split; [done|]. split; [by left|]. intros Hset'. by destruct Hset. }
  destruct (make_params names) as [params|e] eqn:Hp.
  2:{ eexists _, _. split; [done|]. split.
      - apply make_params_raises in Hp as [->| ->]; auto.
      - intros _ Hvalid. rewrite make_params_valid in Hp by done. done. }
  destruct (inspect_Signature params) as [sig|e] eqn:Hsig.
  - exfalso. apply inspect_Signature_inv in Hsig as [Hpar Hnd].
    unfold signature_names in Hnd. rewrite Hpar in Hnd.
    by destruct (make_params_NoDup _ _ Hp Hnd).
  - apply inspect_Signature_raises in Hsig as ->.
    eexists _, _. split; [done|]. auto.
Qed.
End signatures.

Section deferred_calls.
Context `{!PyEnv}.

Lemma join_names_nonempty names :
  names ≠ [] →
  Forall (λ n, valid_parameter_name n = true) names →
  join_names names ≠ EmptyString.
Proof.
  intros Hne Hvalid. destruct names as [|n rest]; [done|].
  apply Forall_cons in Hvalid as [Hn _]. destruct n as [|c n]; [done|].
  destruct rest; done.
Qed.

(** X19. A deferred entry with argument names of the caller checks them
    at the first use, not at [define]: when they are distinct valid names
    and cover the parameters of the built schedule, the first
    [get_signature] builds once and returns the names in the caller's
    order, and the built entry, when it was given a name for its schedule,
    shows that name with these names. *)
Theorem deferred_entry_keeps_the_given_order self w q source names n :
  subclass self = Some q →
  _source q = Some source →
  _name q = Some n →
  _definition self = None →
  _user_arguments self = Some names →
  names ≠ [] →
  NoDup names →
  Forall (λ n, valid_parameter_name n = true) names →
  list_to_set names = all_argnames_of (built_schedule q source) →
  ∃ self' w',
    PulseQobjDef_get_signature self w
    = (Returns (Some (plain_signature names)), self', w')
    ∧ builds w' = S (builds w)
    ∧ signature_names (plain_signature names) = names
    ∧ PulseQobjDef_str self' w'
      = (Returns (("Schedule " +:+ n) +:+ "(" +:+ join_names names +:+ ")"), self', w').
Proof.
  intros Hq Hsrc Hname Hd Hu Hne Hnd Hvalid Hset.
  set (l := fresh (dom (heap w))).
  set (self1 := set_signature (Some (plain_signature names))
                  (set_definition (Some l) self)).
  set (w1 := {| heap := <[l := built_schedule q source]> (heap w);
                trace := trace w ++ [EvBuild] |}).
  assert (Hb : PulseQobjDef__build_schedule self w = (Returns (), self1, w1)).
  { rewrite (build_schedule_spec _ _ _ _ Hq Hsrc).
    rewrite (parse_argument_explicit _ _ l (built_schedule q source) names);
      [|done|apply lookup_insert_eq|done|done].
    rewrite bool_decide_false by by intros [].
    by rewrite make_params_valid, inspect_Signature_plain. }
  exists self1, w1. split_and!.
  - unfold PulseQobjDef_get_signature, build_if_unbuilt. run. rewrite Hd, Hb.
    cbn beta iota. unfold ScheduleDef_get_signature. by run.
  - apply builds_emit.
  - apply signature_names_plain.
  - unfold PulseQobjDef_str. run. change (_definition self1) with (Some l). cbn beta iota.
    unfold ScheduleDef_str, definition_schedule. run.
    change (_definition self1) with (Some l). cbn beta iota.
    rewrite (read_schedule_run l self1 w1 (built_schedule q source))
      by apply lookup_insert_eq.
    cbn beta iota. rewrite bind_run, (virtual_get_signature_built _ _ l) by done.
    change (_signature self1) with (Some (plain_signature names)). cbn beta iota zeta.
    unfold plain_signature. rewrite signature_names_plain.
    rewrite bool_decide_false by exact (join_names_nonempty _ Hne Hvalid).
    run. do 4 f_equal.
    unfold built_schedule, tagged. cbn [sched_name]. rewrite insert_all_name.
    cbn [Schedule_new sched_name]. by rewrite Hname.
Qed.

(** X20. The first [get_schedule] with arguments on a deferred entry
    without argument names of its own, whose converted parameters have
    valid names: it builds once, keeps the built schedule in the entry
    unbound, and returns another new schedule, which is the built one with
    the operands of the bound names replaced. *)
Theorem first_get_schedule_builds_then_binds self w q source args kwargs
    (arguments : gmap string PyVal) :
  subclass self = Some q →
  _source q = Some source →
  _definition self = None →
  truthy (_user_arguments self) = false →
  (∀ p, p ∈ Schedule_parameters (built_schedule q source) →
        valid_parameter_name (pname p) = true) →
  args ≠ [] ∨ kwargs ≠ ∅ →
  Signature_bind_partial
    (plain_signature (sorted (elements (all_argnames_of (built_schedule q source)))))
    args kwargs = Returns arguments →
  ∃ self' w' l l' s',
    PulseQobjDef_get_schedule args kwargs self w = (Returns (Some l'), self', w')
    ∧ builds w' = S (builds w)
    ∧ _definition self' = Some l
    ∧ l ≠ l'
    ∧ heap w !! l = None
    ∧ heap w !! l' = None
    ∧ heap w' !! l = Some (built_schedule q source)
    ∧ heap w' !! l' = Some s'
    ∧ sched_instructions s'
      = prod_map id (Instruction_bind arguments)
        <$> sched_instructions (built_schedule q source).
Proof.
  intros Hq Hsrc Hd Hu Hvalid Hargs Hbind.
  set (l := fresh (dom (heap w))).
  set (names := sorted (elements (all_argnames_of (built_schedule q source)))) in *.
  set (self1 := set_signature (Some (plain_signature names))
                  (set_definition (Some l) self)).
  set (w1 := {| heap := <[l := built_schedule q source]> (heap w);
                trace := trace w ++ [EvBuild] |}).
  assert (Hb : PulseQobjDef__build_schedule self w = (Returns (), self1, w1)).
  { rewrite (build_schedule_spec _ _ _ _ Hq Hsrc).
    by rewrite (parse_argument_sorted _ _ l (built_schedule q source));
      [|done|apply lookup_insert_eq|done|done]. }
  assert (Hs1 : heap w1 !! l = Some (built_schedule q source)) by apply lookup_insert_eq.
  set (l' := fresh (dom (heap w1))).
  assert (Hl' : heap w1 !! l' = None) by apply fresh_loc_unused.
  assert (Hne : l ≠ l') by (intros Heq; rewrite <-Heq in Hl'; congruence).
  eexists self1, _, l, l', _. split_and!.
  - unfold PulseQobjDef_get_schedule, build_if_unbuilt. run. rewrite Hd, Hb.
    cbn beta iota.
    rewrite (get_schedule_with_arguments self1 w1 l (built_schedule q source)
               (plain_signature names) args kwargs eq_refl eq_refl Hs1 Hargs).
    rewrite Hbind. reflexivity.
  - cbn [with_heap trace builds]. apply (builds_emit w).
  - done.
  - done.
  - apply fresh_loc_unused.
  - cbn [w1 heap] in Hl'. by rewrite lookup_insert_ne in Hl'.
  - cbn [with_heap heap]. by rewrite lookup_insert_ne.
  - cbn [with_heap heap]. apply lookup_insert_eq.
  - apply assign_by_name.
Qed.
End deferred_calls.

(** * The statements at concrete entries *)

Section examples.
#[local] Existing Instance example_env.

(** An entry without argument names is defined with a schedule whose
    parameter is named [amp[0]]: [define] raises [ValueError] and the entry
    has no signature. *)
Lemma C3_counterexample :
  ScheduleDef_init None = Returns (new_entry None)
  ∧ let '(r, self', w') := ScheduleDef_define 0%nat (new_entry None) indexed_world in
    r = Raises ValueError
    ∧ (ScheduleDef_get_signature self' w').1.1 = Returns None.
Proof. vm_compute. auto. Qed.

(** The schedule with the parameters [dur] and [amp]: the signature lists
    [amp] before [dur]. *)
Lemma C3_witness :
  ∃ self' w' sig,
    ScheduleDef_define 0%nat (new_entry None) example_world = (Returns (), self', w')
    ∧ ScheduleDef_get_signature self' w' = (Returns (Some sig), self', w')
    ∧ signature_names sig = ["amp"; "dur"].
Proof.
  destruct (C3_signature_names_sorted (new_entry None) example_world 0%nat
              example_schedule) as (self' & w' & sig & Hd & Hs & Hn & _).
  - reflexivity.
  - reflexivity.
  - intros p Hp. apply elem_of_list_to_set in Hp. cbn in Hp.
    apply elem_of_cons in Hp as [->|Hp]; [reflexivity|].
    apply list_elem_of_singleton in Hp as ->. reflexivity.
  - exists self', w', sig. split_and!; [done|done|]. rewrite Hn. by vm_compute.
Defined.

(** A deferred entry with the two-instruction source: the first call
    builds once and returns the signature of the built schedule; the two
    calls after it build nothing, and a call after them returns the
    schedule that the first one stored. *)
Lemma C1_witness :
  PulseQobjDef_init None (Some example_converter) (Some "xgate")
  = Returns (example_deferred None)
  ∧ ∃ self2 w2 w3 l,
      PulseQobjDef_get_signature (example_deferred (Some example_source)) empty_world
      = (Returns (Some {| parameters := [] |}), self2, w2)
      ∧ perform GetSignature (example_deferred (Some example_source), empty_world) = (self2, w2)
      ∧ builds w2 = 1%nat
      ∧ perform_all [GetSchedule [] ∅; GetSignature] (self2, w2) = (self2, w3)
      ∧ builds w3 = 1%nat
      ∧ heap w3 !! l = Some (built_schedule (example_fields (Some example_source))
                               example_source)
      ∧ PulseQobjDef_get_schedule [] ∅ self2 w3 = (Returns (Some l), self2, w3).
Proof.
  split; [reflexivity|].
  destruct (C1_build_exactly_once (example_deferred None) empty_world
              (example_fields None) example_source GetSignature
              [GetSchedule [] ∅; GetSignature] eq_refl eq_refl)
    as (self1 & q1 & self2 & w2 & l & rb & Hdef & Hq1 & _ & _ & _ & _ & Hfirst & Hp & Hb
        & _ & Hs2 & Hsig & w3 & Hp3 & Hb3 & Hs3 & _ & Hget).
  assert (Hself1 : self1 = example_deferred (Some example_source)).
  { injection Hdef as <-. reflexivity. }
  subst self1.
  assert (Hq : q1 = example_fields (Some example_source)).
  { injection Hq1 as <-. reflexivity. }
  subst q1.
  destruct Hsig as [-> Hsig].
  { reflexivity. }
  { intros p Hp'. apply elem_of_list_to_set in Hp'. vm_compute in Hp'.
    by apply elem_of_nil in Hp'. }
  match type of Hsig with
  | _ = Some {| parameters := ?X |} =>
      assert (Hnames : X = []) by (vm_compute; reflexivity); rewrite Hnames in Hsig
  end.
  cbn beta iota in Hfirst. rewrite Hsig in Hfirst.
  pose proof Hp as Hp0. unfold perform in Hp0. cbn [fst snd] in Hp0.
  rewrite Hfirst in Hp0. injection Hp0 as Hw. subst w2.
  eexists self2, _, w3, l. split_and!.
  - rewrite Hfirst. reflexivity.
  - exact Hp.
  - exact Hb.
  - exact Hp3.
  - rewrite Hb3. exact Hb.
  - rewrite Hs3. exact Hs2.
  - rewrite Hget. unfold answer_from.
    replace (bool_decide (@nil PyVal = []) && negb (dict_nonempty ∅)) with true
      by (vm_compute; reflexivity).
    reflexivity.
Defined.

(** The source with offsets 10 and 5 is built into a schedule with the
    instruction at 5 before the one at 10. *)
Lemma C2_witness :
  ∃ r self' w' l s,
    PulseQobjDef__build_schedule (example_deferred (Some example_source)) empty_world
    = (r, self', w')
    ∧ _definition self' = Some l
    ∧ heap w' !! l = Some s
    ∧ sched_instructions s
      = [(5, {| opcode := "early"; operands := [] |});
         (10, {| opcode := "late"; operands := [] |})]
    ∧ sched_metadata s !! "publisher" = Some (VPublisher BACKEND_PROVIDER).
Proof.
  destruct (C2_build_orders_by_offset (example_deferred (Some example_source)) empty_world
              (example_fields (Some example_source)) example_source eq_refl eq_refl)
    as (r & self' & w' & l & s & Hb & _ & Hd & Hs & _ & _ & _ & _ & Hex & Htag).
  exists r, self', w', l, s. split_and!; [done|done|done| |done].
  apply (Hex _ _ eq_refl eq_refl eq_refl).
Defined.

(** Defining [new_entry None] with [example_schedule]. *)
Lemma example_define :
  ScheduleDef_define 0%nat (new_entry None) example_world
  = (Returns (), example_defined, example_defined_world).
Proof. reflexivity. Qed.

(** One positional argument binds [amp]; [dur] stays symbolic and the
    result is a new object. *)
Lemma C4_witness :
  ∃ l' s',
    ScheduleDef_get_schedule [VInt 1] ∅ example_defined example_defined_world
    = (Returns (Some l'), example_defined,
       with_heap (<[l' := s']> (heap example_defined_world)) example_defined_world)
    ∧ l' ≠ 0%nat
    ∧ sched_instructions s' = [(0, play [Unbound dur; Bound (VInt 1)])].
Proof.
  destruct (C4_partial_binding_frame example_defined example_defined_world 0%nat
              (tagged QISKIT example_schedule)
              {| parameters := [plain_param "amp"; plain_param "dur"] |}
              [VInt 1] ∅ {[ "amp" := VInt 1 ]})
    as (l' & s' & Hg & _ & Hne & _ & Hi & _).
  - reflexivity.
  - reflexivity.
  - reflexivity.
  - left. discriminate.
  - reflexivity.
  - exists l', s'. split_and!; [exact Hg|exact Hne|]. rewrite Hi. reflexivity.
Defined.

(** Without arguments the required [amp] is missing and the call is
    refused; with [amp] given the callback is called once, [dur] taking its
    default. *)
Lemma C5_witness :
  let self := {| CallableDef._definition := Some example_callable;
                 CallableDef._signature := Some (callable_signature example_callable) |} in
  CallableDef_get_schedule [] ∅ self empty_world
  = (Raises BindingError_function, self, empty_world)
  ∧ ∃ r w', CallableDef_get_schedule [VInt 1] ∅ self empty_world = (r, self, w')
            ∧ trace w'
              = [EvInvoke 7 {[ "amp" := VInt 1; "dur" := VInt 160 ]}].
Proof.
  intros self. split.
  - apply (proj1 (C5_callback_binding_and_invocation example_callable [] ∅ empty_world)
             0%nat {| param_name := "amp"; param_kind := POSITIONAL_OR_KEYWORD;
                      param_default := None |});
      reflexivity.
  - pose proof (proj2 (proj2 (proj2 (proj2
      (C5_callback_binding_and_invocation example_callable [VInt 1] ∅ empty_world)))))
      as Hc.
    change (Signature_bind (callable_signature example_callable) [VInt 1] ∅)
      with (Returns ({[ "amp" := VInt 1 ]} : gmap string PyVal)) in Hc.
    cbv beta iota zeta in Hc.
    destruct Hc as (_ & r & w' & Hg & Ht & _).
    exists r, w'. split; [exact Hg|]. rewrite Ht. reflexivity.
Defined.

(** The names [dur], [amp] are kept in this order; the single name [amp]
    does not cover the parameters and is refused. *)
Lemma C6_witness :
  (∃ self' w' sig,
     ScheduleDef_define 0%nat (new_entry (Some ["dur"; "amp"])) example_world
     = (Returns (), self', w')
     ∧ ScheduleDef_get_signature self' w' = (Returns (Some sig), self', w')
     ∧ signature_names sig = ["dur"; "amp"])
  ∧ ∃ self' w',
      ScheduleDef_define 0%nat (new_entry (Some ["amp"])) example_world
      = (Raises ArgumentMismatch, self', w').
Proof.
  split.
  - apply (proj1 (C6_explicit_names_order (new_entry (Some ["dur"; "amp"])) example_world
                    0%nat example_schedule ["dur"; "amp"] eq_refl ltac:(discriminate) eq_refl)).
    + vm_compute. reflexivity.
    + apply (bool_decide_unpack _). vm_compute. exact I.
    + repeat constructor.
  - apply (proj2 (C6_explicit_names_order (new_entry (Some ["amp"])) example_world
                    0%nat example_schedule ["amp"] eq_refl ltac:(discriminate) eq_refl)).
    apply (bool_decide_unpack _). vm_compute. exact I.
Defined.

(** Three lists of names for which the dichotomy fails: a repeated name
    and a name that is no identifier have the set of the parameters and
    still make [define] raise [ValueError]; the empty list differs from
    the set of the parameters and [define] goes through, with the sorted
    signature.  In all three the constructor has accepted the names. *)
Lemma C6_counterexample :
  (ScheduleDef_init (Some [VStr "amp"; VStr "amp"; VStr "dur"])
   = Returns (new_entry (Some ["amp"; "amp"; "dur"]))
   ∧ (list_to_set ["amp"; "amp"; "dur"] : gset string) = all_argnames_of example_schedule
   ∧ let '(r, self', w') :=
       ScheduleDef_define 0%nat (new_entry (Some ["amp"; "amp"; "dur"])) example_world in
     r = Raises ValueError ∧ (ScheduleDef_get_signature self' w').1.1 = Returns None)
  ∧ (ScheduleDef_init (Some [VStr "amp[0]"]) = Returns (new_entry (Some ["amp[0]"]))
     ∧ (list_to_set ["amp[0]"] : gset string) = all_argnames_of indexed_schedule
     ∧ let '(r, self', w') :=
         ScheduleDef_define 0%nat (new_entry (Some ["amp[0]"])) indexed_world in
       r = Raises ValueError ∧ (ScheduleDef_get_signature self' w').1.1 = Returns None)
  ∧ (ScheduleDef_init (Some []) = Returns (new_entry (Some []))
     ∧ (list_to_set [] : gset string) ≠ all_argnames_of example_schedule
     ∧ let '(r, self', w') :=
         ScheduleDef_define 0%nat (new_entry (Some [])) example_world in
       r = Returns ()
       ∧ (ScheduleDef_get_signature self' w').1.1
         = Returns (Some {| parameters := [plain_param "amp"; plain_param "dur"] |})).
Proof.
  split_and!.
  - reflexivity.
  - vm_compute. reflexivity.
  - vm_compute. auto.
  - reflexivity.
  - vm_compute. reflexivity.
  - vm_compute. auto.
  - reflexivity.
  - apply (bool_decide_unpack _). vm_compute. exact I.
  - vm_compute. auto.
Qed.

(** The defined entry returns the reference it stores. *)
Lemma C7_witness :
  ScheduleDef_get_schedule [] ∅ example_defined example_defined_world
  = (Returns (Some 0%nat), example_defined, example_defined_world).
Proof. apply (C7_no_arguments_returns_stored example_defined example_defined_world 0%nat). reflexivity. Defined.

(** Two deferred entries with the same source are equal without a build;
    against the defined inline entry the deferred one builds once and
    answers with the equality of the two schedules. *)
Lemma C8_witness :
  PulseQobjDef_eq (ObjScheduleDef (example_deferred (Some example_source)))
    (example_deferred (Some example_source)) empty_world
  = (Returns true, example_deferred (Some example_source), empty_world)
  ∧ ∃ self' w',
      PulseQobjDef_eq (ObjScheduleDef example_defined)
        (example_deferred (Some example_source)) example_defined_world
      = (Returns (Schedule_eqb (built_schedule (example_fields (Some example_source))
                                  example_source)
                    (tagged QISKIT example_schedule)), self', w')
      ∧ builds w' = 1%nat.
Proof.
  split.
  - rewrite (proj1 (C8_equality_of_deferred_entries
                      (example_deferred (Some example_source)) empty_world
                      (example_fields (Some example_source)) eq_refl)
               (example_deferred (Some example_source))
               (example_fields (Some example_source)) eq_refl).
    reflexivity.
  - assert (Hs : heap example_defined_world !! 0%nat
                 = Some (tagged QISKIT example_schedule)).
    { vm_compute. reflexivity. }
    destruct (proj2 (C8_equality_of_deferred_entries
                       (example_deferred (Some example_source)) example_defined_world
                       (example_fields (Some example_source)) eq_refl)
                example_source example_defined 0%nat (tagged QISKIT example_schedule)
                eq_refl eq_refl eq_refl eq_refl Hs)
      as (rb & r & self' & w' & _ & Heq & Hb & _ & Hr & _).
    exists self', w'. split; [|exact Hb]. rewrite Heq, Hr; [reflexivity|reflexivity|].
    intros p Hp. apply elem_of_list_to_set in Hp. vm_compute in Hp.
    by apply elem_of_nil in Hp.
Defined.

(** A deferred entry that was given the argument name [amp] and a source
    whose instructions have no parameter: compared with the defined inline
    entry it builds once and raises the error for the mismatch; it
    compares no schedules. *)
Lemma C8_counterexample :
  PulseQobjDef_init (Some [VStr "amp"]) (Some example_converter) (Some "xgate")
  = Returns {| _user_arguments := Some ["amp"]; _definition := None; _signature := None;
               subclass := Some (example_fields None) |}
  ∧ PulseQobjDef_define example_source
      {| _user_arguments := Some ["amp"]; _definition := None; _signature := None;
         subclass := Some (example_fields None) |} example_defined_world
    = (Returns (), deferred_with (Some ["amp"]) example_converter, example_defined_world)
  ∧ _definition example_defined = Some 0%nat
  ∧ let '(r, self', w') :=
      PulseQobjDef_eq (ObjScheduleDef example_defined)
        (deferred_with (Some ["amp"]) example_converter) example_defined_world in
    r = Raises ArgumentMismatch ∧ builds w' = 1%nat.
Proof.
  split_and!.
  - reflexivity.
  - reflexivity.
  - reflexivity.
  - vm_compute. auto.
Qed.

(** Defining an entry again with its tagged schedule keeps the tag. *)
Lemma C9_witness :
    tags_kept (heap example_defined_world)
              (heap (ScheduleDef_define 0%nat example_defined example_defined_world).2)
    ∧ publisher_at (heap example_defined_world) 0%nat = Some (VPublisher QISKIT).
Proof.
    split; [|reflexivity].
    apply (proj1 (C9_publisher_tag_never_overwritten example_defined CallableDef_init
                    example_defined_world)).
Defined.

(** Comparing the defined entry with [None]. *)
Lemma C10_witness :
  ScheduleDef_eq (ObjVal VNone) example_defined example_defined_world
  = (Raises AttributeError, example_defined, example_defined_world).
Proof.
  apply (proj1 (C10_equality_without_definition example_defined CallableDef_init
                  (ObjVal VNone) example_defined_world eq_refl)).
Defined.
(** A new entry refuses a positional argument with [AttributeError]. *)
Lemma undefined_entry_witness :
  ScheduleDef_get_schedule [VInt 1] ∅ (new_entry None) empty_world
  = (Raises AttributeError, new_entry None, empty_world).
Proof.
  destruct (undefined_entry_has_nothing_to_bind None (new_entry None) [VInt 1] ∅
              empty_world eq_refl) as (_ & _ & Hg & _).
  apply Hg. left. discriminate.
Defined.

(** The single name [amp] does not cover [amp] and [dur]: [define] raises,
    and the entry hands out the schedule without having a signature. *)
Lemma failed_define_witness :
  ∃ self' w',
    ScheduleDef_define 0%nat (new_entry (Some ["amp"])) example_world
    = (Raises ArgumentMismatch, self', w')
    ∧ ScheduleDef_get_schedule [] ∅ self' w' = (Returns (Some 0%nat), self', w')
    ∧ ScheduleDef_get_signature self' w' = (Returns None, self', w').
Proof.
  assert (Hdef : ScheduleDef_define 0%nat (new_entry (Some ["amp"])) example_world
                 = (Raises ArgumentMismatch,
                    set_definition (Some 0%nat) (new_entry (Some ["amp"])),
                    example_defined_world)).
  { vm_compute. reflexivity. }
  destruct (failed_define_keeps_the_new_schedule (new_entry (Some ["amp"])) example_world
              0%nat example_schedule _ _ _ eq_refl Hdef) as (_ & _ & _ & Hg & Hs).
  eexists _, _. split; [exact Hdef|]. split; [exact Hg|exact Hs].
Defined.

(** The built entry is given an empty source and still hands out the
    schedule at reference 0. *)
Lemma redefine_witness :
  ∃ self',
    PulseQobjDef_define [] built_entry example_defined_world
    = (Returns (), self', example_defined_world)
    ∧ PulseQobjDef_get_schedule [] ∅ self' example_defined_world
      = (Returns (Some 0%nat), self', example_defined_world).
Proof.
  destruct (redefine_keeps_the_built_schedule built_entry example_defined_world
              (example_fields (Some example_source)) 0%nat [] eq_refl eq_refl)
    as (self' & H1 & _ & H3 & _).
  exists self'. split; [exact H1|exact H3].
Defined.

(** A deferred entry right after its construction. *)
Lemma deferred_without_source_witness :
  ∃ w', PulseQobjDef_get_signature (example_deferred None) empty_world
        = (Raises TypeError, example_deferred None, w')
        ∧ builds w' = 1%nat.
Proof.
  assert (Hinit : PulseQobjDef_init None None (Some "xgate")
                  = Returns (example_deferred None)) by reflexivity.
  destruct (deferred_entry_without_source None None (Some "xgate") (example_deferred None)
              [] ∅ empty_world Hinit) as (_ & w' & H1 & _ & H3 & _).
  exists w'. split; [exact H1|exact H3].
Defined.

(** The name [amp] for a source whose instructions have no parameter. *)
Lemma deferred_mismatch_witness :
  ∃ self' w',
    PulseQobjDef_get_signature (deferred_with (Some ["amp"]) example_converter) empty_world
    = (Raises ArgumentMismatch, self', w')
    ∧ PulseQobjDef_get_signature self' w' = (Returns None, self', w').
Proof.
  destruct (deferred_mismatch_is_raised_once (deferred_with (Some ["amp"]) example_converter)
              empty_world (example_fields (Some example_source)) example_source ["amp"]
              eq_refl eq_refl eq_refl eq_refl)
    as (self' & w' & H1 & _ & _ & H4 & _).
  - discriminate.
  - apply (bool_decide_unpack _). vm_compute. exact I.
  - exists self', w'. split; [exact H1|exact H4].
Defined.

(** The defined entry has no parameter [phase]. *)
Lemma surplus_keyword_witness :
  ScheduleDef_get_schedule [] {[ "phase" := VInt 1 ]} example_defined example_defined_world
  = (Raises BindingError_schedule, example_defined, example_defined_world).
Proof.
  apply (get_schedule_refuses_surplus_arguments example_defined example_defined_world 0%nat
           {| parameters := [plain_param "amp"; plain_param "dur"] |} []
           {[ "phase" := VInt 1 ]} eq_refl eq_refl).
  left. exists "phase". split; [|vm_compute; reflexivity].
  exists (VInt 1). vm_compute. reflexivity.
Defined.

(** One positional value for [amp] and the keyword [dur] bind both names;
    the keyword [amp] next to a positional value is refused. *)
Lemma position_and_keyword_witness :
  (∃ s',
     ScheduleDef_get_schedule [VInt 1] {[ "dur" := VInt 160 ]}
       example_defined example_defined_world
     = (Returns (Some (fresh (dom (heap example_defined_world)))), example_defined,
        with_heap (<[fresh (dom (heap example_defined_world)) := s']>
                     (heap example_defined_world)) example_defined_world)
     ∧ sched_instructions s' = [(0, play [Bound (VInt 160); Bound (VInt 1)])])
  ∧ ScheduleDef_get_schedule [VInt 1] {[ "amp" := VInt 2 ]}
      example_defined example_defined_world
    = (Raises BindingError_schedule, example_defined, example_defined_world).
Proof.
  assert (Hnd : NoDup ["amp"; "dur"]).
  { apply (bool_decide_unpack _). vm_compute. exact I. }
  assert (Hs : heap example_defined_world !! 0%nat = Some (tagged QISKIT example_schedule)).
  { vm_compute. reflexivity. }
  assert (Hargs : ∀ kwargs : gmap string PyVal, [VInt 1] ≠ [] ∨ kwargs ≠ ∅).
  { intros kwargs. left. discriminate. }
  split.
  - destruct (get_schedule_binds_by_position_and_keyword example_defined
                example_defined_world 0%nat (tagged QISKIT example_schedule)
                ["amp"; "dur"] [VInt 1] {[ "dur" := VInt 160 ]}
                eq_refl eq_refl Hnd Hs (Hargs _)) as [Hyes _].
    destruct Hyes as (arguments & s' & Hg & Hi & Hpos & Hkw).
    { split; [cbn; lia|]. intros k [v Hk].
      apply lookup_singleton_Some in Hk as [<- _].
      change (drop (length [VInt 1]) ["amp"; "dur"]) with ["dur"].
      by apply list_elem_of_singleton. }
    exists s'. split; [exact Hg|]. rewrite Hi.
    change (sched_instructions (tagged QISKIT example_schedule))
      with [(0, play [Unbound dur; Unbound amp])].
    unfold play, Instruction_bind, prod_map.
    cbn [fmap list_fmap Operand_bind operands opcode fst snd id].
    change (pname dur) with "dur". change (pname amp) with "amp".
    rewrite (Hpos 0%nat "amp" (VInt 1) eq_refl eq_refl).
    rewrite (Hkw "dur").
    + vm_compute. reflexivity.
    + change (take (length [VInt 1]) ["amp"; "dur"]) with ["amp"].
      intros Hin%list_elem_of_singleton. discriminate.
  - apply (get_schedule_binds_by_position_and_keyword example_defined
             example_defined_world 0%nat (tagged QISKIT example_schedule)
             ["amp"; "dur"] [VInt 1] {[ "amp" := VInt 2 ]}
             eq_refl eq_refl Hnd Hs (Hargs _)).
    intros [_ Hkw]. specialize (Hkw "amp").
    change (drop (length [VInt 1]) ["amp"; "dur"]) with ["dur"] in Hkw.
    assert (Hin : "amp" ∈ ["dur"]).
    { apply Hkw. exists (VInt 2). vm_compute. reflexivity. }
    apply list_elem_of_singleton in Hin. discriminate.
Defined.

(** Two positional values leave no parameter. *)
Lemma all_values_witness :
  ∃ l' s',
    ScheduleDef_get_schedule [VInt 1; VInt 160] ∅ example_defined example_defined_world
    = (Returns (Some l'), example_defined,
       with_heap (<[l' := s']> (heap example_defined_world)) example_defined_world)
    ∧ Schedule_parameters s' = ∅.
Proof.
  destruct (one_value_per_name_resolves_the_schedule example_defined example_defined_world
              0%nat (tagged QISKIT example_schedule) ["amp"; "dur"] [VInt 1; VInt 160]
              eq_refl eq_refl) as (l' & s' & Hg & _ & He).
  - apply (bool_decide_unpack _). vm_compute. exact I.
  - reflexivity.
  - discriminate.
  - reflexivity.
  - intros p Hp. apply elem_of_list_to_set in Hp. cbn in Hp.
    apply elem_of_cons in Hp as [->|Hp]; [cbn; apply list_elem_of_In; cbn; auto|].
    apply list_elem_of_singleton in Hp as ->. cbn; apply list_elem_of_In; cbn; auto.
  - exists l', s'. split; [exact Hg|exact He].
Defined.

(** The two parameter objects named [amp] both get the value of [amp]. *)
Lemma same_name_witness :
  make_value_dict (Schedule_parameters twin_schedule) {[ "amp" := VInt 1 ]} !! amp
  = Some (VInt 1)
  ∧ make_value_dict (Schedule_parameters twin_schedule) {[ "amp" := VInt 1 ]} !! amp_twin
    = Some (VInt 1).
Proof.
  destruct (same_name_parameters_get_the_same_value twin_schedule {[ "amp" := VInt 1 ]}
              amp amp_twin) as (H1 & H2 & _).
  - apply (bool_decide_unpack _). vm_compute. exact I.
  - apply (bool_decide_unpack _). vm_compute. exact I.
  - reflexivity.
  - split; [rewrite H1|rewrite H2]; vm_compute; reflexivity.
Defined.

(** The built deferred entry binds as an inline entry does. *)
Lemma built_entry_witness :
  PulseQobjDef_get_schedule [VInt 1] ∅ built_entry example_defined_world
  = ScheduleDef_get_schedule [VInt 1] ∅ built_entry example_defined_world.
Proof.
  destruct (built_entry_behaves_as_its_base_class built_entry example_defined_world 0%nat
              [VInt 1] ∅ (ObjVal VNone) eq_refl) as (_ & Hg & _).
  exact Hg.
Defined.

(** The callback with the default 160 for [dur] is called with the given
    [amp] and the default. *)
Lemma callback_defaults_witness :
  let self := {| CallableDef._definition := Some example_callable;
                 CallableDef._signature := Some (callable_signature example_callable) |} in
  ∃ r w' a,
    CallableDef_get_schedule [VInt 1] ∅ self empty_world = (r, self, w')
    ∧ trace w' = [EvInvoke 7 a]
    ∧ a !! "amp" = Some (VInt 1)
    ∧ a !! "dur" = Some (VInt 160).
Proof.
  intros self.
  destruct (callback_arguments_prefer_the_call example_callable CallableDef_init empty_world
              self empty_world [VInt 1] ∅ {[ "amp" := VInt 1 ]} eq_refl)
    as (_ & r & w' & a & Hg & Ht & _ & Hgiven & Hdef).
  - apply (bool_decide_unpack _). vm_compute. exact I.
  - vm_compute. reflexivity.
  - exists r, w', a. split_and!; [exact Hg|exact Ht| |].
    + apply (Hgiven {| param_name := "amp"; param_kind := POSITIONAL_OR_KEYWORD;
                       param_default := None |}).
      * apply list_elem_of_In. cbn. auto.
      * vm_compute. reflexivity.
    + apply (Hdef {| param_name := "dur"; param_kind := POSITIONAL_OR_KEYWORD;
                     param_default := Some (VInt 160) |}).
      * apply list_elem_of_In. cbn. auto.
      * vm_compute. reflexivity.
      * reflexivity.
Defined.

(** The signature of the defined example entry has the two names of its
    schedule. *)
Lemma defined_signature_witness :
  ∃ sig, _signature example_defined = Some sig
         ∧ NoDup (signature_names sig)
         ∧ length (parameters sig) = 2%nat.
Proof.
  destruct (defined_signature_has_one_parameter_per_name (new_entry None) example_world
              0%nat example_schedule example_defined example_defined_world eq_refl
              example_define) as (sig & _ & Hsig & Hnd & Hlen & _).
  exists sig. split_and!; [exact Hsig|exact Hnd|]. rewrite Hlen. vm_compute. reflexivity.
Defined.

(** The names [amp], [amp], [dur] pass the constructor and make [define]
    raise [ValueError]. *)
Lemma repeated_names_witness :
  ScheduleDef_init (Some [VStr "amp"; VStr "amp"; VStr "dur"])
  = Returns (new_entry (Some ["amp"; "amp"; "dur"]))
  ∧ ∃ w', ScheduleDef_define 0%nat (new_entry (Some ["amp"; "amp"; "dur"])) example_world
          = (Raises ValueError,
             set_definition (Some 0%nat) (new_entry (Some ["amp"; "amp"; "dur"])), w').
Proof.
  destruct (repeated_argument_names_fail_at_define (new_entry (Some ["amp"; "amp"; "dur"]))
              example_world 0%nat example_schedule ["amp"; "amp"; "dur"] eq_refl eq_refl)
    as (Hinit & e & w' & Hdef & _ & He).
  - intros Hnd. apply NoDup_cons in Hnd as [Hn _]. apply Hn. left.
  - split; [exact Hinit|]. exists w'. rewrite Hdef. rewrite He; [reflexivity| |].
    + vm_compute. reflexivity.
    + repeat constructor.
Defined.

(** The names [dur], [amp] for a source with these parameters. *)
Lemma deferred_order_witness :
  ∃ self' w' sig,
    PulseQobjDef_get_signature (deferred_with (Some ["dur"; "amp"]) symbolic_converter)
      empty_world = (Returns (Some sig), self', w')
    ∧ signature_names sig = ["dur"; "amp"]
    ∧ PulseQobjDef_str self' w' = (Returns "Schedule xgate(dur, amp)", self', w').
Proof.
  destruct (deferred_entry_keeps_the_given_order
              (deferred_with (Some ["dur"; "amp"]) symbolic_converter) empty_world
              {| _converter := symbolic_converter; _name := Some "xgate";
                 _source := Some example_source |}
              example_source ["dur"; "amp"] "xgate" eq_refl eq_refl eq_refl eq_refl eq_refl)
    as (self' & w' & Hg & _ & Hn & Hs).
  - discriminate.
  - apply (bool_decide_unpack _). vm_compute. exact I.
  - repeat constructor.
  - vm_compute. reflexivity.
  - exists self', w', (plain_signature ["dur"; "amp"]).
    split_and!; [exact Hg|exact Hn|exact Hs].
Defined.

(** The first call with one positional value builds and binds [amp]. *)
Lemma build_then_bind_witness :
  ∃ self' w' l' s',
    PulseQobjDef_get_schedule [VInt 1] ∅ (deferred_with None symbolic_converter) empty_world
    = (Returns (Some l'), self', w')
    ∧ builds w' = 1%nat
    ∧ heap w' !! l' = Some s'
    ∧ sched_instructions s'
      = [(5, {| opcode := "early"; operands := [Unbound dur; Bound (VInt 1)] |});
         (10, {| opcode := "late"; operands := [Unbound dur; Bound (VInt 1)] |})].
Proof.
  destruct (first_get_schedule_builds_then_binds (deferred_with None symbolic_converter)
              empty_world
              {| _converter := symbolic_converter; _name := Some "xgate";
                 _source := Some example_source |}
              example_source [VInt 1] ∅ {[ "amp" := VInt 1 ]}
              eq_refl eq_refl eq_refl eq_refl)
    as (self' & w' & l & l' & s' & Hg & Hb & _ & _ & _ & _ & _ & Hs' & Hi).
  - intros p Hp. apply elem_of_list_to_set in Hp. vm_compute in Hp.
    repeat (apply elem_of_cons in Hp as [->|Hp]; [reflexivity|]).
    by apply elem_of_nil in Hp.
  - left. discriminate.
  - vm_compute. reflexivity.
  - exists self', w', l', s'. split_and!; [exact Hg|exact Hb|exact Hs'|].
    rewrite Hi. vm_compute. reflexivity.
Defined.

(** Two new entries with different argument names are equal. *)
Lemma undefined_entries_equal_witness :
  operator_eq (new_entry (Some ["amp"])) (ObjScheduleDef (new_entry (Some ["dur"])))
    empty_world
  = (Returns true, new_entry (Some ["amp"]), ObjScheduleDef (new_entry (Some ["dur"])),
     empty_world).
Proof.
  destruct (ScheduleDef_operator_eq_dispatch (new_entry (Some ["amp"]))
              (ObjScheduleDef (new_entry (Some ["dur"]))) empty_world eq_refl)
    as (r & other' & w' & Hop & Hplain & _).
  destruct (Hplain eq_refl) as (_ & -> & -> & Hr).
  rewrite Hop, (Hr eq_refl). reflexivity.
Defined.

(** An unbuilt deferred entry is equal to a new callback entry. *)
Lemma deferred_equals_callback_witness :
  PulseQobjDef_eq (ObjCallableDef CallableDef_init) (example_deferred (Some example_source))
    empty_world
  = (Returns true, example_deferred (Some example_source), empty_world).
Proof.
  destruct (PulseQobjDef_eq_builds_for_inline_entries_only
              (example_deferred (Some example_source)) (ObjCallableDef CallableDef_init)
              empty_world (example_fields (Some example_source)) eq_refl) as [_ Hc].
  apply (Hc CallableDef_init eq_refl eq_refl).
Defined.
End examples.
